(** * DetectFlow: checkpointed orchestration and the resilient writer

    A shallow embedding of [detectflow/process/orchestrator.py] and
    [detectflow/manipulators/database_manipulator.py], followed by the
    properties of the checkpoint store, the task planner, the progress
    tracker and the batched writer.

    Python objects are embedded as follows.
    - A [dict] is an association list with the insertion order of its keys;
      [dict_set] is [d[k] = v] (in place for a known key, appended for a
      new one), [dict_get] is [d.get(k)], [dict_mem] is [k in d].
    - Integers are [Z], strings are [string].
    - Exceptions are explicit: a function that can raise returns an
      [outcome]; a [try]/[except] is a case analysis on it.
    - The file system and the log are part of the state that every
      operation threads through; what the operating system, the SQLite
      driver and the absent helper [get_numeric_hash] decide is read from
      an explicit environment. *)

From Stdlib Require Import ZArith List Ascii String Bool Lia.
From stdpp Require Import base gmap strings list.
Import ListNotations.

Local Open Scope string_scope.
Local Open Scope Z_scope.

(** ** Python data *)

Inductive exn : Type :=
| ValueError
| TypeError
| FileNotFoundError
| RuntimeError
| UnboundLocalError
| OverflowError.

Inductive outcome : Type :=
| Returned
| Raised (e : exn).

Definition is_returned (r : outcome) : bool :=
  match r with Returned => true | Raised _ => false end.

(** Dictionaries keyed by strings, in insertion order. *)
Definition dict (V : Type) : Type := list (string * V).

Section Dict.
Context {V : Type}.

Fixpoint dict_get (k : string) (d : dict V) : option V :=
  match d with
  | [] => None
  | (k', v) :: d' => if String.eqb k k' then Some v else dict_get k d'
  end.

Definition dict_mem (k : string) (d : dict V) : bool :=
  match dict_get k d with Some _ => true | None => false end.

Fixpoint dict_set (k : string) (v : V) (d : dict V) : dict V :=
  match d with
  | [] => [(k, v)]
  | (k', v') :: d' =>
      if String.eqb k k' then (k, v) :: d' else (k', v') :: dict_set k v d'
  end.

Definition dict_keys (d : dict V) : list string := map fst d.
Definition dict_values (d : dict V) : list V := map snd d.

(** [dict(pairs)]: later pairs override earlier ones. *)
Definition dict_of_pairs (kvs : list (string * V)) : dict V :=
  fold_left (fun d kv => dict_set (fst kv) (snd kv) d) kvs [].
End Dict.

(** The values that reach [json.dump] and come back from [json.load].
    Dictionary keys are strings, as in every dictionary of the checkpoint. *)
#[warnings="-register-all"]
Inductive pyval : Type :=
| PNone
| PBool (b : bool)
| PInt (z : Z)
| PStr (s : string)
| PList (l : list pyval)
| PTuple (l : list pyval)
| PDict (d : list (string * pyval)).

(** A JSON document.  The text that [json.dump] prints and [json.load]
    parses is taken at the level of the document it denotes. *)
#[warnings="-register-all"]
Inductive json : Type :=
| JNull
| JBool (b : bool)
| JNum (z : Z)
| JStr (s : string)
| JArr (l : list json)
| JObj (members : list (string * json)).

(** [json.dump]: lists and tuples both become arrays. *)
Fixpoint json_dump (v : pyval) : json :=
  match v with
  | PNone => JNull
  | PBool b => JBool b
  | PInt z => JNum z
  | PStr s => JStr s
  | PList l => JArr (map json_dump l)
  | PTuple l => JArr (map json_dump l)
  | PDict d => JObj (map (fun '(k, x) => (k, json_dump x)) d)
  end.

(** [json.load]: arrays become lists, objects become dictionaries filled
    member by member. *)
Fixpoint json_load (j : json) : pyval :=
  match j with
  | JNull => PNone
  | JBool b => PBool b
  | JNum z => PInt z
  | JStr s => PStr s
  | JArr l => PList (map json_load l)
  | JObj ms => PDict (dict_of_pairs (map (fun '(k, x) => (k, json_load x)) ms))
  end.

(** [isinstance(v, int)]: [bool] is a subclass of [int]. *)
Definition as_int (v : pyval) : option Z :=
  match v with
  | PInt z => Some z
  | PBool b => Some (Z.b2z b)
  | _ => None
  end.

Definition as_str (v : pyval) : option string :=
  match v with PStr s => Some s | _ => None end.

Definition pyval_is_str (s : string) (v : pyval) : bool :=
  match v with PStr s' => String.eqb s s' | _ => false end.

(** [s.startswith(p)] and [s.endswith("/")]. *)
Fixpoint startswith (p s : string) : bool :=
  match p, s with
  | EmptyString, _ => true
  | String a p', String b s' => if Ascii.eqb a b then startswith p' s' else false
  | String _ _, EmptyString => false
  end.

Fixpoint endswith_sep (s : string) : bool :=
  match s with
  | EmptyString => false
  | String a EmptyString => Ascii.eqb a "/"%char
  | String _ s' => endswith_sep s'
  end.

(** [needle in haystack] for two strings. *)
Fixpoint str_contains (needle s : string) : bool :=
  startswith needle s
  || match s with
     | EmptyString => false
     | String _ s' => str_contains needle s'
     end.

(** [os.path.join(a, b)] on a POSIX system. *)
Definition path_join (a b : string) : string :=
  if startswith "/" b then b
  else if (String.eqb a "" || endswith_sep a)%bool then a +:+ b
  else a +:+ "/" +:+ b.

(** ** S3 paths and bucket names ([detectflow/validators/s3_validator.py]) *)

Module S3Validator.

Definition newline : ascii := "010"%char.

(** [s] without its prefix [p]; [None] if [s] does not start with [p]. *)
Fixpoint strip_prefix (p s : string) : option string :=
  match p, s with
  | EmptyString, _ => Some s
  | String a p', String b s' => if Ascii.eqb a b then strip_prefix p' s' else None
  | String _ _, EmptyString => None
  end.

(** The longest prefix of [s] without the character [c], and what
    follows it. *)
Fixpoint span_until (c : ascii) (s : string) : string * string :=
  match s with
  | EmptyString => ("", "")
  | String a s' =>
      if Ascii.eqb a c then ("", s)
      else let '(h, t) := span_until c s' in (String a h, t)
  end.

(** [_parse_s3_path]: [re.match] of the pattern made of [s3://], a first
    group [[^/]+], an optional [/] and a second group of any characters.
    The first group is the longest run of characters other than [/] and
    must not be empty; the second group runs to the end of the line,
    since the dot of the pattern matches anything but a newline. *)
Definition _parse_s3_path (s3_path : string) : option string * option string :=
  match strip_prefix "s3://" s3_path with
  | None => (None, None)
  | Some rest =>
      let '(bucket, after) := span_until "/" rest in
      if String.eqb bucket "" then (None, None)
      else
        let key := match after with String _ t => t | EmptyString => "" end in
        (Some bucket, Some (fst (span_until newline key)))
  end.

(** [[a-z0-9-]]. *)
Definition bucket_char (a : ascii) : bool :=
  let n := nat_of_ascii a in
  ((97 <=? n)%nat && (n <=? 122)%nat) || ((48 <=? n)%nat && (n <=? 57)%nat) || (n =? 45)%nat.

Fixpoint string_forallb (f : ascii -> bool) (s : string) : bool :=
  match s with
  | EmptyString => true
  | String a s' => f a && string_forallb f s'
  end.

(** The last character of [s]. *)
Fixpoint last_char (s : string) : option ascii :=
  match s with
  | EmptyString => None
  | String a EmptyString => Some a
  | String _ s' => last_char s'
  end.

(** [s] without its last character. *)
Fixpoint drop_last (s : string) : string :=
  match s with
  | EmptyString => ""
  | String a EmptyString => ""
  | String a s' => String a (drop_last s')
  end.

(** What [$] leaves to be matched: the string, without a newline that
    ends it. *)
Definition before_final_newline (s : string) : string :=
  match last_char s with
  | Some a => if Ascii.eqb a newline then drop_last s else s
  | None => s
  end.

(** [is_valid_s3_bucket_name]: [match] of the pattern made of [^], the
    lookaheads "not [-]" and "no [--] further on", 3 to 63 characters of
    [[a-z0-9-]], the lookbehind "not [-]" and [$].  The lookaheads are
    read at the start of the string, the second one staying on its first
    line; the run of characters must reach the end of the string or the
    newline that ends it, which is where [$] matches. *)
Definition is_valid_s3_bucket_name (input_data : string) : bool :=
  let body := before_final_newline input_data in
  negb (startswith "-" input_data)
  && negb (str_contains "--" (fst (span_until newline input_data)))
  && string_forallb bucket_char body
  && (3 <=? String.length body)%nat
  && (String.length body <=? 63)%nat
  && negb (match last_char body with Some a => Ascii.eqb a "-"%char | None => false end).

(** The character [c] does not occur in [s]. *)
Definition free_of (c : ascii) (s : string) : bool :=
  string_forallb (fun a => negb (Ascii.eqb a c)) s.

End S3Validator.

(** ** The orchestrator ([detectflow/process/orchestrator.py]) *)

Module Orchestrator.

Inductive level : Type := INFO | ERROR | CRITICAL.

Record LogRecord : Type := mkLog { levelname : level; message : string }.

(** One entry of [checkpoint_data['tasks']]. *)
Record TaskRecord : Type := mkTaskRecord {
  directory : string;
  status : dict Z
}.

(** [checkpoint_data], with the keys of the persisted document. *)
Record CheckpointState : Type := mkCheckpoint {
  task_name : string;
  input_type_flags : bool * bool * bool * bool;
  batch_size : Z;
  max_workers : Z;
  tasks : list TaskRecord;
  progress : dict Z
}.

(** [class Task]. *)
Record Task : Type := mkTask {
  Task_directory : string;
  _video_files : list string;
  _status : dict Z
}.

(** The attributes of [self] that the modelled methods read or write,
    with the files and the log they act on.  [None] in the queue is the
    shutdown sentinel. *)
Record Orch : Type := mkOrch {
  self_checkpoint_data : CheckpointState;
  self_task_name : string;
  self_batch_size : Z;
  self_checkpoint_file : string;
  self_fallback_directories : list string;
  self_task_queue : list (option Task);
  fs : gmap string json;
  log : list LogRecord
}.

Definition with_checkpoint (cd : CheckpointState) (o : Orch) : Orch :=
  mkOrch cd (self_task_name o) (self_batch_size o) (self_checkpoint_file o)
         (self_fallback_directories o) (self_task_queue o) (fs o) (log o).

Definition with_queue (q : list (option Task)) (o : Orch) : Orch :=
  mkOrch (self_checkpoint_data o) (self_task_name o) (self_batch_size o)
         (self_checkpoint_file o) (self_fallback_directories o) q (fs o) (log o).

Definition with_fs (f : gmap string json) (o : Orch) : Orch :=
  mkOrch (self_checkpoint_data o) (self_task_name o) (self_batch_size o)
         (self_checkpoint_file o) (self_fallback_directories o)
         (self_task_queue o) f (log o).

(** [logging.<level>(msg)]. *)
Definition logging (l : level) (msg : string) (o : Orch) : Orch :=
  mkOrch (self_checkpoint_data o) (self_task_name o) (self_batch_size o)
         (self_checkpoint_file o) (self_fallback_directories o)
         (self_task_queue o) (fs o) (log o ++ [mkLog l msg])%list.

Definition with_tasks (ts : list TaskRecord) (cd : CheckpointState) : CheckpointState :=
  mkCheckpoint (task_name cd) (input_type_flags cd) (batch_size cd)
               (max_workers cd) ts (progress cd).

Definition with_progress (p : dict Z) (cd : CheckpointState) : CheckpointState :=
  mkCheckpoint (task_name cd) (input_type_flags cd) (batch_size cd)
               (max_workers cd) (tasks cd) p.

(** *** The persisted document *)

Definition py_of_status (d : dict Z) : pyval :=
  PDict (map (fun '(k, v) => (k, PInt v)) d).

Definition py_of_task (t : TaskRecord) : pyval :=
  PDict [("directory", PStr (directory t)); ("status", py_of_status (status t))].

Definition py_of_flags (f : bool * bool * bool * bool) : pyval :=
  let '(a, b, c, d) := f in PTuple [PBool a; PBool b; PBool c; PBool d].

(** The dictionary built by [_create_new_checkpoint] (lines 210-218) and
    kept up to date afterwards. *)
Definition py_of_state (cd : CheckpointState) : pyval :=
  PDict [("task_name", PStr (task_name cd));
         ("input_type_flags", py_of_flags (input_type_flags cd));
         ("batch_size", PInt (batch_size cd));
         ("max_workers", PInt (max_workers cd));
         ("tasks", PList (map py_of_task (tasks cd)));
         ("progress", py_of_status (progress cd))].

Section Files.
(** Whether [open(path, 'w')] followed by [json.dump] goes through.  A
    write that fails is taken to fail at [open], which leaves the file
    as it was; a failure after [open], which would leave the file
    truncated, is outside this model, and no statement below depends on
    what such a file holds. *)
Variable writable : string -> bool.

(** [with open(path, 'w') as file: json.dump(data, file, indent=4)];
    [None] stands for the exception. *)
Definition dump_to (path : string) (data : pyval) (o : Orch) : option Orch :=
  if writable path then Some (with_fs (<[path := json_dump data]> (fs o)) o)
  else None.

(** The [for dir in self.fallback_directories] loop of
    [_attempt_fallback_checkpoint_write] and the statement after it. *)
Fixpoint fallback_loop (dirs : list string) (o : Orch) : Orch :=
  match dirs with
  | [] => logging CRITICAL "All attempts to write checkpoint failed. Progress may be lost." o
  | dir :: rest =>
      let fallback_file := path_join dir (self_task_name o +:+ ".json") in
      match dump_to fallback_file (py_of_state (self_checkpoint_data o)) o with
      | Some o' => logging INFO "Checkpoint successfully written to fallback location" o'
      | None =>
          fallback_loop rest
            (logging ERROR "Failed to write checkpoint to fallback location" o)
      end
  end.

Definition _attempt_fallback_checkpoint_write (o : Orch) : Orch :=
  fallback_loop (self_fallback_directories o) o.

Definition _write_checkpoint (o : Orch) : Orch :=
  match dump_to (self_checkpoint_file o) (py_of_state (self_checkpoint_data o)) o with
  | Some o' => o'
  | None =>
      _attempt_fallback_checkpoint_write
        (logging ERROR "Failed to write checkpoint file" o)
  end.
End Files.

(** *** Loading the checkpoint *)

(** [key in data].  [None] is the [TypeError] of a value that is not a
    container. *)
Definition py_in (key : string) (data : pyval) : option bool :=
  match data with
  | PDict d => Some (dict_mem key d)
  | PList l | PTuple l => Some (existsb (pyval_is_str key) l)
  | PStr s => Some (str_contains key s)
  | _ => None
  end.

(** Lines 158-161: a list under ['input_type_flags'] is replaced by the
    tuple of its elements.  Subscripting anything but a dictionary with
    a string raises [TypeError]. *)
Definition convert_flags (data : pyval) : exn + pyval :=
  match py_in "input_type_flags" data with
  | None => inl TypeError
  | Some false => inr data
  | Some true =>
      match data with
      | PDict d =>
          match dict_get "input_type_flags" d with
          | Some (PList l) => inr (PDict (dict_set "input_type_flags" (PTuple l) d))
          | _ => inr data
          end
      | _ => inl TypeError
      end
  end.

Definition required_keys : list string :=
  ["task_name"; "input_type_flags"; "batch_size"; "max_workers"; "tasks"; "progress"].

Definition positive_int (v : option pyval) : bool :=
  match v with
  | Some x => match as_int x with Some z => negb (z <=? 0) | None => false end
  | None => false
  end.

Definition _validate_checkpoint_format (data : pyval) : exn + bool :=
  match data with
  | PDict d =>
      if negb (forallb (fun key => dict_mem key d) required_keys) then inl ValueError
      else if negb (match dict_get "task_name" d with Some (PStr _) => true | _ => false end)
      then inl ValueError
      else if negb (match dict_get "input_type_flags" d with
                    | Some (PTuple l) => (length l =? 4)%nat
                    | _ => false
                    end)
      then inl ValueError
      else if negb (positive_int (dict_get "batch_size" d)) then inl ValueError
      else if negb (positive_int (dict_get "max_workers" d)) then inl ValueError
      else if negb (match dict_get "tasks" d with Some (PList _) => true | _ => false end)
      then inl ValueError
      else if negb (match dict_get "progress" d with Some (PDict _) => true | _ => false end)
      then inl ValueError
      else inr true
  | PList _ | PTuple _ | PStr _ =>
      (* membership works; the subscript [data['task_name']] does not *)
      if forallb (fun key => match py_in key data with Some b => b | None => false end)
                 required_keys
      then inl TypeError
      else inl ValueError
  | _ => inl TypeError
  end.

Inductive init_result : Type :=
| Loaded (data : pyval)          (* [self.checkpoint_data] after the call *)
| Restart                        (* [_create_new_checkpoint] takes over *)
| InitRaised (e : exn).

(** [_initialize_checkpoint], reading [self.checkpoint_file] from
    [files].  A file of this model always holds a document, so
    [json.JSONDecodeError] does not arise; the log lines of the handler
    are left out. *)
Definition _initialize_checkpoint (force_restart : bool)
    (checkpoint_file : string) (files : gmap string json) : init_result :=
  let body : exn + pyval :=
    match files !! checkpoint_file with
    | Some document =>
        match convert_flags (json_load document) with
        | inl e => inl e
        | inr data =>
            match _validate_checkpoint_format data with
            | inl e => inl e
            | inr true => inr data
            | inr false => inl ValueError
            end
        end
    | None => inl FileNotFoundError
    end in
  match body with
  | inr data => Loaded data
  | inl FileNotFoundError | inl ValueError =>
      if force_restart then Restart else InitRaised RuntimeError
  | inl e => InitRaised e
  end.

(** *** The planner *)

Section Planner.
Variable writable : string -> bool.

(** [for file in task.files: self.checkpoint_data['progress'][file] = 0]. *)
Definition mark_queued (files : list string) (p : dict Z) : dict Z :=
  fold_left (fun p file => dict_set file 0 p) files p.

Definition _queue_batch (task : Task) (o : Orch) : Orch :=
  let o1 := with_queue (self_task_queue o ++ [Some task])%list o in
  let cd := self_checkpoint_data o1 in
  let o2 := with_checkpoint (with_progress (mark_queued (_video_files task) (progress cd)) cd) o1 in
  _write_checkpoint writable o2.

(** The loop [for file, progress in status.items()] of [_manage_tasks],
    with its two accumulators; it returns them with the state. *)
Fixpoint scan_status (directory : string) (items : dict Z)
    (batch : list string) (batch_status : dict Z) (o : Orch)
    : list string * dict Z * Orch :=
  match items with
  | [] => (batch, batch_status, o)
  | (file, progress) :: rest =>
      if negb (progress =? -1) then
        let batch1 := (batch ++ [file])%list in
        let batch_status1 := dict_set file progress batch_status in
        if Z.of_nat (length batch1) >=? self_batch_size o then
          scan_status directory rest [] []
            (_queue_batch (mkTask directory batch1 batch_status1) o)
        else scan_status directory rest batch1 batch_status1 o
      else scan_status directory rest batch batch_status o
  end.

(** The body of the [for task in ...] loop, with its [try]/[except]. *)
Definition manage_task (o : Orch) (task : TaskRecord) : Orch :=
  if String.eqb (directory task) "" then
    logging ERROR "Error managing task for directory" o
  else if forallb (fun value => value =? -1) (dict_values (status task)) then o
  else
    let '(batch, batch_status, o1) := scan_status (directory task) (status task) [] [] o in
    match batch with
    | [] => o1
    | _ :: _ => _queue_batch (mkTask (directory task) batch batch_status) o1
    end.

Definition _manage_tasks (o : Orch) : Orch :=
  fold_left manage_task (tasks (self_checkpoint_data o)) o.

(** *** The progress tracker *)

(** [next((t for t in tasks if t['directory'] == directory), None)],
    with the position of the record found. *)
Fixpoint next_task (directory0 : string) (i : nat) (ts : list TaskRecord)
    : option (nat * TaskRecord) :=
  match ts with
  | [] => None
  | t :: ts' =>
      if String.eqb (directory t) directory0 then Some (i, t)
      else next_task directory0 (S i) ts'
  end.

(** [for f in task['status']: task['status'][f] = -1]. *)
Definition set_all_done (st : dict Z) : dict Z :=
  fold_left (fun st f => dict_set f (-1) st) (dict_keys st) st.

Definition _update_task_progress (directory0 file : string)
    (last_processed_frame : Z) (o : Orch) : Orch :=
  let cd := self_checkpoint_data o in
  match next_task directory0 0 (tasks cd) with
  | None => logging ERROR "Error updating task progress" o
  | Some (i, task) =>
      if negb (dict_mem file (status task)) then
        logging ERROR "Error updating task progress" o
      else
        let status1 := dict_set file last_processed_frame (status task) in
        let progress1 := dict_set file last_processed_frame (progress cd) in
        let status2 :=
          if forallb (fun s => s =? -1) (dict_values status1)
          then set_all_done status1 else status1 in
        let cd' :=
          with_progress progress1
            (with_tasks (<[i := mkTaskRecord (directory task) status2]> (tasks cd)) cd) in
        _write_checkpoint writable (with_checkpoint cd' o)
  end.

(** The [try] block of [handle_worker_update]: the state, the exception
    if one was raised, and the locals [directory] and [file] bound so
    far. *)
Definition handle_worker_update_body (update_info : dict pyval) (o : Orch)
    : Orch * option exn * option pyval * option pyval :=
  if negb (forallb (fun key => dict_mem key update_info) ["directory"; "file"; "status"])
  then (o, Some ValueError, None, None)
  else
    match dict_get "directory" update_info, dict_get "file" update_info,
          dict_get "status" update_info with
    | Some directory0, Some file, Some last_processed_frame =>
        match as_str directory0, as_str file, as_int last_processed_frame with
        | Some d, Some f, Some n =>
            (_update_task_progress d f n o, None, Some directory0, Some file)
        | _, _, _ => (o, Some ValueError, Some directory0, Some file)
        end
    | _, _, _ => (o, Some ValueError, None, None)
    end.

(** [handle_worker_update]: the handler formats its message from the
    locals [file] and [directory]; reading a local that the [try] block
    has not bound yet raises [UnboundLocalError] out of the handler. *)
Definition handle_worker_update (update_info : dict pyval) (o : Orch)
    : Orch * outcome :=
  match handle_worker_update_body update_info o with
  | (o', None, _, _) => (o', Returned)
  | (o', Some _, Some _, Some _) =>
      (logging ERROR "Error handling worker update" o', Returned)
  | (o', Some _, _, _) => (o', Raised UnboundLocalError)
  end.
End Planner.

(** *** Vocabulary of the statements *)

Definition fallback_error : LogRecord :=
  mkLog ERROR "Failed to write checkpoint to fallback location".
Definition fallback_info : LogRecord :=
  mkLog INFO "Checkpoint successfully written to fallback location".
Definition primary_error : LogRecord :=
  mkLog ERROR "Failed to write checkpoint file".
Definition all_failed : LogRecord :=
  mkLog CRITICAL "All attempts to write checkpoint failed. Progress may be lost.".

(** The files that [_attempt_fallback_checkpoint_write] tries, in order. *)
Definition fallback_files (o : Orch) : list string :=
  map (fun dir => path_join dir (self_task_name o +:+ ".json"))
      (self_fallback_directories o).

(** What a checkpoint write leaves alone. *)
Definition same_self (o o' : Orch) : Prop :=
  self_checkpoint_data o' = self_checkpoint_data o
  /\ self_task_name o' = self_task_name o
  /\ self_batch_size o' = self_batch_size o
  /\ self_checkpoint_file o' = self_checkpoint_file o
  /\ self_fallback_directories o' = self_fallback_directories o
  /\ self_task_queue o' = self_task_queue o.

(** A checkpoint as the data model has it: positive sizes, and
    dictionaries whose keys are distinct (as the keys of a Python
    dictionary are). *)
Definition valid_state (cd : CheckpointState) : Prop :=
  0 < batch_size cd
  /\ 0 < max_workers cd
  /\ List.NoDup (dict_keys (progress cd))
  /\ Forall (fun t => List.NoDup (dict_keys (status t))) (tasks cd).

(** The status that the tracker sees for [file] under [directory]: the
    entry of the first record with that directory. *)
Definition status_of (directory0 file : string) (cd : CheckpointState) : option Z :=
  match next_task directory0 0 (tasks cd) with
  | Some (_, t) => dict_get file (status t)
  | None => None
  end.

(** [progress] agrees with the status maps: a file listed by a record
    and present in [progress] has the same status in both. *)
Definition agrees_on (p : dict Z) (t : TaskRecord) : bool :=
  forallb (fun '(f, s) => match dict_get f p with Some s' => s =? s' | None => true end)
          (status t).

Definition progress_agrees (cd : CheckpointState) : bool :=
  forallb (agrees_on (progress cd)) (tasks cd).

(** Every file of every record, in order. *)
Definition all_files (cd : CheckpointState) : list string :=
  concat (map (fun t => dict_keys (status t)) (tasks cd)).

(** No record holds a file of the batch at a status other than [0]. *)
Definition unstarted (files : list string) (cd : CheckpointState) : bool :=
  forallb (fun t =>
             forallb (fun '(f, s) => negb (existsb (String.eqb f) files) || (s =? 0))
                     (status t))
          (tasks cd).

(** A job with one directory whose only file is complete. *)
Definition finished_job : Orch :=
  mkOrch (mkCheckpoint "job" (false, false, true, false) 3 3
            [mkTaskRecord "/data" [("/data/a.mp4", -1)]]
            [("/data/a.mp4", -1)])
         "job" 3 "/ckpt/job.json" ["/home/u/"; "/scratch"] [] ∅ [].

(** A restored job whose only file was left at frame 7. *)
Definition resumed_job : Orch :=
  mkOrch (mkCheckpoint "job" (false, false, true, false) 3 3
            [mkTaskRecord "/data" [("/data/a.mp4", 7)]] [])
         "job" 3 "/ckpt/job.json" ["/home/u/"; "/scratch"] [] ∅ [].

(** The entries of a status map that are not complete, in their order. *)
Definition incomplete (st : dict Z) : dict Z :=
  List.filter (fun '(_, p) => negb (p =? -1)) st.

(** A record is done when every status is [-1]. *)
Definition done (t : TaskRecord) : bool :=
  forallb (fun value => value =? -1) (dict_values (status t)).

(** A record that the planner does not reject: it names its directory;
    the keys of its status map are distinct, as those of a dictionary
    are. *)
Definition valid_record (t : TaskRecord) : Prop :=
  directory t <> "" /\ List.NoDup (dict_keys (status t)).

(** A batch cut from record [t] for batches of [size] files. *)
Definition batch_of (size : Z) (t : TaskRecord) (b : Task) : Prop :=
  Task_directory b = directory t
  /\ _video_files b = dict_keys (_status b)
  /\ 0 < Z.of_nat (length (_video_files b)) <= size.

(** Scenario (1) of the specification: two directories of three files,
    batches of two. *)
Definition two_directories : Orch :=
  mkOrch (mkCheckpoint "job" (false, false, true, false) 2 2
            [mkTaskRecord "/A" [("/A/1.mp4", 0); ("/A/2.mp4", 0); ("/A/3.mp4", 0)];
             mkTaskRecord "/B" [("/B/1.mp4", 0); ("/B/2.mp4", 0); ("/B/3.mp4", 0)]]
            [])
         "job" 2 "/ckpt/job.json" ["/home/u/"; "/scratch"] [] ∅ [].

(** *** The accessors of [class Task] *)

(** [get_status]: [self._status.get(file_path, 0)]. *)
Definition get_status (file_path : string) (t : Task) : Z :=
  match dict_get file_path (_status t) with Some s => s | None => 0 end.

(** [statuses]: [[self._status.get(file) for file in self._video_files]]. *)
Definition statuses (t : Task) : list (option Z) :=
  map (fun file => dict_get file (_status t)) (_video_files t).

(** *** The status map of a new checkpoint *)

(** The listings that [_prepare_initial_status] asks for:
    [dataloader.list_files_s3(bucket, prefix, ...)] and
    [Manipulator.list_files(directory, ...)], neither of which is in the
    sources; either may raise. *)
Record Listings : Type := mkListings {
  list_files_s3 : option string -> option string -> exn + list string;
  list_files : string -> exn + list string
}.

(** [_prepare_initial_status]; its handler logs and raises again. *)
Definition _prepare_initial_status (ls : Listings) (directory0 : string)
    (input_flags : option (bool * bool * bool * bool)) : exn + dict Z :=
  match input_flags with
  | None => inl ValueError
  | Some (bucket_prefix, s3_file, local_directory, local_file) =>
      let file_list :=
        if bucket_prefix then
          let '(bucket, prefix) := S3Validator._parse_s3_path directory0 in
          list_files_s3 ls bucket prefix
        else if local_directory then list_files ls directory0
        else if (s3_file || local_file)%bool then inr [directory0]
        else inl ValueError in
      match file_list with
      | inl e => inl e
      | inr files => inr (dict_of_pairs (map (fun file => (file, 0)) files))
      end
  end.

(** *** The workers *)

Section Workers.
(** [self.process_task_callback], called with the task, the orchestrator
    and the name of the worker: what it does to the orchestrator, and
    whether it raises. *)
Variable process_task_callback : option (Task -> string -> Orch -> Orch * outcome).

Definition _process_task (task : Task) (name : string) (o : Orch) : Orch :=
  match process_task_callback with
  | Some callback =>
      match callback task name o with
      | (o', Returned) => o'
      | (o', Raised _) =>
          logging ERROR "Error during processing callback in orchestrator process task" o'
      end
  | None => o
  end.

(** How a run of the worker loop ends: the loop is left on the sentinel,
    [get] waits on an empty queue, or the steps allotted are used up. *)
Inductive worker_end : Type := Joined | Waiting | Unfinished.

(** [_worker_process] run alone for at most [steps] turns of its loop. *)
Fixpoint _worker_process (steps : nat) (name : string) (o : Orch) : Orch * worker_end :=
  match steps with
  | O => (o, Unfinished)
  | S steps' =>
      match self_task_queue o with
      | [] => (o, Waiting)
      | None :: rest =>
          (logging INFO "Joining Worker thread" (with_queue (rest ++ [None])%list o), Joined)
      | Some task :: rest =>
          _worker_process steps' name (_process_task task name (with_queue rest o))
      end
  end.
End Workers.

(** *** More vocabulary *)

(** [l] cut every [n] elements; [fuel] bounds the number of pieces. *)
Fixpoint chunks_upto {A : Type} (fuel n : nat) (l : list A) : list (list A) :=
  match fuel with
  | O => []
  | S fuel' =>
      match l with
      | [] => []
      | _ :: _ => firstn n l :: chunks_upto fuel' n (skipn n l)
      end
  end.

Definition chunks {A : Type} (n : nat) (l : list A) : list (list A) :=
  chunks_upto (length l) n l.

(** The batches of one record: its entries that are not at [-1], cut
    every [size] entries; none for a record without a directory. *)
Definition plan_record (size : Z) (t : TaskRecord) : list Task :=
  if String.eqb (directory t) "" then []
  else map (fun c => mkTask (directory t) (dict_keys c) c)
           (chunks (Z.to_nat size) (incomplete (status t))).

Definition planned (size : Z) (ts : list TaskRecord) : list Task :=
  flat_map (plan_record size) ts.

(** The directories and the files of the records, without the statuses. *)
Definition layout (cd : CheckpointState) : list (string * list string) :=
  map (fun t => (directory t, dict_keys (status t))) (tasks cd).

(** A callback that reports frame 10 of the first file of its task and
    then fails. *)
Definition failing_callback (writable : string -> bool) (task : Task) (name : string)
    (o : Orch) : Orch * outcome :=
  match _video_files task with
  | file :: _ =>
      (fst (handle_worker_update writable
              [("directory", PStr (Task_directory task)); ("file", PStr file);
               ("status", PInt 10)] o),
       Raised RuntimeError)
  | [] => (o, Raised RuntimeError)
  end.

(** The two batches of the first directory of [two_directories]. *)
Definition batch_A1 : Task :=
  mkTask "/A" ["/A/1.mp4"; "/A/2.mp4"] [("/A/1.mp4", 0); ("/A/2.mp4", 0)].
Definition batch_A2 : Task := mkTask "/A" ["/A/3.mp4"] [("/A/3.mp4", 0)].

(** [two_directories] with these batches queued ahead of the sentinels
    of two workers. *)
Definition queued_job : Orch :=
  with_queue [Some batch_A1; Some batch_A2; None; None] two_directories.


(** A document that has the shape of a checkpoint and nothing else of
    it. *)
Definition odd_document : json :=
  JObj [("task_name", JStr "job");
        ("input_type_flags", JArr [JStr "yes"; JNull; JNum 3; JBool true]);
        ("batch_size", JNum 1); ("max_workers", JNum 1);
        ("tasks", JArr [JNum 7]); ("progress", JObj [("k", JArr [])])].

(** A job restored from a checkpoint that was written for batches of
    one file, by a run constructed for batches of three. *)
Definition resized_job : Orch :=
  mkOrch (mkCheckpoint "job" (false, false, true, false) 1 2
            [mkTaskRecord "/A" [("/A/1.mp4", 0); ("/A/2.mp4", 0); ("/A/3.mp4", 0)]]
            [])
         "job" 3 "/ckpt/job.json" ["/home/u/"; "/scratch"] [] ∅ [].

(** The tasks of [batch] served in turn by a worker, [rest] being what
    follows them in the queue: each task is taken off the queue and
    given to the callback, and an exception of the callback is logged
    before the next task is served. *)
Fixpoint served (callback : Task -> string -> Orch -> Orch * outcome) (name : string)
    (batch : list Task) (rest : list (option Task)) (o : Orch) : Orch :=
  match batch with
  | [] => o
  | task :: batch' =>
      let '(o1, r) := callback task name (with_queue (map Some batch' ++ rest)%list o) in
      served callback name batch' rest
        match r with
        | Returned => o1
        | Raised _ =>
            logging ERROR "Error during processing callback in orchestrator process task" o1
        end
  end.

(** A listing that names a file twice. *)
Definition repeating_listing : Listings :=
  mkListings (fun _ _ => inl RuntimeError)
             (fun _ => inr ["/A/1.mp4"; "/A/2.mp4"; "/A/1.mp4"]).

End Orchestrator.

(** ** The resilient writer ([detectflow/manipulators/database_manipulator.py]) *)

(** Python truth value of an object: [if data:]. *)
Definition truthy (v : pyval) : bool :=
  match v with
  | PNone => false
  | PBool b => b
  | PInt z => negb (z =? 0)
  | PStr s => negb (String.eqb s "")
  | PList l | PTuple l => match l with [] => false | _ :: _ => true end
  | PDict d => match d with [] => false | _ :: _ => true end
  end.

Definition is_tuple (v : pyval) : bool :=
  match v with PTuple _ => true | _ => false end.

(** [isinstance(data, list) and all(isinstance(d, tuple) for d in data)]. *)
Definition list_of_tuples (data : pyval) : option (list pyval) :=
  match data with
  | PList l => if forallb is_tuple l then Some l else None
  | _ => None
  end.

(** [sep.join(parts)]. *)
Fixpoint join (sep : string) (parts : list string) : string :=
  match parts with
  | [] => ""
  | [s] => s
  | s :: rest => s +:+ sep +:+ join sep rest
  end.

(** [range(n)]. *)
Definition range (n : Z) : list Z := map Z.of_nat (seq 0 (Z.to_nat n)).

Module DatabaseManipulator.

(** What the writer does not decide: whether [sqlite3.connect] goes
    through; whether the attempt of a given number goes through without
    [sqlite3.Error], from [BEGIN] to [commit]; the value of each call of
    [get_numeric_hash] (absent from the sources; already formatted); the
    folder that [Manipulator.create_folders] returns; and what an
    attempt that raised [sqlite3.Error] had executed before it did, which
    stays in the open transaction until a rollback, a commit or the end
    of the connection: nothing when the statement itself is refused, the
    statement when it is [commit] that is refused, the rows done when
    [executemany] is refused on the way. *)
Record Env : Type := mkEnv {
  connect_ok : nat -> bool;
  execute_ok : nat -> bool;
  get_numeric_hash : nat -> string;
  destination_folder : string;
  left_pending : nat -> list (string * pyval)
}.

(** An integer that SQLite stores: 64 bits, signed.  Binding any other
    integer raises [OverflowError], which is not an [sqlite3.Error]. *)
Definition sqlite_int (z : Z) : bool := (- 2 ^ 63 <=? z) && (z <? 2 ^ 63).

Definition binds (v : pyval) : bool :=
  match v with PInt z => sqlite_int z | _ => true end.

(** The parameters of one execution of a statement. *)
Definition bindable_row (row : pyval) : bool :=
  match row with
  | PTuple l | PList l => forallb binds l
  | PDict d => forallb binds (dict_values d)
  | _ => true
  end.

(** Lines 103-110: no parameters are bound for data that is not true,
    those of each tuple in turn for a list of tuples ([executemany]),
    and the data itself otherwise. *)
Definition bindable (data : pyval) : bool :=
  if truthy data then
    match list_of_tuples data with
    | Some rows => forallb bindable_row rows
    | None => bindable_row data
    end
  else true.

(** The instance ([_db_name], [conn], [batch_data], [batch_table],
    [batch_size]) with what it acts on: the number of driver attempts
    made and of hashes drawn so far, the rows of each CSV file, the
    statements committed, and the calls of [safe_execute] in order. *)
Record Writer : Type := mkWriter {
  _db_name : string;
  conn : bool;
  batch_data : list (dict pyval);
  batch_table : option string;
  batch_size : Z;
  attempts : nat;
  hashes : nat;
  csv_files : gmap string (list pyval);
  committed : list (string * pyval);
  executed : list (string * pyval)
}.

Definition with_conn (c : bool) (w : Writer) : Writer :=
  mkWriter (_db_name w) c (batch_data w) (batch_table w) (batch_size w)
           (attempts w) (hashes w) (csv_files w) (committed w) (executed w).

Definition with_batch (t : option string) (rows : list (dict pyval)) (w : Writer) : Writer :=
  mkWriter (_db_name w) (conn w) rows t (batch_size w)
           (attempts w) (hashes w) (csv_files w) (committed w) (executed w).

Definition tick (w : Writer) : Writer :=
  mkWriter (_db_name w) (conn w) (batch_data w) (batch_table w) (batch_size w)
           (S (attempts w)) (hashes w) (csv_files w) (committed w) (executed w).

Definition commit (sql : string) (data : pyval) (w : Writer) : Writer :=
  mkWriter (_db_name w) (conn w) (batch_data w) (batch_table w) (batch_size w)
           (attempts w) (hashes w) (csv_files w)
           (committed w ++ [(sql, data)])%list (executed w).

(** [commit] with work pending in the open transaction. *)
Definition commit_pending (pending : list (string * pyval)) (w : Writer) : Writer :=
  mkWriter (_db_name w) (conn w) (batch_data w) (batch_table w) (batch_size w)
           (attempts w) (hashes w) (csv_files w)
           (committed w ++ pending)%list (executed w).

Definition record_call (sql : string) (data : pyval) (w : Writer) : Writer :=
  mkWriter (_db_name w) (conn w) (batch_data w) (batch_table w) (batch_size w)
           (attempts w) (hashes w) (csv_files w) (committed w)
           (executed w ++ [(sql, data)])%list.

Section Methods.
Variable env : Env.

Definition dump_path (w : Writer) : string :=
  path_join (destination_folder env)
    ("emergency_dump_" +:+ _db_name w +:+ "_" +:+ get_numeric_hash env (hashes w) +:+ ".csv").

(** [dump_to_csv]: the file is opened in append mode and receives one
    row. *)
Definition dump_to_csv (data : pyval) (w : Writer) : Writer :=
  let filepath := dump_path w in
  mkWriter (_db_name w) (conn w) (batch_data w) (batch_table w) (batch_size w)
           (attempts w) (S (hashes w))
           (<[filepath := (default [] (csv_files w !! filepath) ++ [data])%list]> (csv_files w))
           (committed w) (executed w).

(** Lines 120-130: what the handler does on the last attempt. *)
Definition on_final_failure (data : pyval)
    (enable_emergency_dumps sustain_emergency_dumps : bool) (w : Writer)
    : Writer * outcome :=
  if (truthy data && enable_emergency_dumps)%bool then
    let w1 :=
      match list_of_tuples data with
      | Some rows => fold_left (fun w d => dump_to_csv d w) rows w
      | None => dump_to_csv data w
      end in
    if negb sustain_emergency_dumps then (w1, Raised RuntimeError) else (w1, Returned)
  else (w, Raised RuntimeError).

(** The loop [for attempt in range(retries)] (lines 95-131).
    [pending] is what the attempts refused so far have left executed and
    uncommitted in the open transaction.  An attempt that raises
    [sqlite3.Error] is followed by [rollback] only under
    [use_transaction] (lines 117-118); without it the work pending stays
    in the transaction, and the [commit] of a later attempt commits it
    with the statement.  An exception that is not an [sqlite3.Error]
    ([RuntimeError] from [create_connection], [OverflowError] from the
    binding of an integer) is not caught by the handler of the loop and
    ends it. *)
Fixpoint attempt_loop (sql : string) (data : pyval) (retries : Z)
    (use_transaction enable_emergency_dumps sustain_emergency_dumps : bool)
    (todo : list Z) (pending : list (string * pyval)) (w : Writer)
    : Writer * outcome :=
  match todo with
  | [] => (w, Returned)
  | attempt :: later =>
      if (negb (conn w) && negb (connect_ok env (attempts w)))%bool then
        (* [create_connection] raises [RuntimeError] *)
        (tick w, Raised RuntimeError)
      else
        let w1 := with_conn true w in
        if execute_ok env (attempts w1) then
          if bindable data then
            (tick (commit sql data (commit_pending pending w1)), Returned)
          else (tick w1, Raised OverflowError)
        else
          let w2 := tick w1 in
          let pending1 :=
            if use_transaction then []
            else (pending ++ left_pending env (attempts w1))%list in
          if attempt =? retries - 1 then
            match on_final_failure data enable_emergency_dumps
                    sustain_emergency_dumps w2 with
            | (w3, Raised e) => (w3, Raised e)
            | (w3, Returned) =>
                attempt_loop sql data retries use_transaction
                  enable_emergency_dumps sustain_emergency_dumps later pending1 w3
            end
          else
            attempt_loop sql data retries use_transaction
              enable_emergency_dumps sustain_emergency_dumps later pending1 w2
  end.

(** [safe_execute]: any exception leaves as [RuntimeError]; the
    connection is closed on the way out, and what is then still pending
    in its transaction is lost. *)
Definition safe_execute (sql : string) (data : pyval) (retries : Z)
    (use_transaction enable_emergency_dumps sustain_emergency_dumps : bool)
    (w : Writer) : Writer * outcome :=
  let '(w1, r) :=
    attempt_loop sql data retries use_transaction enable_emergency_dumps
      sustain_emergency_dumps (range retries) [] (record_call sql data w) in
  (with_conn false w1,
   match r with Returned => Returned | Raised _ => Raised RuntimeError end).

Definition insert_query (table : option string) (first : dict pyval) : string :=
  let columns := join ", " (dict_keys first) in
  let placeholders := join ", " (map (fun _ => "?") first) in
  "INSERT INTO " +:+ match table with Some t => t | None => "None" end
    +:+ " (" +:+ columns +:+ ") VALUES (" +:+ placeholders +:+ ")".

Definition batch_rows (rows : list (dict pyval)) : pyval :=
  PList (map (fun d => PTuple (dict_values d)) rows).

(** [flush_batch]: [safe_execute] raises [RuntimeError] only, which the
    [except sqlite3.Error] clause does not catch. *)
Definition flush_batch (w : Writer) : Writer * outcome :=
  match batch_data w with
  | [] => (w, Returned)
  | first :: _ =>
      let query := insert_query (batch_table w) first in
      let data := batch_rows (batch_data w) in
      match safe_execute query data 3 true true true w with
      | (w1, Returned) => (with_batch (batch_table w1) [] w1, Returned)
      | (w1, Raised e) => (w1, Raised e)
      end
  end.

Definition table_changes (current : option string) (table : string) : bool :=
  match current with
  | Some t => negb (String.eqb t table)
  | None => false
  end.

Definition add_to_batch (table : string) (data : dict pyval) (w : Writer)
    : Writer * outcome :=
  let '(w1, r) :=
    if table_changes (batch_table w) table then flush_batch w else (w, Returned) in
  match r with
  | Raised e => (w1, Raised e)
  | Returned =>
      let w2 := with_batch (Some table) (batch_data w1 ++ [data])%list w1 in
      if Z.of_nat (length (batch_data w2)) >=? batch_size w2 then
        (fst (flush_batch w2), Returned)
      else (w2, Returned)
  end.

(** A caller that goes on after an exception: the calls in order, with
    the outcome of each. *)
Fixpoint add_all (calls : list (string * dict pyval)) (w : Writer)
    : Writer * list outcome :=
  match calls with
  | [] => (w, [])
  | (table, data) :: rest =>
      let '(w1, r) := add_to_batch table data w in
      let '(w2, rs) := add_all rest w1 in
      (w2, r :: rs)
  end.
End Methods.

(** [__init__]. *)
Definition init (db_name : string) (size : Z) : Writer :=
  mkWriter db_name false [] None size 0 0 ∅ [] [].

(** *** Vocabulary of the statements *)

(** The file that the [h]-th hash names. *)
Definition artifact (env : Env) (db_name : string) (h : nat) : string :=
  path_join (destination_folder env)
    ("emergency_dump_" +:+ db_name +:+ "_" +:+ get_numeric_hash env h +:+ ".csv").

(** The rows, among [rows] spilled from the [h]-th hash on, whose hash
    names the file [path]. *)
Fixpoint rows_for (env : Env) (db_name path : string) (rows : list pyval) (h : nat)
    : list pyval :=
  match rows with
  | [] => []
  | d :: rest =>
      ((if String.eqb (artifact env db_name h) path then [d] else [])
         ++ rows_for env db_name path rest (S h))%list
  end.

(** The rows that [safe_execute] spills for [data]: its tuples, or
    [data] itself as one row. *)
Definition spilled_rows (data : pyval) : list pyval :=
  match list_of_tuples data with
  | Some rows => rows
  | None => [data]
  end.

(** The calls that returned, among [calls] with their outcomes [rs]. *)
Fixpoint accepted (calls : list (string * dict pyval)) (rs : list outcome)
    : list (string * dict pyval) :=
  match calls, rs with
  | c :: calls', r :: rs' =>
      if is_returned r then c :: accepted calls' rs' else accepted calls' rs'
  | _, _ => []
  end.

(** The call of [safe_execute] that flushes the rows of [segment], all
    added for [table]. *)
Definition flush_of (table : string) (segment : list (string * dict pyval))
    : string * pyval :=
  (insert_query (Some table) (match segment with c :: _ => snd c | [] => [] end),
   batch_rows (map snd segment)).

(** A driver that refuses every statement and hashes that differ from
    call to call. *)
Definition failing_env : Env :=
  mkEnv (fun _ => true) (fun _ => false)
        (fun n => match n with O => "1001" | S O => "1002" | _ => "1003" end)
        "dumps" (fun _ => []).

Definition two_rows : pyval :=
  PList [PTuple [PStr "a.mp4"; PInt 1]; PTuple [PStr "b.mp4"; PInt 2]].

(** What [safe_execute] never touches. *)
Definition same_batch (w w' : Writer) : Prop :=
  _db_name w' = _db_name w
  /\ batch_data w' = batch_data w
  /\ batch_table w' = batch_table w
  /\ batch_size w' = batch_size w
  /\ executed w' = executed w.

(** The buffer of [w] holds the rows of the last calls of [history],
    all of them calls that named [batch_table]. *)
Definition buffer_from (history : list (string * dict pyval)) (w : Writer) : Prop :=
  exists earlier held,
    history = (earlier ++ held)%list
    /\ batch_data w = map snd held
    /\ Forall (fun c => batch_table w = Some (fst c)) held.

(** The call [e] of [safe_execute] is one [INSERT] into one table, with
    the rows of consecutive calls of [history] that all named that
    table. *)
Definition flushes_one_table (history : list (string * dict pyval))
    (e : string * pyval) : Prop :=
  exists before segment after table,
    history = (before ++ segment ++ after)%list
    /\ segment <> []
    /\ Forall (fun c => fst c = table) segment
    /\ e = flush_of table segment.

(** The writer after [n] attempts that the driver refused. *)
Fixpoint after_attempts (n : nat) (w : Writer) : Writer :=
  match n with
  | O => w
  | S n' => after_attempts n' (tick (with_conn true w))
  end.


(** Two rows of a table of visits. *)
Definition row_a : dict pyval := [("video", PStr "a.mp4"); ("frame", PInt 1)].
Definition row_b : dict pyval := [("video", PStr "b.mp4"); ("frame", PInt 2)].

(** *** The other methods *)

Section Statements.
Variable env : Env.

(** [insert]: one row, three attempts, overflow enabled and not
    sustained. *)
Definition insert (table : string) (data : dict pyval) (use_transaction : bool)
    (w : Writer) : Writer * outcome :=
  let columns := join ", " (dict_keys data) in
  let placeholders := join ", " (map (fun _ => "?") data) in
  let query :=
    "INSERT INTO " +:+ table +:+ " (" +:+ columns +:+ ") VALUES (" +:+ placeholders +:+ ")" in
  safe_execute env query (PTuple (dict_values data)) 3 use_transaction true false w.

Definition update (table : string) (data : dict pyval) (condition : string)
    (use_transaction : bool) (w : Writer) : Writer * outcome :=
  let updates := join ", " (map (fun k => k +:+ " = ?") (dict_keys data)) in
  let query := "UPDATE " +:+ table +:+ " SET " +:+ updates +:+ " WHERE " +:+ condition in
  safe_execute env query (PTuple (dict_values data)) 3 use_transaction true false w.

Definition delete (table condition : string) (use_transaction : bool) (w : Writer)
    : Writer * outcome :=
  let query := "DELETE FROM " +:+ table +:+ " WHERE " +:+ condition in
  safe_execute env query PNone 3 use_transaction true false w.

(** [create_table]: whatever is raised leaves as [RuntimeError], as it
    does from [safe_execute] already. *)
Definition create_table (table_name : string) (columns : list (string * string * string))
    (w : Writer) : Writer * outcome :=
  let columns_str :=
    join ", " (map (fun '(name, data_type, constraints) =>
                      name +:+ " " +:+ data_type +:+ " " +:+ constraints) columns) in
  let query := "CREATE TABLE IF NOT EXISTS " +:+ table_name +:+ " (" +:+ columns_str +:+ ");" in
  match safe_execute env query PNone 3 true true false w with
  | (w1, Returned) => (w1, Returned)
  | (w1, Raised _) => (w1, Raised RuntimeError)
  end.

(** [__del__]: the pending rows are flushed; an exception is printed. *)
Definition __del__ (w : Writer) : Writer := fst (flush_batch env w).

(** What [execute_query] and its callers can raise. *)
Inductive query_error : Type :=
| QRuntimeError
| QAttributeError
| QTypeError
| QIndexError.

(** The rows that the cursor of the statement of a given attempt holds;
    a row is a tuple of values. *)
Variable result_rows : nat -> list (list pyval).

(** [execute_query]: the statement is tried once and the connection
    stays open.  Its handler catches every exception, that of a
    parameter that cannot be bound included, and calls
    [self.conn.rollback()], so that nothing stays pending; when it is
    [create_connection] that raised, [self.conn] is still [None] and the
    call raises [AttributeError] in place of the [RuntimeError] meant. *)
Definition execute_query (query : string) (params : pyval) (w : Writer)
    : Writer * (query_error + list (list pyval)) :=
  if (negb (conn w) && negb (connect_ok env (attempts w)))%bool then
    (tick w, inl QAttributeError)
  else
    let w1 := with_conn true w in
    if (execute_ok env (attempts w1) && bindable params)%bool then
      (tick (commit query params w1), inr (result_rows (attempts w1)))
    else (tick w1, inl QRuntimeError).

(** [fetch_all]: a cursor is a true value, so the rows are returned. *)
Definition fetch_all (query : string) (params : pyval) (w : Writer)
    : Writer * (query_error + list (list pyval)) :=
  execute_query query params w.

(** [fetch_one]: the first row, or [None]. *)
Definition fetch_one (query : string) (params : pyval) (w : Writer)
    : Writer * (query_error + option (list pyval)) :=
  match execute_query query params w with
  | (w1, inr rows) => (w1, inr (head rows))
  | (w1, inl e) => (w1, inl e)
  end.

(** [[name[0] for name in table_names]]; [None] is the [IndexError] of an
    empty row. *)
Fixpoint first_items (rows : list (list pyval)) : option (list pyval) :=
  match rows with
  | [] => Some []
  | [] :: _ => None
  | (x :: _) :: rows' =>
      match first_items rows' with Some xs => Some (x :: xs) | None => None end
  end.

(** [get_table_names]: any exception gives the empty list. *)
Definition get_table_names (w : Writer) : Writer * list pyval :=
  match fetch_all "SELECT name FROM sqlite_master WHERE type='table' ORDER BY name;" PNone w with
  | (w1, inr rows) => (w1, match first_items rows with Some names => names | None => [] end)
  | (w1, inl _) => (w1, [])
  end.

(** [column[5] == 1]. *)
Definition equals_one (v : pyval) : bool :=
  match as_int v with Some z => z =? 1 | None => false end.

(** The loop of [get_column_names] over the rows of [PRAGMA table_info]:
    (cid, name, type, notnull, dflt_value, pk). *)
Fixpoint column_names (exclude_autoincrement_pks : bool) (rows : list (list pyval))
    : query_error + list pyval :=
  match rows with
  | [] => inr []
  | column :: rows' =>
      let kept : query_error + bool :=
        if exclude_autoincrement_pks then
          match nth_error column 5 with
          | None => inl QIndexError
          | Some pk =>
              if equals_one pk then
                match nth_error column 2 with
                | None => inl QIndexError
                | Some data_type =>
                    match Orchestrator.py_in "INTEGER" data_type with
                    | Some b => inr (negb b)
                    | None => inl QTypeError
                    end
                end
              else inr true
          end
        else inr true in
      match kept with
      | inl e => inl e
      | inr keep =>
          match (if keep then
                   match nth_error column 1 with
                   | Some name => inr [name]
                   | None => inl QIndexError
                   end
                 else inr []) with
          | inl e => inl e
          | inr here =>
              match column_names exclude_autoincrement_pks rows' with
              | inl e => inl e
              | inr names => inr (here ++ names)%list
              end
          end
      end
  end.

Definition get_column_names (table_name : string) (exclude_autoincrement_pks : bool)
    (w : Writer) : Writer * (query_error + list pyval) :=
  match fetch_all ("PRAGMA table_info(" +:+ table_name +:+ ")") PNone w with
  | (w1, inr rows) => (w1, column_names exclude_autoincrement_pks rows)
  | (w1, inl e) => (w1, inl e)
  end.
End Statements.

(** *** Reconciliation *)

Section Reconciliation.
Variable env : Env.
Variable result_rows : nat -> list (list pyval).

(** What [gather_dump_data] takes from outside the sources:
    [Manipulator.is_valid_directory_path], the paths that
    [Manipulator.list_files] returns for the folder (or the exception it
    raises), the cells that [csv.reader] reads for a row that
    [csv.writer] wrote, and the text of a value in an f-string.
    [Manipulator.delete_file] is taken to remove the file. *)
Variable is_valid_directory_path : string -> bool.
Variable list_csv_files : string -> exn + list string.
Variable csv_cells : pyval -> list string.
Variable py_str : pyval -> string.

Definition format_value (v : pyval) : string :=
  match v with PStr s => s | _ => py_str v end.

Definition delete_file (path : string) (w : Writer) : Writer :=
  mkWriter (_db_name w) (conn w) (batch_data w) (batch_table w) (batch_size w)
           (attempts w) (hashes w) (base.delete path (csv_files w))
           (committed w) (executed w).

(** [for row in reader: self.safe_execute(query, tuple(row),
    use_transaction=True, enable_emergency_dumps=False)]; the first
    exception ends the loop. *)
Fixpoint replay_rows (query : string) (rows : list pyval) (w : Writer) : Writer * outcome :=
  match rows with
  | [] => (w, Returned)
  | row :: rows' =>
      match safe_execute env query (PTuple (map PStr (csv_cells row))) 3 true false false w with
      | (w1, Returned) => replay_rows query rows' w1
      | (w1, Raised e) => (w1, Raised e)
      end
  end.

(** The body of the loop over the files: a file is read only if its path
    contains the name of the database between underscores; whatever is
    raised on the way is printed, and the file is then not deleted. *)
Definition replay_file (query : string) (delete_dumps : bool) (w : Writer)
    (csv_file : string) : Writer :=
  if str_contains ("_" +:+ _db_name w +:+ "_") csv_file then
    match csv_files w !! csv_file with
    | Some rows =>
        match replay_rows query rows w with
        | (w1, Returned) => if delete_dumps then delete_file csv_file w1 else w1
        | (w1, Raised _) => w1
        end
    | None => w
    end
  else w.

(** [', '.join(column_names)]; [None] is the [TypeError] of a name that
    is not a string. *)
Fixpoint strings_of (values : list pyval) : option (list string) :=
  match values with
  | [] => Some []
  | PStr s :: values' =>
      match strings_of values' with Some l => Some (s :: l) | None => None end
  | _ :: _ => None
  end.

(** Lines 322-330: the table to fill, looked up when none is given. *)
Definition resolve_table (table_name : option string) (w : Writer)
    : Writer * (query_error + string) :=
  match table_name with
  | Some (String a t) => (w, inr (String a t))
  | _ =>
      match fetch_one env result_rows
              "SELECT name FROM sqlite_master WHERE type='table' ORDER BY name LIMIT 1"
              PNone w with
      | (w1, inr (Some (name :: _))) =>
          if truthy name then (w1, inr (format_value name)) else (w1, inl QRuntimeError)
      | (w1, _) => (w1, inl QRuntimeError)
      end
  end.

(** [gather_dump_data]; [None] means that it returned. *)
Definition gather_dump_data (table_name : option string) (dumps_folder : string)
    (delete_dumps : bool) (w : Writer) : Writer * option query_error :=
  match resolve_table table_name w with
  | (w1, inl e) => (w1, Some e)
  | (w1, inr table) =>
      match get_column_names env result_rows table true w1 with
      | (w2, inl e) => (w2, Some e)
      | (w2, inr column_names) =>
          match strings_of column_names with
          | None => (w2, Some QTypeError)
          | Some names =>
              let columns_str := join ", " names in
              let placeholders := join ", " (map (fun _ => "?") names) in
              let query :=
                "INSERT INTO " +:+ table +:+ " (" +:+ columns_str +:+ ") VALUES ("
                  +:+ placeholders +:+ ")" in
              if negb (is_valid_directory_path dumps_folder) then (w2, None)
              else
                match list_csv_files dumps_folder with
                | inl _ => (w2, None)
                | inr files => (fold_left (replay_file query delete_dumps) files w2, None)
                end
          end
      end
  end.
End Reconciliation.


(** What no step of the reconciliation changes. *)
Definition same_overflow (w w' : Writer) : Prop :=
  _db_name w' = _db_name w /\ hashes w' = hashes w /\ csv_files w' = csv_files w.

(** The statement that replays a row into [table]. *)
Definition replay_query (table : string) (names : list string) : string :=
  "INSERT INTO " +:+ table +:+ " (" +:+ join ", " names +:+ ") VALUES ("
    +:+ join ", " (map (fun _ => "?") names) +:+ ")".

(** The statement and the cells of each row of the file [path], if its
    name is one that the writer [w] replays. *)
Definition replayed (csv_cells : pyval -> list string) (query : string) (w : Writer)
    (path : string) : list (string * pyval) :=
  if str_contains ("_" +:+ _db_name w +:+ "_") path then
    map (fun row => (query, PTuple (map PStr (csv_cells row))))
        (default [] (csv_files w !! path))
  else [].

(** The folder without those of [paths] that the writer of [db_name]
    replays. *)
Definition without_replayed (db_name : string) (paths : list string)
    (folder : gmap string (list pyval)) : gmap string (list pyval) :=
  fold_left (fun m path =>
               if str_contains ("_" +:+ db_name +:+ "_") path then base.delete path m else m)
            paths folder.

(** A database that cannot be opened. *)
Definition closed_env : Env :=
  mkEnv (fun _ => false) (fun _ => true) (fun _ => "1001") "dumps" (fun _ => []).

(** A driver that refuses the first attempt only, at [commit]: the
    statement of the sample calls stays in the open transaction. *)
Definition slow_env : Env :=
  mkEnv (fun _ => true) (fun n => negb (n =? 0)%nat) (fun _ => "1001") "dumps"
        (fun _ => [("INSERT INTO visits (video, frame) VALUES (?, ?)", two_rows)]).

(** A driver that accepts the first statement only. *)
Definition tiring_env : Env :=
  mkEnv (fun _ => true) (fun n => (n =? 0)%nat) (fun _ => "1001") "dumps" (fun _ => []).

(** A driver that refuses every attempt at [commit], with the
    statement of the sample calls executed. *)
Definition refusing_env : Env :=
  mkEnv (fun _ => true) (fun _ => false) (fun _ => "1001") "dumps"
        (fun _ => [("INSERT INTO visits (video, frame) VALUES (?, ?)", two_rows)]).

(** A driver that accepts every statement. *)
Definition accepting_env : Env :=
  mkEnv (fun _ => true) (fun _ => true) (fun _ => "1001") "dumps" (fun _ => []).

(** A writer with one row pending for the table of visits. *)
Definition pending_writer : Writer :=
  with_batch (Some "visits") [row_a] (init "db" 2).

(** A writer of the database [visits] with an overflow file of two
    rows. *)
Definition overflow_writer : Writer :=
  mkWriter "visits" false [] None 50 0 0
           {["dumps/emergency_dump_visits_1001.csv"
             := [PTuple [PStr "a.mp4"]; PTuple [PStr "b.mp4"]]]} [] [].

(** The rows of [PRAGMA table_info] for a table with the one column
    [video], and the cells of a row of one string. *)
Definition one_column (attempt : nat) : list (list pyval) :=
  [[PInt 0; PStr "video"; PStr "TEXT"; PInt 0; PNone; PInt 0]].

Definition cells_of (row : pyval) : list string :=
  match row with
  | PTuple [PStr s] => [s]
  | _ => []
  end.

End DatabaseManipulator.

(** ** Dictionary lemmas *)

Section DictFacts.
Context {V : Type}.
Implicit Types (k : string) (v : V) (d : dict V).

Lemma dict_get_set_eq k v d : dict_get k (dict_set k v d) = Some v.
Proof.
  induction d as [|[k' v'] d IH]; simpl.
  - now rewrite String.eqb_refl.
  - destruct (String.eqb k k') eqn:E; simpl; rewrite ?String.eqb_refl, ?E; auto.
Qed.

Lemma dict_get_set_ne k k' v d :
  k <> k' -> dict_get k' (dict_set k v d) = dict_get k' d.
Proof.
  intros Hne. induction d as [|[k0 v0] d IH]; simpl.
  - destruct (String.eqb_spec k' k); congruence.
  - destruct (String.eqb_spec k k0) as [->|]; simpl.
    + destruct (String.eqb_spec k' k0); congruence.
    + destruct (String.eqb_spec k' k0); auto.
Qed.

Lemma dict_get_None_keys k d : dict_get k d = None <-> ~ In k (dict_keys d).
Proof.
  induction d as [|[k' v'] d IH]; simpl; [tauto|].
  destruct (String.eqb_spec k k') as [->|Hne].
  - split; [discriminate | intros H; exfalso; apply H; auto].
  - rewrite IH. split; [intros H [?|?]; [congruence | tauto] | tauto].
Qed.

Lemma dict_mem_keys k d : dict_mem k d = true <-> In k (dict_keys d).
Proof.
  unfold dict_mem. destruct (dict_get k d) eqn:E.
  - split; [intros _ | reflexivity].
    destruct (in_dec string_dec k (dict_keys d)) as [|Hn]; [assumption|].
    apply dict_get_None_keys in Hn. congruence.
  - apply dict_get_None_keys in E. split; [discriminate | tauto].
Qed.

Lemma dict_set_fresh k v d :
  ~ In k (dict_keys d) -> dict_set k v d = (d ++ [(k, v)])%list.
Proof.
  induction d as [|[k' v'] d IH]; simpl; intros Hn; [reflexivity|].
  destruct (String.eqb_spec k k') as [->|]; [tauto|].
  rewrite IH; tauto.
Qed.

Lemma dict_keys_set_known k v d :
  In k (dict_keys d) -> dict_keys (dict_set k v d) = dict_keys d.
Proof.
  induction d as [|[k' v'] d IH]; simpl; intros Hin; [tauto|].
  destruct (String.eqb_spec k k') as [->|Hne]; simpl; [reflexivity|].
  f_equal. apply IH. destruct Hin; congruence.
Qed.

Lemma dict_get_In k v d : dict_get k d = Some v -> In (k, v) d.
Proof.
  induction d as [|[k' v'] d IH]; simpl; [discriminate|].
  destruct (String.eqb_spec k k') as [->|]; intros H; [left; congruence | auto].
Qed.

Lemma dict_In_get k v d :
  List.NoDup (dict_keys d) -> In (k, v) d -> dict_get k d = Some v.
Proof.
  induction d as [|[k' v'] d IH]; simpl; [tauto|].
  intros Hnd [Heq|Hin]; inversion Hnd as [|? ? Hnotin Hnd']; subst.
  - inversion Heq; subst. now rewrite String.eqb_refl.
  - destruct (String.eqb_spec k k') as [->|]; [|auto].
    exfalso. apply Hnotin. change (In (fst (k', v)) (map fst d)). now apply in_map.
Qed.

(** Filling an empty dictionary with pairs of distinct keys keeps the
    pairs as they are. *)
Lemma dict_of_pairs_NoDup (kvs : list (string * V)) :
  List.NoDup (dict_keys kvs) -> dict_of_pairs kvs = kvs.
Proof.
  unfold dict_of_pairs.
  assert (G : forall (acc : dict V),
             List.NoDup (dict_keys (acc ++ kvs)%list) ->
             fold_left (fun d kv => dict_set (fst kv) (snd kv) d) kvs acc
             = (acc ++ kvs)%list).
  { induction kvs as [|[k v] kvs IH]; intros acc Hnd; simpl.
    - now rewrite app_nil_r.
    - rewrite dict_set_fresh.
      + rewrite IH; rewrite <- app_assoc; [reflexivity | exact Hnd].
      + unfold dict_keys in Hnd. rewrite map_app in Hnd. simpl in Hnd.
        apply List.NoDup_remove_2 in Hnd. intros Hin. apply Hnd.
        apply in_or_app. now left. }
  intros Hnd. apply (G []). exact Hnd.
Qed.
End DictFacts.

(** ** Properties of the checkpoint store *)

Section CheckpointStore.
Import Orchestrator.
Variable writable : string -> bool.

Lemma same_self_refl o : same_self o o.
Proof. repeat split. Qed.

Lemma same_self_trans o1 o2 o3 : same_self o1 o2 -> same_self o2 o3 -> same_self o1 o3.
Proof. unfold same_self. intuition congruence. Qed.

Lemma fallback_loop_same_self dirs o : same_self o (fallback_loop writable dirs o).
Proof.
  revert o. induction dirs as [|dir rest IH]; intros o; simpl.
  - repeat split.
  - unfold dump_to. destruct (writable _).
    + repeat split.
    + eapply same_self_trans; [|apply IH]. repeat split.
Qed.

Lemma _write_checkpoint_same_self o : same_self o (_write_checkpoint writable o).
Proof.
  unfold _write_checkpoint, dump_to. destruct (writable _).
  - repeat split.
  - eapply same_self_trans; [|apply fallback_loop_same_self]. repeat split.
Qed.

Lemma _write_checkpoint_data o :
  self_checkpoint_data (_write_checkpoint writable o) = self_checkpoint_data o.
Proof. apply _write_checkpoint_same_self. Qed.

(** The fallback loop when the first writable file comes after [pre]. *)
Lemma fallback_loop_first pre dir post o :
  Forall (fun d => writable (path_join d (self_task_name o +:+ ".json")) = false) pre ->
  writable (path_join dir (self_task_name o +:+ ".json")) = true ->
  let o' := fallback_loop writable (pre ++ dir :: post)%list o in
  fs o' = <[path_join dir (self_task_name o +:+ ".json")
            := json_dump (py_of_state (self_checkpoint_data o))]> (fs o)
  /\ log o' = (log o ++ map (fun _ => fallback_error) pre ++ [fallback_info])%list.
Proof.
  revert o. induction pre as [|d pre IH]; intros o Hpre Hdir; simpl.
  - unfold dump_to. rewrite Hdir. simpl. auto.
  - inversion Hpre as [|? ? Hd Hpre']; subst.
    unfold dump_to. rewrite Hd.
    specialize (IH (logging ERROR "Failed to write checkpoint to fallback location" o)).
    simpl in IH. destruct (IH Hpre' Hdir) as [Hfs Hlog].
    split; [exact Hfs|]. rewrite Hlog. now rewrite <- app_assoc.
Qed.

Lemma fallback_loop_none dirs o :
  Forall (fun d => writable (path_join d (self_task_name o +:+ ".json")) = false) dirs ->
  let o' := fallback_loop writable dirs o in
  fs o' = fs o
  /\ log o' = (log o ++ map (fun _ => fallback_error) dirs ++ [all_failed])%list.
Proof.
  revert o. induction dirs as [|d dirs IH]; intros o Hall; simpl.
  - auto.
  - inversion Hall as [|? ? Hd Hall']; subst.
    unfold dump_to. rewrite Hd.
    specialize (IH (logging ERROR "Failed to write checkpoint to fallback location" o)).
    simpl in IH. destruct (IH Hall') as [Hfs Hlog].
    split; [exact Hfs|]. rewrite Hlog. now rewrite <- app_assoc.
Qed.

(** C8.  When the write to [checkpoint_file] fails, the fallback files
    are tried in the order of [fallback_directories]: the first one that
    can be written, and no other file, receives the serialized
    checkpoint, after one error line for the primary file and one for
    each fallback that failed before it.  When the primary file and every
    fallback fail, no file changes and the log ends with the
    critical-severity record.  In both cases the call returns (no
    exception leaves [_write_checkpoint]: each [open]/[json.dump] sits in
    a [try] whose handler only logs) and the checkpoint held in memory is
    what it was. *)
Theorem write_checkpoint_falls_back (o : Orch) :
  writable (self_checkpoint_file o) = false ->
  let o' := _write_checkpoint writable o in
  let document := json_dump (py_of_state (self_checkpoint_data o)) in
  same_self o o'
  /\ (forall pre dir post,
        self_fallback_directories o = (pre ++ dir :: post)%list ->
        Forall (fun d => writable (path_join d (self_task_name o +:+ ".json")) = false) pre ->
        writable (path_join dir (self_task_name o +:+ ".json")) = true ->
        fs o' = <[path_join dir (self_task_name o +:+ ".json") := document]> (fs o)
        /\ log o' = (log o ++ primary_error :: map (fun _ => fallback_error) pre
                       ++ [fallback_info])%list)
  /\ (Forall (fun f => writable f = false) (fallback_files o) ->
        fs o' = fs o
        /\ log o' = (log o ++ primary_error
                       :: map (fun _ => fallback_error) (self_fallback_directories o)
                       ++ [all_failed])%list).
Proof.
  intros Hprimary. cbv zeta. split; [apply _write_checkpoint_same_self|].
  unfold _write_checkpoint, dump_to. rewrite Hprimary.
  unfold _attempt_fallback_checkpoint_write. split.
  - intros pre dir post Hdirs Hpre Hdir. simpl. rewrite Hdirs.
    pose proof (fallback_loop_first pre dir post
                  (logging ERROR "Failed to write checkpoint file" o) Hpre Hdir) as [Hfs Hlog].
    split; [exact Hfs|]. rewrite Hlog. simpl. now rewrite <- app_assoc.
  - intros Hall. unfold fallback_files in Hall. rewrite Forall_map in Hall.
    pose proof (fallback_loop_none (self_fallback_directories o)
                  (logging ERROR "Failed to write checkpoint file" o) Hall) as [Hfs Hlog].
    split; [exact Hfs|]. simpl in Hlog. simpl. rewrite Hlog. now rewrite <- app_assoc.
Qed.
End CheckpointStore.

(** ** Round trip of the persisted document *)

Section RoundTrip.
Import Orchestrator.
Variable writable : string -> bool.

Lemma status_round_trip (d : dict Z) :
  List.NoDup (dict_keys d) ->
  json_load (json_dump (py_of_status d)) = py_of_status d.
Proof.
  intros Hnd. unfold py_of_status. simpl. f_equal.
  rewrite !map_map.
  rewrite (map_ext _ (fun kv : string * Z => (fst kv, PInt (snd kv)))) by (now intros [k v]).
  rewrite dict_of_pairs_NoDup.
  - apply map_ext. now intros [k v].
  - unfold dict_keys. rewrite map_map. simpl. exact Hnd.
Qed.

Lemma task_round_trip (t : TaskRecord) :
  List.NoDup (dict_keys (status t)) ->
  json_load (json_dump (py_of_task t)) = py_of_task t.
Proof.
  intros Hnd. pose proof (status_round_trip _ Hnd) as Hst.
  unfold py_of_task. cbn [json_dump json_load map].
  fold (json_dump (py_of_status (status t))). rewrite Hst. reflexivity.
Qed.

Lemma tasks_round_trip (ts : list TaskRecord) :
  Forall (fun t => List.NoDup (dict_keys (status t))) ts ->
  map json_load (map json_dump (map py_of_task ts)) = map py_of_task ts.
Proof.
  induction 1 as [|t ts Ht _ IH]; simpl; [reflexivity|].
  rewrite IH. f_equal. now apply task_round_trip.
Qed.

(** What [json.load] returns for a dumped checkpoint: the same
    dictionary, with a list in place of the tuple of flags. *)
Lemma state_load_dump (cd : CheckpointState) :
  valid_state cd ->
  json_load (json_dump (py_of_state cd))
  = PDict [("task_name", PStr (task_name cd));
           ("input_type_flags",
            let '(a, b, c, d) := input_type_flags cd in
            PList [PBool a; PBool b; PBool c; PBool d]);
           ("batch_size", PInt (batch_size cd));
           ("max_workers", PInt (max_workers cd));
           ("tasks", PList (map py_of_task (tasks cd)));
           ("progress", py_of_status (progress cd))].
Proof.
  intros (_ & _ & Hprogress & Htasks).
  pose proof (status_round_trip _ Hprogress) as Hp.
  pose proof (tasks_round_trip _ Htasks) as Ht.
  unfold py_of_state.
  destruct (input_type_flags cd) as [[[a b] c] d].
  cbn [json_dump json_load map py_of_flags].
  fold (json_dump (py_of_status (progress cd))).
  rewrite Hp, Ht. reflexivity.
Qed.

(** C7.  Persisting a valid checkpoint to [checkpoint_file] and loading
    that file back gives the checkpoint itself, the four flags being a
    tuple again. *)
Theorem checkpoint_round_trip (force_restart : bool) (o : Orch) :
  valid_state (self_checkpoint_data o) ->
  writable (self_checkpoint_file o) = true ->
  _initialize_checkpoint force_restart (self_checkpoint_file o)
    (fs (_write_checkpoint writable o))
  = Loaded (py_of_state (self_checkpoint_data o)).
Proof.
  intros Hvalid Hw.
  unfold _write_checkpoint, dump_to. rewrite Hw. cbn [fs with_fs].
  unfold _initialize_checkpoint. rewrite lookup_insert_eq.
  rewrite (state_load_dump _ Hvalid).
  destruct Hvalid as (Hb & Hm & _ & _).
  unfold py_of_state.
  destruct (input_type_flags (self_checkpoint_data o)) as [[[a b] c] d].
  cbn.
  destruct (batch_size (self_checkpoint_data o) <=? 0) eqn:Eb; [lia|].
  destruct (max_workers (self_checkpoint_data o) <=? 0) eqn:Em; [lia|].
  reflexivity.
Qed.
End RoundTrip.

(** ** Properties of the progress tracker *)

Section ProgressTracker.
Import Orchestrator.
Variable writable : string -> bool.

Lemma next_task_found d k ts i t :
  next_task d k ts = Some (i, t) ->
  (k <= i)%nat /\ ts !! (i - k)%nat = Some t /\ directory t = d.
Proof.
  revert k. induction ts as [|h ts IH]; intros k; simpl; [discriminate|].
  destruct (String.eqb_spec (directory h) d) as [Hd|Hd].
  - intros [= <- <-]. rewrite Nat.sub_diag. auto.
  - intros H. destruct (IH _ H) as (Hle & Hl & Hdir).
    split; [lia|]. split; [|exact Hdir].
    replace (i - k)%nat with (S (i - S k)) by lia. exact Hl.
Qed.

Lemma next_task_insert d k ts i t t' :
  next_task d k ts = Some (i, t) ->
  directory t' = d ->
  next_task d k (<[(i - k)%nat := t']> ts) = Some (i, t').
Proof.
  revert k. induction ts as [|h ts IH]; intros k; simpl; [discriminate|].
  destruct (String.eqb_spec (directory h) d) as [Hd|Hd].
  - intros [= <- <-] Ht'. rewrite Nat.sub_diag. simpl.
    destruct (String.eqb_spec (directory t') d); congruence.
  - intros H Ht'. destruct (next_task_found _ _ _ _ _ H) as (Hle & _ & _).
    replace (i - k)%nat with (S (i - S k)) by lia. simpl.
    destruct (String.eqb_spec (directory h) d); [congruence|].
    now apply IH.
Qed.

Lemma dict_set_done_id (k : string) (st : dict Z) :
  forallb (fun s => s =? -1) (dict_values st) = true ->
  In k (dict_keys st) ->
  dict_set k (-1) st = st.
Proof.
  induction st as [|[k' v'] st IH]; simpl; [tauto|].
  intros Hall Hin. apply andb_prop in Hall as [Hv Hall].
  apply Z.eqb_eq in Hv. subst v'.
  destruct (String.eqb_spec k k') as [->|Hne]; [reflexivity|].
  f_equal. apply IH; [exact Hall|]. destruct Hin; congruence.
Qed.

(** The loop of lines 351-352 runs only when every status is [-1]
    already, and then changes nothing. *)
Lemma set_all_done_id (st : dict Z) :
  forallb (fun s => s =? -1) (dict_values st) = true ->
  set_all_done st = st.
Proof.
  intros Hall. unfold set_all_done.
  assert (G : forall ks, incl ks (dict_keys st) ->
              fold_left (fun st f => dict_set f (-1) st) ks st = st).
  { induction ks as [|k ks IH]; intros Hincl; simpl; [reflexivity|].
    rewrite dict_set_done_id; [|exact Hall|apply Hincl; now left].
    apply IH. intros x Hx. apply Hincl. now right. }
  apply G. apply incl_refl.
Qed.

(** The state after an update that finds its file. *)
Lemma _update_task_progress_found d f v o i t :
  next_task d 0 (tasks (self_checkpoint_data o)) = Some (i, t) ->
  dict_mem f (status t) = true ->
  self_checkpoint_data (_update_task_progress writable d f v o)
  = with_progress (dict_set f v (progress (self_checkpoint_data o)))
      (with_tasks (<[i := mkTaskRecord (directory t) (dict_set f v (status t))]>
                     (tasks (self_checkpoint_data o)))
                  (self_checkpoint_data o)).
Proof.
  intros Hnext Hmem. unfold _update_task_progress. rewrite Hnext, Hmem. simpl negb.
  cbv iota. rewrite _write_checkpoint_data. cbn [self_checkpoint_data with_checkpoint].
  destruct (forallb _ _) eqn:Hall; [|reflexivity].
  now rewrite set_all_done_id.
Qed.

(** The state after an update that does not find its file: only the log
    grows. *)
Lemma _update_task_progress_unknown d f v o :
  status_of d f (self_checkpoint_data o) = None ->
  _update_task_progress writable d f v o
  = logging ERROR "Error updating task progress" o.
Proof.
  unfold status_of, _update_task_progress.
  destruct (next_task d 0 _) as [[i t]|]; [|reflexivity].
  intros Hget. unfold dict_mem. now rewrite Hget.
Qed.

(** C1 (as the code has it).  An update for a file that the tracker
    knows, whatever its status and so also when it is [-1], stores the
    reported status in the status map of its record and in [progress]:
    the file stays at [-1] only if [-1] is what was reported. *)
Theorem update_overwrites_status (d f : string) (s v : Z) (o : Orch) :
  status_of d f (self_checkpoint_data o) = Some s ->
  let o' := _update_task_progress writable d f v o in
  status_of d f (self_checkpoint_data o') = Some v
  /\ dict_get f (progress (self_checkpoint_data o')) = Some v.
Proof.
  unfold status_of at 1. intros Hs.
  destruct (next_task d 0 _) as [[i t]|] eqn:Hnext; [|discriminate].
  assert (Hmem : dict_mem f (status t) = true) by (unfold dict_mem; now rewrite Hs).
  cbv zeta. rewrite (_update_task_progress_found _ _ _ _ _ _ Hnext Hmem).
  destruct (next_task_found _ _ _ _ _ Hnext) as (_ & _ & Hdir).
  split.
  - unfold status_of. cbn [tasks with_progress with_tasks].
    pose proof (next_task_insert d 0 _ i t
                  (mkTaskRecord (directory t) (dict_set f v (status t))) Hnext Hdir) as Hins.
    rewrite Nat.sub_0_r in Hins. rewrite Hins. cbn [status]. apply dict_get_set_eq.
  - cbn [progress with_progress]. apply dict_get_set_eq.
Qed.

(** C1 as stated fails: the complete file of [finished_job] is back at
    frame 5, in both maps, after one update. *)
Lemma terminal_status_overwritten :
  status_of "/data" "/data/a.mp4" (self_checkpoint_data finished_job) = Some (-1)
  /\ dict_get "/data/a.mp4" (progress (self_checkpoint_data finished_job)) = Some (-1)
  /\ let o' := _update_task_progress (fun _ => true) "/data" "/data/a.mp4" 5 finished_job in
     status_of "/data" "/data/a.mp4" (self_checkpoint_data o') = Some 5
     /\ dict_get "/data/a.mp4" (progress (self_checkpoint_data o')) = Some 5
     /\ status_of "/data" "/data/a.mp4" (self_checkpoint_data o') <> Some (-1).
Proof. vm_compute. repeat split; discriminate. Qed.

(** C4 at the failing input.  An update without its ['status'] key
    leaves the state as it is, log included, and [UnboundLocalError]
    leaves [handle_worker_update]: the handler reads [file] and
    [directory], which the [try] block had not bound. *)
Theorem worker_update_missing_key_raises (d f : string) (o : Orch) :
  handle_worker_update writable [("directory", PStr d); ("file", PStr f)] o
  = (o, Raised UnboundLocalError).
Proof. reflexivity. Qed.

(** The other updates that C4 names are dropped as it says: values of
    the wrong type, and a file that no record lists under the reported
    directory, change the log only, and the call returns. *)
Lemma worker_update_dropped (update_info : dict pyval) (o : Orch) :
  forallb (fun key => dict_mem key update_info) ["directory"; "file"; "status"] = true ->
  match dict_get "directory" update_info, dict_get "file" update_info,
        dict_get "status" update_info with
  | Some (PStr d), Some (PStr f), Some (PInt _ | PBool _) =>
      status_of d f (self_checkpoint_data o) = None
  | _, _, _ => True
  end ->
  exists msg,
    handle_worker_update writable update_info o = (logging ERROR msg o, Returned).
Proof.
  intros Hkeys Hbad. unfold handle_worker_update, handle_worker_update_body.
  rewrite Hkeys. simpl negb. cbv iota.
  simpl in Hkeys. unfold dict_mem in Hkeys.
  destruct (dict_get "directory" update_info) as [vd|]; [|discriminate].
  destruct (dict_get "file" update_info) as [vf|]; [|discriminate].
  destruct (dict_get "status" update_info) as [vs|]; [|discriminate].
  destruct vd; simpl; eauto.
  destruct vf; simpl; eauto.
  destruct vs; simpl; eauto;
    rewrite (_update_task_progress_unknown _ _ _ _ Hbad); eauto.
Qed.
End ProgressTracker.

(** ** Agreement of [progress] with the status maps *)

Section Agreement.
Import Orchestrator.
Variable writable : string -> bool.

Lemma progress_agrees_spec (cd : CheckpointState) :
  progress_agrees cd = true <->
  (forall t f s s', In t (tasks cd) -> In (f, s) (status t) ->
                    dict_get f (progress cd) = Some s' -> s = s').
Proof.
  unfold progress_agrees, agrees_on. rewrite forallb_forall. split.
  - intros H t f s s' Ht Hf Hp. specialize (H t Ht).
    rewrite forallb_forall in H. specialize (H (f, s) Hf). simpl in H.
    rewrite Hp in H. now apply Z.eqb_eq.
  - intros H t Ht. rewrite forallb_forall. intros [f s] Hf.
    destruct (dict_get f (progress cd)) as [s'|] eqn:Hp; [|reflexivity].
    apply Z.eqb_eq. eauto.
Qed.

Lemma dict_set_In_inv {V} (k g : string) (v s : V) (d : dict V) :
  List.NoDup (dict_keys d) ->
  In (g, s) (dict_set k v d) ->
  (g = k /\ s = v) \/ (g <> k /\ In (g, s) d).
Proof.
  induction d as [|[k' v'] d IH]; simpl; intros Hnd Hin.
  - destruct Hin as [[= <- <-]|[]]. now left.
  - inversion Hnd as [|? ? Hnotin Hnd']; subst.
    destruct (String.eqb_spec k k') as [->|Hne]; simpl in Hin.
    + destruct Hin as [[= <- <-]|Hin]; [now left|].
      right. split; [|now right]. intros ->. apply Hnotin.
      change (In (fst (k', s)) (map fst d)). now apply in_map.
    + destruct Hin as [[= <- <-]|Hin].
      * right. split; [congruence | now left].
      * destruct (IH Hnd' Hin) as [?|[? ?]]; [now left | right; auto].
Qed.

Lemma lookup_map {A B} (f : A -> B) (l : list A) (i : nat) :
  map f l !! i = f <$> l !! i.
Proof.
  revert i. induction l as [|a l IH]; intros [|i]; simpl; auto.
Qed.

Lemma NoDup_concat_lookup {A} (ls : list (list A)) i a :
  List.NoDup (concat ls) -> ls !! i = Some a -> List.NoDup a.
Proof.
  revert i. induction ls as [|l ls IH]; intros i Hnd Hi; [discriminate|].
  simpl in Hnd. apply NoDup_ListNoDup, NoDup_app in Hnd as (Hl & _ & Hrest).
  apply NoDup_ListNoDup in Hl, Hrest.
  destruct i as [|i]; simpl in Hi; [congruence | eauto].
Qed.

Lemma NoDup_concat_disjoint {A} (ls : list (list A)) i j a b x :
  List.NoDup (concat ls) -> ls !! i = Some a -> ls !! j = Some b -> i <> j ->
  In x a -> In x b -> False.
Proof.
  revert i j. induction ls as [|l ls IH]; intros i j Hnd Hi Hj Hij Ha Hb; [discriminate|].
  simpl in Hnd. apply NoDup_ListNoDup, NoDup_app in Hnd as (_ & Hdisj & Hrest).
  apply NoDup_ListNoDup in Hrest.
  assert (Hin : forall k c, ls !! k = Some c -> In x c -> x ∈ concat ls).
  { intros k c Hk Hc. apply list_elem_of_In, in_concat. exists c. split; [|exact Hc].
    apply list_elem_of_In. eapply list_elem_of_lookup_2. exact Hk. }
  destruct i as [|i], j as [|j]; simpl in Hi, Hj; try congruence.
  - inversion Hi; subst. apply (Hdisj x); [now apply list_elem_of_In | eauto].
  - inversion Hj; subst. apply (Hdisj x); [now apply list_elem_of_In | eauto].
  - apply (IH i j); auto.
Qed.

Lemma mark_queued_get (files : list string) (p : dict Z) (g : string) :
  dict_get g (mark_queued files p)
  = if existsb (String.eqb g) files then Some 0 else dict_get g p.
Proof.
  unfold mark_queued. revert p. induction files as [|f files IH]; intros p; simpl.
  - reflexivity.
  - rewrite IH. destruct (existsb (String.eqb g) files) eqn:Hex.
    + now rewrite orb_true_r.
    + rewrite orb_false_r. destruct (String.eqb_spec g f) as [->|Hne].
      * apply dict_get_set_eq.
      * apply dict_get_set_ne. congruence.
Qed.

(** C5 (as the code has it).  From a checkpoint in which [progress]
    agrees with the status maps, an update keeps them in agreement when
    no file is listed twice, and queuing a batch keeps them in
    agreement when no record holds a file of the batch at a status other
    than [0]. *)
Theorem progress_agreement_preserved (o : Orch) :
  progress_agrees (self_checkpoint_data o) = true ->
  (forall d f v,
      List.NoDup (all_files (self_checkpoint_data o)) ->
      progress_agrees (self_checkpoint_data (_update_task_progress writable d f v o)) = true)
  /\ (forall task,
        unstarted (_video_files task) (self_checkpoint_data o) = true ->
        progress_agrees (self_checkpoint_data (_queue_batch writable task o)) = true).
Proof.
  intros Hagree. pose proof Hagree as Hprop.
  rewrite progress_agrees_spec in Hprop. split.
  - intros d f v Hnd.
    destruct (next_task d 0 (tasks (self_checkpoint_data o))) as [[i t]|] eqn:Hnext.
    2: { rewrite _update_task_progress_unknown; [exact Hagree|].
         unfold status_of. now rewrite Hnext. }
    destruct (dict_mem f (status t)) eqn:Hmem.
    2: { rewrite _update_task_progress_unknown; [exact Hagree|].
         unfold status_of. rewrite Hnext. unfold dict_mem in Hmem.
         destruct (dict_get f (status t)); [discriminate | reflexivity]. }
    rewrite (_update_task_progress_found _ _ _ _ _ _ _ Hnext Hmem).
    apply progress_agrees_spec. cbn [tasks progress with_progress with_tasks].
    destruct (next_task_found _ _ _ _ _ Hnext) as (_ & Hi & _).
    rewrite Nat.sub_0_r in Hi.
    assert (Hfiles : forall j u, tasks (self_checkpoint_data o) !! j = Some u ->
              map (fun t => dict_keys (status t)) (tasks (self_checkpoint_data o)) !! j
              = Some (dict_keys (status u))).
    { intros j u Hj. rewrite lookup_map. now rewrite Hj. }
    unfold all_files in Hnd.
    intros t' g s s' Ht' Hg Hp.
    apply list_elem_of_In, list_elem_of_lookup in Ht' as [j Hj].
    apply list_lookup_insert_Some in Hj as [(<- & <- & _)|(Hij & Hj)].
    + cbn [status] in Hg.
      assert (Hndt : List.NoDup (dict_keys (status t))).
      { eapply NoDup_concat_lookup; [exact Hnd | exact (Hfiles _ _ Hi)]. }
      apply (dict_set_In_inv _ _ _ _ _ Hndt) in Hg as [[-> ->]|[Hne Hg]].
      * rewrite dict_get_set_eq in Hp. congruence.
      * rewrite dict_get_set_ne in Hp by congruence.
        eapply Hprop; [|exact Hg|exact Hp].
        apply list_elem_of_In. eapply list_elem_of_lookup_2. exact Hi.
    + assert (Hgf : g <> f).
      { intros ->. apply dict_mem_keys in Hmem.
        eapply (NoDup_concat_disjoint _ i j _ _ f Hnd);
          [exact (Hfiles _ _ Hi)|exact (Hfiles _ _ Hj)|exact Hij|exact Hmem|].
        change (In (fst (f, s)) (map fst (status t'))). now apply in_map. }
      rewrite dict_get_set_ne in Hp by congruence.
      eapply Hprop; [|exact Hg|exact Hp].
      apply list_elem_of_In. eapply list_elem_of_lookup_2. exact Hj.
  - intros task Hun. unfold _queue_batch. rewrite _write_checkpoint_data.
    cbn [self_checkpoint_data with_checkpoint with_queue].
    apply progress_agrees_spec. cbn [tasks progress with_progress].
    intros t g s s' Ht Hg Hp. rewrite mark_queued_get in Hp.
    unfold unstarted in Hun. rewrite forallb_forall in Hun.
    specialize (Hun t Ht). rewrite forallb_forall in Hun.
    specialize (Hun (g, s) Hg). simpl in Hun.
    destruct (existsb (String.eqb g) (_video_files task)).
    + simpl in Hun. apply Z.eqb_eq in Hun. congruence.
    + eapply Hprop; eauto.
Qed.

(** C5 as stated fails: after the planner has queued the file that
    [resumed_job] holds at frame 7, [progress] says [0] for it and the
    status map still says [7]. *)
Lemma queued_progress_disagrees :
  progress_agrees (self_checkpoint_data resumed_job) = true
  /\ let o' := _manage_tasks (fun _ => true) resumed_job in
     status_of "/data" "/data/a.mp4" (self_checkpoint_data o') = Some 7
     /\ dict_get "/data/a.mp4" (progress (self_checkpoint_data o')) = Some 0
     /\ progress_agrees (self_checkpoint_data o') = false.
Proof. vm_compute. auto. Qed.
End Agreement.

(** ** Properties of the planner *)

Section Planning.
Import Orchestrator.
Variable writable : string -> bool.

Lemma _queue_batch_effect (task : Task) (o : Orch) :
  let o' := _queue_batch writable task o in
  self_task_queue o' = (self_task_queue o ++ [Some task])%list
  /\ self_batch_size o' = self_batch_size o
  /\ tasks (self_checkpoint_data o') = tasks (self_checkpoint_data o).
Proof.
  cbv zeta. unfold _queue_batch.
  destruct (_write_checkpoint_same_self writable
              (with_checkpoint
                 (with_progress
                    (mark_queued (_video_files task)
                       (progress (self_checkpoint_data
                                    (with_queue (self_task_queue o ++ [Some task])%list o))))
                    (self_checkpoint_data
                       (with_queue (self_task_queue o ++ [Some task])%list o)))
                 (with_queue (self_task_queue o ++ [Some task])%list o)))
    as (Hcd & _ & Hbs & _ & _ & Hq).
  rewrite Hcd, Hbs, Hq. auto.
Qed.

Lemma NoDup_keys_app_cons {V} (a : dict V) (k : string) (v : V) (b : dict V) :
  List.NoDup (dict_keys (a ++ (k, v) :: b)%list) ->
  ~ In k (dict_keys a)
  /\ List.NoDup (dict_keys (a ++ b)%list)
  /\ List.NoDup (dict_keys ((a ++ [(k, v)]) ++ b)%list)
  /\ List.NoDup (dict_keys b).
Proof.
  intros Hnd. rewrite <- app_assoc. simpl. split; [|split; [|split]]; try exact Hnd.
  - unfold dict_keys in Hnd. rewrite map_app in Hnd. simpl in Hnd.
    apply List.NoDup_remove_2 in Hnd. intros Hin. apply Hnd, in_or_app. now left.
  - unfold dict_keys in *. rewrite map_app in *. simpl in Hnd.
    now apply List.NoDup_remove_1 in Hnd.
  - unfold dict_keys in *. rewrite map_app in Hnd.
    apply NoDup_ListNoDup, NoDup_app in Hnd as (_ & _ & Hnd).
    apply NoDup_ListNoDup in Hnd. now inversion Hnd.
Qed.

(** The inner loop: what it queues and what it leaves in its
    accumulators. *)
Lemma scan_status_spec (d : string) (items : dict Z) :
  forall (batch : list string) (batch_status : dict Z) (o : Orch),
    List.NoDup (dict_keys (batch_status ++ items)%list) ->
    batch = dict_keys batch_status ->
    Z.of_nat (length batch) < self_batch_size o ->
    exists batches,
      let r := scan_status writable d items batch batch_status o in
      self_task_queue (snd r) = (self_task_queue o ++ map Some batches)%list
      /\ self_batch_size (snd r) = self_batch_size o
      /\ tasks (self_checkpoint_data (snd r)) = tasks (self_checkpoint_data o)
      /\ (concat (map _status batches) ++ snd (fst r))%list
         = (batch_status ++ incomplete items)%list
      /\ fst (fst r) = dict_keys (snd (fst r))
      /\ Z.of_nat (length (fst (fst r))) < self_batch_size o
      /\ Forall (fun b => Task_directory b = d
                          /\ _video_files b = dict_keys (_status b)
                          /\ 0 < Z.of_nat (length (_video_files b)) <= self_batch_size o)
                batches.
Proof.
  induction items as [|[file p] rest IH]; intros batch bst o Hnd Hbatch Hlen.
  - exists []. simpl. rewrite !app_nil_r. auto 10.
  - destruct (NoDup_keys_app_cons _ _ _ _ Hnd) as (Hfresh & Hskip & Hkeep & Hrest).
    simpl scan_status. simpl incomplete.
    destruct (p =? -1) eqn:Hp; simpl negb; cbv iota.
    + apply IH; assumption.
    + rewrite (dict_set_fresh _ _ _ Hfresh).
      assert (Hkeys : (batch ++ [file])%list = dict_keys (bst ++ [(file, p)])%list).
      { subst batch. unfold dict_keys. now rewrite map_app. }
      assert (Hsize : length (batch ++ [file])%list = S (length batch)).
      { rewrite length_app. simpl. lia. }
      destruct (Z.of_nat (length (batch ++ [file])%list) >=? self_batch_size o) eqn:Hfull.
      * destruct (_queue_batch_effect (mkTask d (batch ++ [file])%list (bst ++ [(file, p)])%list) o)
          as (Hq & Hbs & Hts).
        destruct (IH [] [] (_queue_batch writable
                              (mkTask d (batch ++ [file])%list (bst ++ [(file, p)])%list) o))
          as (batches & Hq' & Hbs' & Hts' & Hcat & Hk & Hl & Hall).
        { exact Hrest. }
        { reflexivity. }
        { simpl. lia. }
        exists (mkTask d (batch ++ [file])%list (bst ++ [(file, p)])%list :: batches).
        cbv zeta in *. rewrite Hq', Hbs', Hts', Hq, Hbs, Hts.
        split; [now rewrite <- app_assoc|]. split; [reflexivity|]. split; [reflexivity|].
        split.
        { simpl. rewrite <- !app_assoc. f_equal. simpl in Hcat. rewrite Hcat.
          reflexivity. }
        split; [exact Hk|]. split; [lia|].
        constructor.
        { simpl. split; [reflexivity|]. split; [exact Hkeys|]. lia. }
        { rewrite Hbs in Hall. exact Hall. }
      * destruct (IH (batch ++ [file])%list (bst ++ [(file, p)])%list o)
          as (batches & Hq' & Hbs' & Hts' & Hcat & Hk & Hl & Hall).
        { exact Hkeep. }
        { exact Hkeys. }
        { lia. }
        exists batches. cbv zeta in *.
        repeat (split; [assumption|]).
        split; [|auto].
        rewrite Hcat. now rewrite <- app_assoc.
Qed.

Lemma incomplete_done (t : TaskRecord) : done t = true -> incomplete (status t) = [].
Proof.
  unfold done, incomplete, dict_values.
  induction (status t) as [|[f p] st IH]; simpl; [reflexivity|].
  intros H. apply andb_prop in H as [Hp H]. rewrite Hp. simpl. auto.
Qed.

(** One iteration of the loop over the records. *)
Lemma manage_task_spec (o : Orch) (t : TaskRecord) :
  0 < self_batch_size o ->
  valid_record t ->
  exists batches,
    self_task_queue (manage_task writable o t)
    = (self_task_queue o ++ map Some batches)%list
    /\ self_batch_size (manage_task writable o t) = self_batch_size o
    /\ (done t = true -> batches = [])
    /\ concat (map _status batches) = incomplete (status t)
    /\ Forall (batch_of (self_batch_size o) t) batches.
Proof.
  intros Hpos [Hdir Hnd]. unfold manage_task.
  destruct (String.eqb_spec (directory t) "") as [|_]; [contradiction|].
  fold (done t). destruct (done t) eqn:Hdone.
  - exists []. simpl. rewrite app_nil_r, (incomplete_done _ Hdone). auto.
  - destruct (scan_status_spec (directory t) (status t) [] [] o)
      as (batches & Hq & Hbs & _ & Hcat & Hk & Hl & Hall); [exact Hnd|reflexivity|simpl; lia|].
    cbv zeta in *.
    destruct (scan_status writable (directory t) (status t) [] [] o)
      as [[batch bst] o1]. simpl in Hq, Hbs, Hcat, Hk, Hl.
    destruct batch as [|file batch].
    + exists batches. destruct bst; [|discriminate].
      rewrite app_nil_r in Hcat. repeat (split; [assumption || discriminate|]).
      exact Hall.
    + destruct (_queue_batch_effect (mkTask (directory t) (file :: batch) bst) o1)
        as (Hq1 & Hbs1 & _). cbv zeta in *.
      exists (batches ++ [mkTask (directory t) (file :: batch) bst])%list.
      rewrite Hq1, Hbs1, Hq, Hbs. rewrite map_app, <- app_assoc.
      split; [reflexivity|]. split; [reflexivity|]. split; [discriminate|].
      split.
      { rewrite map_app, concat_app. simpl. rewrite app_nil_r. exact Hcat. }
      apply Forall_app. split; [exact Hall|].
      constructor; [|constructor]. unfold batch_of. simpl.
      split; [reflexivity|]. split; [exact Hk|]. simpl in Hl. lia.
Qed.

Lemma manage_tasks_spec (ts : list TaskRecord) :
  forall o,
    0 < self_batch_size o ->
    Forall valid_record ts ->
    exists plan : list (list Task),
      self_task_queue (fold_left (manage_task writable) ts o)
      = (self_task_queue o ++ map Some (concat plan))%list
      /\ Forall2 (fun t batches =>
                    (done t = true -> batches = [])
                    /\ concat (map _status batches) = incomplete (status t)
                    /\ Forall (batch_of (self_batch_size o) t) batches)
                 ts plan.
Proof.
  induction ts as [|t ts IH]; intros o Hpos Hvalid.
  - exists []. simpl. rewrite app_nil_r. split; [reflexivity | constructor].
  - inversion Hvalid as [|? ? Ht Hts]; subst.
    destruct (manage_task_spec o t Hpos Ht) as (batches & Hq & Hbs & Hdone & Hcat & Hall).
    destruct (IH (manage_task writable o t)) as (plan & Hq' & Hplan);
      [rewrite Hbs; exact Hpos | exact Hts |].
    exists (batches :: plan). simpl. rewrite Hq', Hq, map_app, <- app_assoc.
    split; [reflexivity|]. constructor; [auto|].
    rewrite Hbs in Hplan. exact Hplan.
Qed.

(** C3 (as the code has it).  For a positive [self.batch_size] and
    records that the planner accepts, the tasks queued by
    [_manage_tasks] are, record after record in stored order, the
    batches cut from that record alone: none for a record whose files
    are all at [-1]; otherwise batches whose entries, put end to end,
    are the entries of the record that are not at [-1], in their order,
    each batch carrying the directory of its record and between one and
    [self.batch_size] files.  The bound is the size that the run was
    constructed with, not the [batch_size] of the checkpoint. *)
Theorem planner_batches (o : Orch) :
  0 < self_batch_size o ->
  Forall valid_record (tasks (self_checkpoint_data o)) ->
  exists plan : list (list Task),
    self_task_queue (_manage_tasks writable o)
    = (self_task_queue o ++ map Some (concat plan))%list
    /\ Forall2 (fun t batches =>
                  (done t = true -> batches = [])
                  /\ concat (map _status batches) = incomplete (status t)
                  /\ Forall (batch_of (self_batch_size o) t) batches)
               (tasks (self_checkpoint_data o)) plan.
Proof.
  intros Hpos Hvalid. unfold _manage_tasks. now apply manage_tasks_spec.
Qed.
(** C3 as stated fails: the checkpoint of [resized_job] is valid and
    has [batch_size] 1, and the planner queues its three files as one
    batch, since the run was constructed for batches of three. *)
Lemma batch_exceeds_checkpoint_batch_size :
  valid_state (self_checkpoint_data resized_job)
  /\ batch_size (self_checkpoint_data resized_job) = 1
  /\ self_task_queue (_manage_tasks (fun _ => true) resized_job)
     = [Some (mkTask "/A" ["/A/1.mp4"; "/A/2.mp4"; "/A/3.mp4"]
                [("/A/1.mp4", 0); ("/A/2.mp4", 0); ("/A/3.mp4", 0)])].
Proof.
  split; [|split; [reflexivity | vm_compute; reflexivity]].
  unfold valid_state. simpl. split; [lia|]. split; [lia|]. split; [constructor|].
  repeat constructor; simpl; intuition discriminate.
Qed.

(** Scenario (1): three files per directory and batches of two give the
    batches {2, 1} for ["/A"] and then {2, 1} for ["/B"]. *)
Example planner_scenario_1 :
  map (fun item => match item with
                   | Some b => (Task_directory b, _video_files b)
                   | None => ("", [])
                   end)
      (self_task_queue (_manage_tasks (fun _ => true) two_directories))
  = [("/A", ["/A/1.mp4"; "/A/2.mp4"]); ("/A", ["/A/3.mp4"]);
     ("/B", ["/B/1.mp4"; "/B/2.mp4"]); ("/B", ["/B/3.mp4"])].
Proof. vm_compute. reflexivity. Qed.
End Planning.

(** ** Properties of the resilient writer *)

Section ResilientWriter.
Import DatabaseManipulator.
Variable env : Env.

Lemma same_batch_trans w1 w2 w3 : same_batch w1 w2 -> same_batch w2 w3 -> same_batch w1 w3.
Proof. unfold same_batch. intuition congruence. Qed.

Lemma spill_same_batch rows w :
  same_batch w (fold_left (fun w d => dump_to_csv env d w) rows w).
Proof.
  revert w. induction rows as [|d rows IH]; intros w; simpl; [repeat split|].
  eapply same_batch_trans; [|apply IH]. repeat split.
Qed.

Lemma on_final_failure_same_batch data enable sustain w :
  same_batch w (fst (on_final_failure env data enable sustain w)).
Proof.
  unfold on_final_failure. destruct (truthy data && enable)%bool; [|repeat split].
  assert (H : same_batch w match list_of_tuples data with
                           | Some rows => fold_left (fun w d => dump_to_csv env d w) rows w
                           | None => dump_to_csv env data w
                           end).
  { destruct (list_of_tuples data); [apply spill_same_batch | repeat split]. }
  destruct sustain; exact H.
Qed.

Lemma attempt_loop_same_batch sql data retries ut enable sustain todo pending w :
  same_batch w (fst (attempt_loop env sql data retries ut enable sustain todo pending w)).
Proof.
  revert pending w. induction todo as [|attempt later IH]; intros pending w; simpl;
    [repeat split|].
  destruct (negb (conn w) && negb (connect_ok env (attempts w)))%bool; [repeat split|].
  destruct (execute_ok env (attempts w)); [destruct (bindable data); repeat split|].
  destruct (attempt =? retries - 1).
  - pose proof (on_final_failure_same_batch data enable sustain (tick (with_conn true w))) as H.
    destruct (on_final_failure env data enable sustain (tick (with_conn true w))) as [w3 [|e]];
      simpl in H.
    + eapply same_batch_trans; [|apply IH]. eapply same_batch_trans; [|exact H]. repeat split.
    + eapply same_batch_trans; [|exact H]. repeat split.
  - eapply same_batch_trans; [|apply IH]. repeat split.
Qed.

(** [safe_execute] leaves the batch alone and is recorded once. *)
Lemma safe_execute_frame sql data retries ut enable sustain w :
  let w' := fst (safe_execute env sql data retries ut enable sustain w) in
  _db_name w' = _db_name w
  /\ batch_data w' = batch_data w
  /\ batch_table w' = batch_table w
  /\ batch_size w' = batch_size w
  /\ executed w' = (executed w ++ [(sql, data)])%list.
Proof.
  cbv zeta. unfold safe_execute.
  pose proof (attempt_loop_same_batch sql data retries ut enable sustain (range retries) []
                (record_call sql data w)) as H.
  destruct (attempt_loop env sql data retries ut enable sustain (range retries) []
              (record_call sql data w)) as [w1 r].
  simpl in *. exact H.
Qed.



(** [flush_batch] on a buffer that holds rows: one call of
    [safe_execute] for the whole buffer; the buffer is emptied if the
    call returns and kept if it raises. *)
Lemma flush_batch_rows first rest w :
  batch_data w = first :: rest ->
  let w' := fst (flush_batch env w) in
  _db_name w' = _db_name w
  /\ batch_table w' = batch_table w
  /\ batch_size w' = batch_size w
  /\ executed w'
     = (executed w ++ [(insert_query (batch_table w) first, batch_rows (first :: rest))])%list
  /\ match snd (flush_batch env w) with
     | Returned => batch_data w' = []
     | Raised _ => batch_data w' = first :: rest
     end.
Proof.
  intros Hrows. cbv zeta. unfold flush_batch. rewrite Hrows.
  pose proof (safe_execute_frame (insert_query (batch_table w) first)
                (batch_rows (first :: rest)) 3 true true true w)
    as (Hdb & Hdata & Htable & Hsize & Hexec).
  destruct (safe_execute env _ _ 3 true true true w) as [w1 [|e]]; simpl in *.
  - rewrite Hdb, Htable, Hsize, Hexec. auto.
  - rewrite Hdb, Htable, Hsize, Hexec, Hdata, Hrows. auto.
Qed.


End ResilientWriter.

(** ** The batch buffer *)

Section BatchBuffer.
Import DatabaseManipulator.
Variable env : Env.

Lemma flush_batch_empty w : batch_data w = [] -> flush_batch env w = (w, Returned).
Proof. intros H. unfold flush_batch. now rewrite H. Qed.

Lemma flushes_one_table_mono history extra e :
  flushes_one_table history e -> flushes_one_table (history ++ extra)%list e.
Proof.
  intros (before & segment & after & table & -> & Hne & Hall & ->).
  exists before, segment, (after ++ extra)%list, table.
  rewrite <- !app_assoc. auto.
Qed.

(** A flush keeps the invariant: what it sends is the buffer, and the
    buffer is empty afterwards or what it was. *)
Lemma flush_batch_invariant history w :
  buffer_from history w ->
  Forall (flushes_one_table history) (executed w) ->
  let w' := fst (flush_batch env w) in
  buffer_from history w'
  /\ Forall (flushes_one_table history) (executed w')
  /\ batch_table w' = batch_table w
  /\ batch_size w' = batch_size w
  /\ (snd (flush_batch env w) = Returned -> batch_data w' = [])
  /\ (forall e, snd (flush_batch env w) = Raised e -> batch_data w' = batch_data w).
Proof.
  intros (earlier & held & Hhist & Hrows & Htable) Hexec. cbv zeta.
  destruct (batch_data w) as [|first rest] eqn:Hdata.
  - rewrite (flush_batch_empty _ Hdata). simpl.
    split; [exists earlier, held; rewrite Hdata; auto|]. auto 10.
  - destruct (flush_batch_rows env first rest w Hdata) as (_ & Ht & Hs & He & Hr).
    cbv zeta in *.
    assert (Hevent : flushes_one_table history
              (insert_query (batch_table w) first, batch_rows (first :: rest))).
    { destruct held as [|c held]; [discriminate|].
      exists earlier, (c :: held), [], (fst c).
      rewrite app_nil_r. split; [exact Hhist|]. split; [discriminate|].
      inversion Htable as [|? ? Hc Hheld]; subst. split.
      - constructor; [reflexivity|]. eapply Forall_impl; [exact Hheld|].
        simpl. intros x Hx. congruence.
      - unfold flush_of. simpl in Hrows. inversion Hrows; subst.
        rewrite Hc. reflexivity. }
    assert (Hexec' : Forall (flushes_one_table history) (executed (fst (flush_batch env w)))).
    { rewrite He. apply Forall_app. split; [exact Hexec|]. now constructor. }
    destruct (snd (flush_batch env w)) as [|e] eqn:Hout.
    + split; [exists history, []; rewrite app_nil_r, Hr; simpl; auto|].
      split; [exact Hexec'|]. split; [exact Ht|]. split; [exact Hs|].
      split; [intros _; exact Hr | discriminate].
    + split; [exists earlier, held; rewrite Hr, Ht; auto|].
      split; [exact Hexec'|]. split; [exact Ht|]. split; [exact Hs|].
      split; [discriminate | intros e' _; exact Hr].
Qed.

(** One call of [add_to_batch] keeps the invariant, the call joining the
    history when it returns. *)
Lemma add_to_batch_invariant history w table data :
  buffer_from history w ->
  Forall (flushes_one_table history) (executed w) ->
  let r := add_to_batch env table data w in
  let history' := if is_returned (snd r) then (history ++ [(table, data)])%list else history in
  buffer_from history' (fst r)
  /\ Forall (flushes_one_table history') (executed (fst r)).
Proof.
  intros Hbuf Hexec. cbv zeta. unfold add_to_batch.
  (* the flush of the previous table, if any *)
  assert (Hfirst :
    let s := if table_changes (batch_table w) table then flush_batch env w else (w, Returned) in
    buffer_from history (fst s)
    /\ Forall (flushes_one_table history) (executed (fst s))
    /\ (snd s = Returned ->
        batch_data (fst s) = [] \/ batch_table (fst s) = Some table)).
  { cbv zeta. destruct (table_changes (batch_table w) table) eqn:Hchange.
    - destruct (flush_batch_invariant history w Hbuf Hexec) as (Hb & He & _ & _ & Hr & _).
      split; [exact Hb|]. split; [exact He|]. intros Hret. left. now apply Hr.
    - simpl. split; [exact Hbuf|]. split; [exact Hexec|]. intros _.
      unfold table_changes in Hchange. destruct (batch_table w) as [t0|] eqn:Ht.
      + right. apply negb_false_iff, String.eqb_eq in Hchange. now subst.
      + left. destruct Hbuf as (earlier & held & _ & Hrows & Hall).
        destruct held as [|c held]; [exact Hrows|].
        inversion Hall as [|? ? Hc _]. congruence. }
  cbv zeta in Hfirst.
  destruct (if table_changes (batch_table w) table then flush_batch env w else (w, Returned))
    as [w1 r1].
  simpl in Hfirst. destruct Hfirst as (Hb1 & He1 & Hret).
  destruct r1 as [|e]; simpl; [|auto].
  pose proof (Hret eq_refl) as Hcase.
  (* the row joins the buffer *)
  set (w2 := with_batch (Some table) (batch_data w1 ++ [data])%list w1).
  assert (Hb2 : buffer_from (history ++ [(table, data)])%list w2).
  { destruct Hb1 as (earlier & held & Hhist & Hrows & Hall).
    exists earlier, (held ++ [(table, data)])%list. subst w2. simpl.
    rewrite Hhist, <- app_assoc, map_app, Hrows. split; [reflexivity|]. split; [reflexivity|].
    apply Forall_app. split; [|constructor; [reflexivity | constructor]].
    destruct Hcase as [Hempty|Htable].
    - rewrite Hempty in Hrows. destruct held; [constructor | discriminate].
    - eapply Forall_impl; [exact Hall|]. simpl. intros c Hc. congruence. }
  assert (He2 : Forall (flushes_one_table (history ++ [(table, data)])%list) (executed w2)).
  { subst w2. simpl. eapply Forall_impl; [exact He1|].
    intros e. apply flushes_one_table_mono. }
  destruct (flush_batch_invariant _ w2 Hb2 He2) as (Hb3 & He3 & _).
  destruct (_ >=? _); simpl.
  - auto.
  - auto.
Qed.

Lemma add_all_invariant calls :
  forall history w,
    buffer_from history w ->
    Forall (flushes_one_table history) (executed w) ->
    let r := add_all env calls w in
    buffer_from (history ++ accepted calls (snd r))%list (fst r)
    /\ Forall (flushes_one_table (history ++ accepted calls (snd r))%list) (executed (fst r)).
Proof.
  induction calls as [|[table data] calls IH]; intros history w Hbuf Hexec; cbv zeta.
  - simpl. rewrite app_nil_r. auto.
  - simpl. pose proof (add_to_batch_invariant history w table data Hbuf Hexec) as Hstep.
    cbv zeta in Hstep.
    destruct (add_to_batch env table data w) as [w1 r]. simpl in Hstep.
    destruct Hstep as [Hb1 He1].
    specialize (IH _ w1 Hb1 He1). cbv zeta in IH.
    destruct (add_all env calls w1) as [w2 rs]. simpl in *.
    destruct r; simpl in *; [rewrite <- app_assoc in IH|]; exact IH.
Qed.

(** C10.  After any sequence of [add_to_batch] calls on a new writer,
    whatever the driver does, the buffer holds the rows of the last
    accepted calls and each of them named the table recorded in
    [batch_table]; every call of [safe_execute] made on the way is one
    [INSERT] into one table, with the rows of consecutive accepted
    calls that all named that table.  A call is accepted when it
    returns; the sequence being arbitrary, this holds after each of its
    calls. *)
Theorem buffer_rows_belong_to_batch_table (db_name : string) (size : Z)
    (calls : list (string * dict pyval)) :
  let r := add_all env calls (init db_name size) in
  let history := accepted calls (snd r) in
  buffer_from history (fst r)
  /\ Forall (flushes_one_table history) (executed (fst r)).
Proof.
  cbv zeta. apply (add_all_invariant calls [] (init db_name size)).
  - exists [], []. simpl. auto.
  - constructor.
Qed.
End BatchBuffer.

(** ** Flush triggers *)

Section FlushTriggers.
Import DatabaseManipulator.
Variable env : Env.





End FlushTriggers.

(** ** Exhausted retries *)

Section ExhaustedRetries.
Import DatabaseManipulator.
Variable env : Env.

Lemma after_attempts_fields n w :
  let w' := after_attempts n w in
  _db_name w' = _db_name w
  /\ attempts w' = (attempts w + n)%nat
  /\ hashes w' = hashes w
  /\ csv_files w' = csv_files w
  /\ committed w' = committed w.
Proof.
  revert w. induction n as [|n IH]; intros w; simpl.
  - rewrite Nat.add_0_r. auto.
  - destruct (IH (tick (with_conn true w))) as (H1 & H2 & H3 & H4 & H5).
    simpl in *. rewrite H1, H2, H3, H4, H5. repeat split. lia.
Qed.

(** The files after the rows have been spilled one by one. *)
Lemma spill_fields rows :
  forall w,
    let w' := fold_left (fun w d => dump_to_csv env d w) rows w in
    _db_name w' = _db_name w
    /\ hashes w' = (hashes w + length rows)%nat
    /\ committed w' = committed w
    /\ forall path,
         csv_files w' !! path
         = match rows_for env (_db_name w) path rows (hashes w) with
           | [] => csv_files w !! path
           | added => Some (default [] (csv_files w !! path) ++ added)%list
           end.
Proof.
  induction rows as [|d rows IH]; intros w; cbv zeta.
  - simpl. rewrite Nat.add_0_r. auto.
  - simpl fold_left. destruct (IH (dump_to_csv env d w)) as (Hdb & Hh & Hc & Hfiles).
    cbv zeta in *. rewrite Hdb, Hh, Hc. simpl.
    split; [reflexivity|]. split; [lia|]. split; [reflexivity|].
    intros path. rewrite Hfiles. simpl. unfold dump_path. fold (artifact env (_db_name w) (hashes w)).
    destruct (String.eqb_spec (artifact env (_db_name w) (hashes w)) path) as [->|Hne].
    + rewrite lookup_insert_eq. simpl.
      destruct (rows_for env (_db_name w) path rows (S (hashes w))); [reflexivity|].
      now rewrite <- app_assoc.
    + rewrite lookup_insert_ne by exact Hne. reflexivity.
Qed.

(** One refused attempt: what it had executed stays pending unless it
    is rolled back. *)
Lemma attempt_loop_refused sql data retries ut enable sustain attempt later pending w :
  conn w = true \/ connect_ok env (attempts w) = true ->
  execute_ok env (attempts w) = false ->
  attempt_loop env sql data retries ut enable sustain (attempt :: later) pending w
  = let pending1 :=
      if ut then [] else (pending ++ left_pending env (attempts w))%list in
    if attempt =? retries - 1 then
      match on_final_failure env data enable sustain (tick (with_conn true w)) with
      | (w3, Raised e) => (w3, Raised e)
      | (w3, Returned) =>
          attempt_loop env sql data retries ut enable sustain later pending1 w3
      end
    else attempt_loop env sql data retries ut enable sustain later pending1
           (tick (with_conn true w)).
Proof.
  intros Hconn Hfail. simpl.
  assert (Hc : (negb (conn w) && negb (connect_ok env (attempts w)))%bool = false).
  { destruct Hconn as [-> | ->]; [reflexivity | apply andb_false_r]. }
  rewrite Hc, Hfail. reflexivity.
Qed.

(** The retry loop when the driver refuses every remaining attempt:
    whatever is pending is never committed. *)
Lemma attempt_loop_exhausted sql data retries ut enable sustain m :
  forall a pending w,
    retries = Z.of_nat (a + S m) ->
    conn w = true \/ connect_ok env (attempts w) = true ->
    (forall k, (k < S m)%nat -> execute_ok env (attempts w + k) = false) ->
    attempt_loop env sql data retries ut enable sustain (map Z.of_nat (seq a (S m)))
      pending w
    = on_final_failure env data enable sustain (after_attempts (S m) w).
Proof.
  induction m as [|m IH]; intros a pending w Hretries Hconn Hfail;
    pose proof (Hfail 0%nat ltac:(lia)) as H0; rewrite Nat.add_0_r in H0.
  - change (map Z.of_nat (seq a 1)) with [Z.of_nat a].
    rewrite (attempt_loop_refused _ _ _ _ _ _ _ _ _ _ Hconn H0). cbv zeta.
    replace (Z.of_nat a =? retries - 1) with true by (symmetry; apply Z.eqb_eq; lia).
    simpl after_attempts.
    now destruct (on_final_failure env data enable sustain (tick (with_conn true w))) as [w3 [|e]].
  - change (map Z.of_nat (seq a (S (S m))))
      with (Z.of_nat a :: map Z.of_nat (seq (S a) (S m))).
    rewrite (attempt_loop_refused _ _ _ _ _ _ _ _ _ _ Hconn H0). cbv zeta.
    replace (Z.of_nat a =? retries - 1) with false by (symmetry; apply Z.eqb_neq; lia).
    rewrite (IH (S a) _ (tick (with_conn true w))).
    + reflexivity.
    + lia.
    + now left.
    + intros k Hk. simpl. replace (S (attempts w + k)) with (attempts w + S k)%nat by lia.
      apply Hfail. lia.
Qed.

(** C2 (as the code has it).  When the driver refuses a statement on
    each of its [retries] attempts, [retries] being at least 1, with
    overflow enabled and rows supplied, [safe_execute] commits nothing
    and spills every submitted row, in order, each to the file named by
    a hash of its own: afterwards each file holds what it held followed
    by the rows whose hash names it.  Data that is one tuple therefore
    goes to exactly one file; a list of tuples goes to as many files as
    its rows draw distinct hashes.  The call then raises [RuntimeError]
    in the default mode and returns when [sustain_emergency_dumps] is
    set. *)
Theorem exhausted_retries_spill (sql : string) (data : pyval) (retries : Z)
    (use_transaction sustain : bool) (w : Writer) :
  1 <= retries ->
  truthy data = true ->
  conn w = true \/ connect_ok env (attempts w) = true ->
  (forall k, (k < Z.to_nat retries)%nat -> execute_ok env (attempts w + k) = false) ->
  let r := safe_execute env sql data retries use_transaction true sustain w in
  snd r = (if sustain then Returned else Raised RuntimeError)
  /\ committed (fst r) = committed w
  /\ hashes (fst r) = (hashes w + length (spilled_rows data))%nat
  /\ (forall path,
        csv_files (fst r) !! path
        = match rows_for env (_db_name w) path (spilled_rows data) (hashes w) with
          | [] => csv_files w !! path
          | added => Some (default [] (csv_files w !! path) ++ added)%list
          end)
  /\ (list_of_tuples data = None ->
      csv_files (fst r)
      = <[artifact env (_db_name w) (hashes w)
          := (default [] (csv_files w !! artifact env (_db_name w) (hashes w))
                ++ [data])%list]> (csv_files w)).
Proof.
  intros Hretries Hdata Hconn Hfail. cbv zeta. unfold safe_execute.
  destruct (Z.to_nat retries) as [|m] eqn:Hm; [lia|].
  unfold range. rewrite Hm.
  rewrite (attempt_loop_exhausted sql data retries use_transaction true sustain m 0 []
             (record_call sql data w)); [|lia|exact Hconn|exact Hfail].
  pose proof (after_attempts_fields (S m) (record_call sql data w)) as Hfields.
  cbv zeta in Hfields.
  set (w1 := after_attempts (S m) (record_call sql data w)) in *.
  destruct Hfields as (Hdb & _ & Hh & Hf & Hc).
  cbn [_db_name hashes csv_files committed record_call] in Hdb, Hh, Hf, Hc.
  unfold on_final_failure. rewrite Hdata. simpl andb. cbv iota.
  assert (Hspill : match list_of_tuples data with
                   | Some rows => fold_left (fun w d => dump_to_csv env d w) rows w1
                   | None => dump_to_csv env data w1
                   end
                   = fold_left (fun w d => dump_to_csv env d w) (spilled_rows data) w1).
  { unfold spilled_rows. now destruct (list_of_tuples data). }
  rewrite Hspill.
  destruct (spill_fields (spilled_rows data) w1) as (_ & Hh' & Hc' & Hfiles).
  cbv zeta in *.
  assert (Hres : forall r0, fst (let '(w2, r) := r0 in
                   (with_conn false w2,
                    match r with Returned => Returned | Raised _ => Raised RuntimeError end))
                 = with_conn false (fst r0)
                 /\ snd (let '(w2, r) := r0 in
                   (with_conn false w2,
                    match r with Returned => Returned | Raised _ => Raised RuntimeError end))
                 = match snd r0 with Returned => Returned | Raised _ => Raised RuntimeError end).
  { now intros [w2 r0]. }
  match goal with |- context [let '(w2, r) := ?x in _] => destruct (Hres x) as [Hfst Hsnd] end.
  rewrite Hfst, Hsnd. clear Hres Hfst Hsnd.
  assert (Hw : fst (if negb sustain
                    then (fold_left (fun w d => dump_to_csv env d w) (spilled_rows data) w1,
                          Raised RuntimeError)
                    else (fold_left (fun w d => dump_to_csv env d w) (spilled_rows data) w1,
                          Returned))
               = fold_left (fun w d => dump_to_csv env d w) (spilled_rows data) w1)
    by now destruct sustain.
  rewrite Hw. cbn [committed hashes csv_files with_conn].
  rewrite Hc', Hh', Hc, Hh.
  split; [now destruct sustain|]. split; [reflexivity|]. split; [reflexivity|].
  split.
  - intros path. rewrite Hfiles, Hdb, Hh, Hf. reflexivity.
  - intros Hnone. unfold spilled_rows. rewrite Hnone. simpl.
    unfold dump_path, artifact. now rewrite Hdb, Hh, Hf.
Qed.

(** C2 as stated fails: two rows refused on both of two attempts end
    in two files of one row each, and no file holds both. *)
Lemma two_rows_two_artifacts :
  let r := safe_execute failing_env "INSERT INTO visits (video, frame) VALUES (?, ?)"
             two_rows 2 true true true (init "visits" 50) in
  snd r = Returned
  /\ csv_files (fst r) !! "dumps/emergency_dump_visits_1001.csv"
     = Some [PTuple [PStr "a.mp4"; PInt 1]]
  /\ csv_files (fst r) !! "dumps/emergency_dump_visits_1002.csv"
     = Some [PTuple [PStr "b.mp4"; PInt 2]]
  /\ size (csv_files (fst r)) = 2%nat.
Proof. vm_compute. auto. Qed.
End ExhaustedRetries.

(** ** The theorems at concrete inputs *)

Section OrchestratorInstances.
Import Orchestrator.

(** [update_overwrites_status] on the complete file of [finished_job]. *)
Lemma update_overwrites_status_at_finished_job :
  status_of "/data" "/data/a.mp4" (self_checkpoint_data finished_job) = Some (-1)
  /\ (let o' := _update_task_progress (fun _ => true) "/data" "/data/a.mp4" 5 finished_job in
      status_of "/data" "/data/a.mp4" (self_checkpoint_data o') = Some 5
      /\ dict_get "/data/a.mp4" (progress (self_checkpoint_data o')) = Some 5).
Proof.
  split; [reflexivity|].
  apply (update_overwrites_status (fun _ => true) "/data" "/data/a.mp4" (-1) 5 finished_job).
  reflexivity.
Defined.

Lemma two_directories_valid_records :
  Forall valid_record (tasks (self_checkpoint_data two_directories)).
Proof.
  repeat constructor; simpl; try discriminate; intuition discriminate.
Defined.

(** [planner_batches] on scenario (1). *)
Lemma planner_batches_at_two_directories :
  0 < self_batch_size two_directories
  /\ Forall valid_record (tasks (self_checkpoint_data two_directories))
  /\ exists plan : list (list Task),
       self_task_queue (_manage_tasks (fun _ => true) two_directories)
       = (self_task_queue two_directories ++ map Some (concat plan))%list
       /\ Forall2 (fun t batches =>
                     (done t = true -> batches = [])
                     /\ concat (map _status batches) = incomplete (status t)
                     /\ Forall (batch_of (self_batch_size two_directories) t) batches)
                  (tasks (self_checkpoint_data two_directories)) plan.
Proof.
  split; [reflexivity|]. split; [exact two_directories_valid_records|].
  apply (planner_batches (fun _ => true) two_directories);
    [reflexivity | exact two_directories_valid_records].
Defined.

Lemma two_directories_files_distinct :
  List.NoDup (all_files (self_checkpoint_data two_directories)).
Proof.
  repeat constructor; simpl; intuition discriminate.
Defined.

(** [progress_agreement_preserved] on scenario (1): an update of a
    file, and the queuing of a batch of files at status [0]. *)
Lemma progress_agreement_at_two_directories :
  progress_agrees (self_checkpoint_data two_directories) = true
  /\ progress_agrees
       (self_checkpoint_data
          (_update_task_progress (fun _ => true) "/A" "/A/1.mp4" 5 two_directories)) = true
  /\ progress_agrees
       (self_checkpoint_data
          (_queue_batch (fun _ => true)
             (mkTask "/A" ["/A/1.mp4"; "/A/2.mp4"] [("/A/1.mp4", 0); ("/A/2.mp4", 0)])
             two_directories)) = true.
Proof.
  split; [reflexivity|].
  destruct (progress_agreement_preserved (fun _ => true) two_directories eq_refl)
    as [Hupdate Hqueue].
  split.
  - apply Hupdate. exact two_directories_files_distinct.
  - apply Hqueue. reflexivity.
Defined.

Lemma two_directories_valid_state : valid_state (self_checkpoint_data two_directories).
Proof.
  split; [reflexivity|]. split; [reflexivity|]. split; [constructor|].
  repeat constructor; simpl; intuition discriminate.
Defined.

(** [checkpoint_round_trip] on scenario (1). *)
Lemma checkpoint_round_trip_at_two_directories :
  valid_state (self_checkpoint_data two_directories)
  /\ _initialize_checkpoint false (self_checkpoint_file two_directories)
       (fs (_write_checkpoint (fun _ => true) two_directories))
     = Loaded (py_of_state (self_checkpoint_data two_directories)).
Proof.
  split; [exact two_directories_valid_state|].
  apply (checkpoint_round_trip (fun _ => true) false two_directories);
    [exact two_directories_valid_state | reflexivity].
Defined.

(** [write_checkpoint_falls_back] on scenario (1) when only the
    scratch directory can be written: the second fallback file receives
    the checkpoint. *)
Lemma write_checkpoint_falls_back_to_scratch :
  let writable := fun path => String.eqb path "/scratch/job.json" in
  let o' := _write_checkpoint writable two_directories in
  writable (self_checkpoint_file two_directories) = false
  /\ fs o' = <["/scratch/job.json"
               := json_dump (py_of_state (self_checkpoint_data two_directories))]> ∅
  /\ log o' = [primary_error; fallback_error; fallback_info].
Proof.
  cbv zeta. split; [reflexivity|].
  destruct (write_checkpoint_falls_back
              (fun path => String.eqb path "/scratch/job.json") two_directories eq_refl)
    as (_ & Hfirst & _).
  apply (Hfirst ["/home/u/"] "/scratch" []); [reflexivity| |reflexivity].
  constructor; [reflexivity | constructor].
Defined.
End OrchestratorInstances.

Section WriterInstances.
Import DatabaseManipulator.

(** [exhausted_retries_spill] for one row refused on both of two
    attempts, in the default mode. *)
Lemma exhausted_retries_spill_one_row :
  let data := PTuple [PStr "a.mp4"; PInt 1] in
  let r := safe_execute failing_env "INSERT INTO visits (video, frame) VALUES (?, ?)"
             data 2 true true false (init "visits" 50) in
  snd r = Raised RuntimeError
  /\ csv_files (fst r) = {["dumps/emergency_dump_visits_1001.csv" := [data]]}.
Proof.
  cbv zeta.
  destruct (exhausted_retries_spill failing_env
              "INSERT INTO visits (video, frame) VALUES (?, ?)"
              (PTuple [PStr "a.mp4"; PInt 1]) 2 true false (init "visits" 50))
    as (Hout & _ & _ & _ & Hfile).
  - lia.
  - reflexivity.
  - right. reflexivity.
  - intros k _. reflexivity.
  - split; [exact Hout|]. rewrite (Hfile eq_refl). reflexivity.
Defined.

End WriterInstances.

(** ** Outcomes of [safe_execute] *)

Section Outcomes.
Import DatabaseManipulator.
Variable env : Env.

Lemma spill_as_fold data w :
  match list_of_tuples data with
  | Some rows => fold_left (fun w d => dump_to_csv env d w) rows w
  | None => dump_to_csv env data w
  end
  = fold_left (fun w d => dump_to_csv env d w) (spilled_rows data) w.
Proof. unfold spilled_rows. now destruct (list_of_tuples data). Qed.

(** The ways in which the retry loop ends. *)
Lemma attempt_loop_cases sql data retries ut enable sustain m :
  forall a pending w,
    retries = Z.of_nat (a + m) ->
    let r := attempt_loop env sql data retries ut enable sustain (map Z.of_nat (seq a m))
               pending w in
    (m = 0%nat /\ r = (w, Returned))
    \/ (snd r = Returned
        /\ bindable data = true
        /\ (exists earlier,
              committed (fst r) = (committed w ++ earlier ++ [(sql, data)])%list
              /\ (ut = true -> earlier = [] \/ earlier = pending))
        /\ csv_files (fst r) = csv_files w /\ hashes (fst r) = hashes w)
    \/ ((exists e, snd r = Raised e)
        /\ committed (fst r) = committed w
        /\ csv_files (fst r) = csv_files w /\ hashes (fst r) = hashes w
        /\ ((truthy data && enable)%bool = false
            \/ (exists n, connect_ok env n = false)
            \/ bindable data = false))
    \/ ((truthy data && enable)%bool = true
        /\ snd r = (if sustain then Returned else Raised RuntimeError)
        /\ committed (fst r) = committed w
        /\ hashes (fst r) = (hashes w + length (spilled_rows data))%nat
        /\ forall path,
             csv_files (fst r) !! path
             = match rows_for env (_db_name w) path (spilled_rows data) (hashes w) with
               | [] => csv_files w !! path
               | added => Some (default [] (csv_files w !! path) ++ added)%list
               end).
Proof.
  induction m as [|m IH]; intros a pending w Hretries; cbv zeta; [now left|].
  right. change (map Z.of_nat (seq a (S m))) with (Z.of_nat a :: map Z.of_nat (seq (S a) m)).
  cbn [attempt_loop].
  destruct (negb (conn w) && negb (connect_ok env (attempts w)))%bool eqn:Hopen.
  { right. left. simpl. split; [eauto|]. repeat split. right. left. exists (attempts w).
    apply andb_prop in Hopen as [_ Hopen]. now apply negb_true_iff in Hopen. }
  cbn [attempts with_conn].
  destruct (execute_ok env (attempts w)).
  { destruct (bindable data) eqn:Hbind.
    - left. simpl. split; [reflexivity|]. split; [reflexivity|].
      split; [|auto]. exists pending. rewrite <- app_assoc. auto.
    - right. left. simpl. split; [eauto|]. auto 10. }
  destruct (Z.of_nat a =? retries - 1) eqn:Hlast.
  - apply Z.eqb_eq in Hlast. assert (m = 0%nat) by lia. subst m.
    unfold on_final_failure. destruct (truthy data && enable)%bool eqn:Hrows.
    + right. right. rewrite spill_as_fold.
      destruct (spill_fields env (spilled_rows data) (tick (with_conn true w)))
        as (_ & Hh & Hc & Hfiles).
      cbv zeta in *. simpl in Hh, Hc, Hfiles.
      destruct sustain; simpl; auto.
    + right. left. simpl. split; [eauto|]. auto 10.
  - apply Z.eqb_neq in Hlast.
    destruct (IH (S a) (if ut then [] else (pending ++ left_pending env (attempts w))%list)
                (tick (with_conn true w)) ltac:(lia)) as [[H0 _]|H]; [lia|].
    simpl in H.
    destruct H as [(H1 & H2 & (earlier & H3 & H4) & H5)|H]; [|right; exact H].
    left. split; [exact H1|]. split; [exact H2|]. split; [|exact H5].
    exists earlier. split; [exact H3|]. intros Hut. left.
    destruct (H4 Hut) as [He|He]; [exact He|]. rewrite He, Hut. reflexivity.
Qed.

(** The ways in which [safe_execute] ends. *)
Lemma safe_execute_cases sql data retries ut enable sustain w :
  let r := safe_execute env sql data retries ut enable sustain w in
  (retries <= 0 /\ snd r = Returned
   /\ committed (fst r) = committed w
   /\ csv_files (fst r) = csv_files w /\ hashes (fst r) = hashes w)
  \/ (snd r = Returned
      /\ bindable data = true
      /\ (exists earlier,
            committed (fst r) = (committed w ++ earlier ++ [(sql, data)])%list
            /\ (ut = true -> earlier = []))
      /\ csv_files (fst r) = csv_files w /\ hashes (fst r) = hashes w)
  \/ (snd r = Raised RuntimeError
      /\ committed (fst r) = committed w
      /\ csv_files (fst r) = csv_files w /\ hashes (fst r) = hashes w
      /\ ((truthy data && enable)%bool = false
          \/ (exists n, connect_ok env n = false)
          \/ bindable data = false))
  \/ ((truthy data && enable)%bool = true
      /\ 1 <= retries
      /\ snd r = (if sustain then Returned else Raised RuntimeError)
      /\ committed (fst r) = committed w
      /\ hashes (fst r) = (hashes w + length (spilled_rows data))%nat
      /\ forall path,
           csv_files (fst r) !! path
           = match rows_for env (_db_name w) path (spilled_rows data) (hashes w) with
             | [] => csv_files w !! path
             | added => Some (default [] (csv_files w !! path) ++ added)%list
             end).
Proof.
  cbv zeta. unfold safe_execute, range.
  destruct (Z.to_nat retries) as [|m] eqn:Hm.
  - left. simpl. split; [lia | auto].
  - right.
    pose proof (attempt_loop_cases sql data retries ut enable sustain (S m) 0 []
                  (record_call sql data w) ltac:(lia)) as H.
    cbv zeta in H.
    destruct (attempt_loop env sql data retries ut enable sustain
                (map Z.of_nat (seq 0 (S m))) [] (record_call sql data w)) as [w1 r].
    simpl in H. simpl.
    destruct H as [[H0 _]|[(-> & Hb & (earlier & Hc & He) & H)
                          |[([e ->] & H)|(Hrows & -> & H)]]];
      [discriminate| | |].
    + left. split; [reflexivity|]. split; [exact Hb|]. split; [|exact H].
      exists earlier. split; [exact Hc|]. intros Hut. now destruct (He Hut).
    + right. left. auto.
    + right. right. split; [exact Hrows|]. split; [lia|]. now destruct sustain.
Qed.
End Outcomes.

(** ** What [safe_execute] guarantees its callers *)

Section Guarantees.
Import DatabaseManipulator.
Variable env : Env.

(** X1.  Without rows to spill (no data, or empty data) or with overflow
    disabled, [safe_execute] writes to no overflow file and draws no
    hash, whatever the driver does. *)
Theorem safe_execute_without_rows_never_spills sql data retries ut enable sustain w :
  (truthy data && enable)%bool = false ->
  let r := safe_execute env sql data retries ut enable sustain w in
  csv_files (fst r) = csv_files w /\ hashes (fst r) = hashes w.
Proof.
  intros Hrows. cbv zeta.
  destruct (safe_execute_cases env sql data retries ut enable sustain w)
    as [H|[H|[H|H]]]; cbv zeta in H.
  - tauto.
  - destruct H as (_ & _ & _ & H). exact H.
  - tauto.
  - destruct H as (Htrue & _). congruence.
Qed.

(** X2.  With [retries] at most 0 the loop body never runs: the call
    returns as if it had succeeded, with nothing committed and nothing
    spilled, also for a statement that the driver would accept. *)
Theorem safe_execute_without_attempts sql data retries ut enable sustain w :
  retries <= 0 ->
  safe_execute env sql data retries ut enable sustain w
  = (with_conn false (record_call sql data w), Returned).
Proof.
  intros Hretries. unfold safe_execute, range.
  replace (Z.to_nat retries) with 0%nat by lia. reflexivity.
Qed.

(** X3.  In the default mode and with at least one attempt,
    [safe_execute] returns exactly when its statement was committed,
    behind what the attempts refused before had left pending, which is
    nothing under [use_transaction]; otherwise it raises and nothing was
    committed. *)
Theorem safe_execute_returns_iff_committed sql data retries ut enable w :
  1 <= retries ->
  let r := safe_execute env sql data retries ut enable false w in
  (snd r = Returned
   /\ exists earlier,
        committed (fst r) = (committed w ++ earlier ++ [(sql, data)])%list
        /\ (ut = true -> earlier = []))
  \/ (snd r = Raised RuntimeError /\ committed (fst r) = committed w).
Proof.
  intros Hretries. cbv zeta.
  destruct (safe_execute_cases env sql data retries ut enable false w)
    as [H|[H|[H|H]]]; cbv zeta in H.
  - lia.
  - left. tauto.
  - right. tauto.
  - right. tauto.
Qed.

Lemma attempt_loop_accepts sql data retries ut enable sustain k :
  forall a j pending w,
    retries = Z.of_nat (a + S k + j) ->
    conn w = true \/ connect_ok env (attempts w) = true ->
    (forall i, (i < k)%nat -> execute_ok env (attempts w + i) = false) ->
    execute_ok env (attempts w + k) = true ->
    bindable data = true ->
    let r := attempt_loop env sql data retries ut enable sustain
               (map Z.of_nat (seq a (S k + j))) pending w in
    snd r = Returned
    /\ committed (fst r)
       = (committed w
            ++ (if ut then match k with O => pending | S _ => [] end
                else pending ++ flat_map (left_pending env) (seq (attempts w) k))
            ++ [(sql, data)])%list
    /\ attempts (fst r) = (attempts w + S k)%nat
    /\ csv_files (fst r) = csv_files w /\ hashes (fst r) = hashes w.
Proof.
  induction k as [|k IH]; intros a j pending w Hretries Hconn Hfail Hok Hbind; cbv zeta.
  - change (map Z.of_nat (seq a (1 + j))) with (Z.of_nat a :: map Z.of_nat (seq (S a) j)).
    cbn [attempt_loop].
    assert (Hc : (negb (conn w) && negb (connect_ok env (attempts w)))%bool = false).
    { destruct Hconn as [-> | ->]; [reflexivity | apply andb_false_r]. }
    rewrite Hc. cbn [attempts with_conn]. rewrite Nat.add_0_r in Hok. rewrite Hok, Hbind.
    simpl. rewrite app_nil_r, <- app_assoc. destruct ut; repeat split; lia.
  - change (map Z.of_nat (seq a (S (S k) + j)))
      with (Z.of_nat a :: map Z.of_nat (seq (S a) (S k + j))).
    pose proof (Hfail 0%nat ltac:(lia)) as H0. rewrite Nat.add_0_r in H0.
    rewrite (attempt_loop_refused env _ _ _ _ _ _ _ _ _ _ Hconn H0). cbv zeta.
    replace (Z.of_nat a =? retries - 1) with false by (symmetry; apply Z.eqb_neq; lia).
    destruct (IH (S a) j (if ut then [] else (pending ++ left_pending env (attempts w))%list)
                (tick (with_conn true w))) as (H1 & H2 & H3 & H4 & H5).
    + lia.
    + now left.
    + intros i Hi. simpl. replace (S (attempts w + i)) with (attempts w + S i)%nat by lia.
      apply Hfail. lia.
    + simpl. replace (S (attempts w + k)) with (attempts w + S k)%nat by lia. exact Hok.
    + exact Hbind.
    + cbn [attempts committed csv_files hashes tick with_conn] in *.
      rewrite H1, H2, H3, H4, H5. split; [reflexivity|]. split; [|repeat split; lia].
      destruct ut.
      * now destruct k.
      * cbn [seq flat_map]. rewrite <- !app_assoc. reflexivity.
Qed.

(** X4.  A statement that the driver refuses [k] times and then accepts,
    [k] being less than [retries], is committed after [k + 1] attempts,
    and nothing is spilled.  Under [use_transaction] it is committed
    alone; without it no refused attempt is rolled back, and what these
    attempts had executed is committed with it: the statement is
    committed twice when it was the [commit] of one attempt that was
    refused. *)
Theorem safe_execute_retries_until_accepted sql data retries ut enable sustain k w :
  (k < Z.to_nat retries)%nat ->
  conn w = true \/ connect_ok env (attempts w) = true ->
  (forall i, (i < k)%nat -> execute_ok env (attempts w + i) = false) ->
  execute_ok env (attempts w + k) = true ->
  bindable data = true ->
  let r := safe_execute env sql data retries ut enable sustain w in
  snd r = Returned
  /\ committed (fst r)
     = (committed w
          ++ (if ut then [] else flat_map (left_pending env) (seq (attempts w) k))
          ++ [(sql, data)])%list
  /\ attempts (fst r) = (attempts w + S k)%nat
  /\ csv_files (fst r) = csv_files w /\ hashes (fst r) = hashes w
  /\ conn (fst r) = false.
Proof.
  intros Hk Hconn Hfail Hok Hbind. cbv zeta. unfold safe_execute, range.
  replace (Z.to_nat retries) with (S k + (Z.to_nat retries - S k))%nat by lia.
  pose proof (attempt_loop_accepts sql data retries ut enable sustain k 0
                (Z.to_nat retries - S k) [] (record_call sql data w)
                ltac:(lia) Hconn Hfail Hok Hbind) as H.
  cbv zeta in H.
  destruct (attempt_loop env sql data retries ut enable sustain _ _ _) as [w1 r].
  cbn [fst snd attempts committed csv_files hashes record_call with_conn conn] in *.
  destruct H as (-> & H2 & H3 & H4 & H5).
  split; [reflexivity|]. split; [|auto].
  rewrite H2. destruct ut; [now destruct k | reflexivity].
Qed.

Lemma safe_execute_no_connection sql data retries ut enable sustain w :
  1 <= retries ->
  conn w = false ->
  connect_ok env (attempts w) = false ->
  safe_execute env sql data retries ut enable sustain w
  = (with_conn false (tick (record_call sql data w)), Raised RuntimeError).
Proof.
  intros Hretries Hconn Hfail. unfold safe_execute, range.
  destruct (Z.to_nat retries) as [|m] eqn:Hm; [lia|].
  change (map Z.of_nat (seq 0 (S m))) with (Z.of_nat 0 :: map Z.of_nat (seq 1 m)).
  cbn [attempt_loop]. cbn [conn attempts record_call]. rewrite Hconn, Hfail. reflexivity.
Qed.

(** When the database cannot be opened, [safe_execute] raises at
    once: one attempt, no retry, nothing committed and, even with
    overflow enabled and sustained, nothing spilled. *)
Theorem safe_execute_cannot_connect sql data retries ut enable sustain w :
  1 <= retries ->
  conn w = false ->
  connect_ok env (attempts w) = false ->
  let r := safe_execute env sql data retries ut enable sustain w in
  snd r = Raised RuntimeError
  /\ attempts (fst r) = S (attempts w)
  /\ committed (fst r) = committed w
  /\ csv_files (fst r) = csv_files w
  /\ hashes (fst r) = hashes w.
Proof.
  intros Hretries Hconn Hfail. cbv zeta.
  rewrite safe_execute_no_connection by assumption. simpl. auto.
Qed.

(** X5.  A row for another table, added while rows are pending and the
    database cannot be opened, is not buffered: [add_to_batch] raises,
    the buffer and [batch_table] are what they were, nothing is committed
    and nothing is spilled. *)
Theorem add_to_batch_switch_cannot_connect previous table data first rest w :
  batch_table w = Some previous ->
  previous <> table ->
  batch_data w = first :: rest ->
  conn w = false ->
  connect_ok env (attempts w) = false ->
  let r := add_to_batch env table data w in
  snd r = Raised RuntimeError
  /\ batch_data (fst r) = first :: rest
  /\ batch_table (fst r) = Some previous
  /\ committed (fst r) = committed w
  /\ csv_files (fst r) = csv_files w.
Proof.
  intros Htable Hne Hrows Hconn Hfail. cbv zeta. unfold add_to_batch.
  rewrite Htable. simpl table_changes.
  destruct (String.eqb_spec previous table) as [|_]; [contradiction|]. simpl negb. cbv iota.
  unfold flush_batch. rewrite Hrows.
  rewrite safe_execute_no_connection by (lia || assumption).
  simpl. rewrite Hrows, Htable. auto.
Qed.

(** X6.  When the database cannot be opened as the object is destroyed,
    [__del__] returns with the pending rows still in the buffer: they are
    neither committed nor spilled. *)
Theorem del_cannot_connect first rest w :
  batch_data w = first :: rest ->
  conn w = false ->
  connect_ok env (attempts w) = false ->
  let w' := __del__ env w in
  batch_data w' = first :: rest
  /\ committed w' = committed w
  /\ csv_files w' = csv_files w.
Proof.
  intros Hrows Hconn Hfail. cbv zeta. unfold __del__, flush_batch. rewrite Hrows.
  rewrite safe_execute_no_connection by (lia || assumption).
  simpl. rewrite Hrows. auto.
Qed.
End Guarantees.

(** ** Single statements and the conservation of rows *)

Section RowConservation.
Import DatabaseManipulator.
Variable env : Env.



(** X8.  [delete] and [create_table] carry no rows: whatever the driver
    does they write to no overflow file, and they return exactly when
    their statement was committed.  [create_table] runs under
    [use_transaction] and commits one statement; [delete] commits its
    statement behind what refused attempts had left pending, which is
    nothing under [use_transaction]. *)
Theorem statements_without_rows table condition ut columns w :
  (let r := delete env table condition ut w in
   csv_files (fst r) = csv_files w
   /\ ((snd r = Returned
        /\ exists earlier,
             committed (fst r)
             = (committed w ++ earlier
                  ++ [("DELETE FROM " +:+ table +:+ " WHERE " +:+ condition, PNone)])%list
             /\ (ut = true -> earlier = []))
       \/ (snd r = Raised RuntimeError /\ committed (fst r) = committed w)))
  /\ (let r := create_table env table columns w in
      csv_files (fst r) = csv_files w
      /\ ((snd r = Returned /\ length (committed (fst r)) = S (length (committed w)))
          \/ (snd r = Raised RuntimeError /\ committed (fst r) = committed w))).
Proof.
  split; cbv zeta.
  - unfold delete.
    destruct (safe_execute_cases env ("DELETE FROM " +:+ table +:+ " WHERE " +:+ condition)
                PNone 3 ut true false w) as [H|[H|[H|H]]]; cbv zeta in H.
    + lia.
    + destruct H as (Hout & _ & Hc & Hf & _). split; [exact Hf|]. left. auto.
    + split; [tauto|]. right. tauto.
    + destruct H as (Hrows & _). discriminate.
  - unfold create_table.
    match goal with |- context [safe_execute env ?q PNone 3 true true false w] =>
      destruct (safe_execute_cases env q PNone 3 true true false w) as [H|[H|[H|H]]];
      cbv zeta in H; destruct (safe_execute env q PNone 3 true true false w) as [w1 r1]
    end; simpl in *.
    + lia.
    + destruct H as (-> & _ & (earlier & Hc & He) & Hf & _). split; [exact Hf|]. left. simpl.
      rewrite Hc, (He eq_refl), length_app. simpl. split; [reflexivity | lia].
    + destruct H as (-> & Hc & Hf & _). split; [exact Hf|]. right. auto.
    + destruct H as (Hrows & _). discriminate.
Qed.





End RowConservation.

(** ** Reconciliation of the overflow files *)

Section Reconciling.
Import DatabaseManipulator.
Variable env : Env.
Variable result_rows : nat -> list (list pyval).
Variable is_valid_directory_path : string -> bool.
Variable list_csv_files : string -> exn + list string.
Variable csv_cells : pyval -> list string.
Variable py_str : pyval -> string.

Lemma same_overflow_trans w1 w2 w3 :
  same_overflow w1 w2 -> same_overflow w2 w3 -> same_overflow w1 w3.
Proof. unfold same_overflow. intuition congruence. Qed.

Lemma execute_query_same_overflow query params w :
  same_overflow w (fst (execute_query env result_rows query params w)).
Proof.
  unfold execute_query.
  destruct (negb (conn w) && negb (connect_ok env (attempts w)))%bool; [repeat split|].
  destruct (execute_ok env _ && bindable params)%bool; repeat split.
Qed.

Lemma replay_statement_same_overflow query data w :
  same_overflow w (fst (safe_execute env query data 3 true false false w)).
Proof.
  destruct (safe_execute_frame env query data 3 true false false w) as (Hdb & _).
  destruct (safe_execute_cases env query data 3 true false false w) as [H|[H|[H|H]]];
    cbv zeta in *.
  - repeat split; tauto.
  - destruct H as (_ & _ & _ & Hf & Hh). repeat split; assumption.
  - repeat split; tauto.
  - destruct H as (Hrows & _). rewrite andb_false_r in Hrows. discriminate.
Qed.

Lemma replay_rows_same_overflow query rows :
  forall w, same_overflow w (fst (replay_rows env csv_cells query rows w)).
Proof.
  induction rows as [|row rows IH]; intros w; simpl; [repeat split|].
  pose proof (replay_statement_same_overflow query (PTuple (map PStr (csv_cells row))) w) as H.
  destruct (safe_execute env query _ 3 true false false w) as [w1 [|e]]; simpl in H.
  - eapply same_overflow_trans; [exact H | apply IH].
  - exact H.
Qed.

(** What the replay of one file leaves in the overflow folder: every
    file is what it was, except that the file replayed may be gone. *)
Lemma replay_file_overflow query delete_dumps w csv_file :
  let w' := replay_file env csv_cells query delete_dumps w csv_file in
  _db_name w' = _db_name w
  /\ hashes w' = hashes w
  /\ (csv_files w' = csv_files w
      \/ (delete_dumps = true
          /\ str_contains ("_" +:+ _db_name w +:+ "_") csv_file = true
          /\ csv_files w' = base.delete csv_file (csv_files w))).
Proof.
  cbv zeta. unfold replay_file.
  destruct (str_contains _ csv_file) eqn:Hmatch; [|auto].
  destruct (csv_files w !! csv_file) as [rows|]; [|auto].
  pose proof (replay_rows_same_overflow query rows w) as (Hdb & Hh & Hf).
  destruct (replay_rows env csv_cells query rows w) as [w1 [|e]]; simpl in *; [|auto].
  destruct delete_dumps; simpl; [|auto].
  rewrite Hdb, Hh, Hf. auto 10.
Qed.

Lemma replay_files_overflow query delete_dumps files :
  forall w,
    let w' := fold_left (replay_file env csv_cells query delete_dumps) files w in
    _db_name w' = _db_name w
    /\ hashes w' = hashes w
    /\ (delete_dumps = false -> csv_files w' = csv_files w)
    /\ forall path,
         csv_files w' !! path = csv_files w !! path
         \/ (csv_files w' !! path = None
             /\ delete_dumps = true
             /\ str_contains ("_" +:+ _db_name w +:+ "_") path = true).
Proof.
  induction files as [|f files IH]; intros w; cbv zeta; simpl; [auto|].
  destruct (replay_file_overflow query delete_dumps w f) as (Hdb & Hh & Hf).
  destruct (IH (replay_file env csv_cells query delete_dumps w f)) as (Hdb' & Hh' & Hno & Hall).
  cbv zeta in *. rewrite Hdb', Hh', Hdb, Hh. split; [reflexivity|]. split; [reflexivity|].
  split.
  - intros Hdel. rewrite (Hno Hdel).
    destruct Hf as [Hf|(Hdel' & _)]; [exact Hf | congruence].
  - intros path. rewrite Hdb in Hall.
    destruct (Hall path) as [Hsame|Hgone]; [|now right].
    rewrite Hsame. destruct Hf as [->|(Hdel & Hmatch & ->)]; [now left|].
    destruct (String.eqb_spec f path) as [->|Hne].
    + right. now rewrite lookup_delete_eq.
    + left. now rewrite lookup_delete_ne.
Qed.

(** X10.  Whatever the driver and the folder hold, [gather_dump_data]
    creates no overflow file and draws no hash; a file of the folder is
    afterwards what it was or, with [delete_dumps] and only if its path
    contains the name of the database between underscores, gone. *)
Theorem gather_dump_data_only_removes table_name dumps_folder delete_dumps w :
  let r := gather_dump_data env result_rows is_valid_directory_path list_csv_files
             csv_cells py_str table_name dumps_folder delete_dumps w in
  hashes (fst r) = hashes w
  /\ (delete_dumps = false -> csv_files (fst r) = csv_files w)
  /\ forall path,
       csv_files (fst r) !! path = csv_files w !! path
       \/ (csv_files (fst r) !! path = None
           /\ delete_dumps = true
           /\ str_contains ("_" +:+ _db_name w +:+ "_") path = true).
Proof.
  cbv zeta. unfold gather_dump_data.
  assert (Hresolve : same_overflow w (fst (resolve_table env result_rows py_str table_name w))).
  { unfold resolve_table, fetch_one.
    assert (Hq := execute_query_same_overflow
                    "SELECT name FROM sqlite_master WHERE type='table' ORDER BY name LIMIT 1"
                    PNone w).
    destruct table_name as [[|a t]|]; try (repeat split; fail);
      destruct (execute_query env result_rows _ PNone w) as [w1 [e|rows]]; simpl in *;
      try exact Hq;
      destruct (head rows) as [[|name row]|]; simpl; try exact Hq;
      destruct (truthy name); exact Hq. }
  destruct (resolve_table env result_rows py_str table_name w) as [w1 [e|table]];
    simpl in Hresolve.
  { destruct Hresolve as (_ & Hh & Hf). simpl. rewrite Hh, Hf. auto. }
  assert (Hcolumns : same_overflow w1 (fst (get_column_names env result_rows table true w1))).
  { unfold get_column_names, fetch_all.
    assert (Hq := execute_query_same_overflow ("PRAGMA table_info(" +:+ table +:+ ")") PNone w1).
    destruct (execute_query env result_rows _ PNone w1) as [w2 [e|rows]]; exact Hq. }
  destruct (get_column_names env result_rows table true w1) as [w2 [e|column_names]];
    simpl in Hcolumns;
    destruct (same_overflow_trans _ _ _ Hresolve Hcolumns) as (Hdb & Hh & Hf).
  { simpl. rewrite Hh, Hf. auto. }
  destruct (strings_of column_names) as [names|]; [|simpl; rewrite Hh, Hf; auto].
  destruct (negb (is_valid_directory_path dumps_folder)); [simpl; rewrite Hh, Hf; auto|].
  destruct (list_csv_files dumps_folder) as [e|files]; [simpl; rewrite Hh, Hf; auto|].
  simpl.
  match goal with |- context [fold_left (replay_file env csv_cells ?q delete_dumps) files w2] =>
    destruct (replay_files_overflow q delete_dumps files w2) as (_ & Hh' & Hno & Hall)
  end.
  cbv zeta in *. rewrite Hh', Hh. split; [reflexivity|]. split.
  - intros Hdel. rewrite (Hno Hdel). exact Hf.
  - intros path. rewrite <- Hf, <- Hdb. apply Hall.
Qed.
End Reconciling.

(** ** What a reconciliation replays *)

Section Replaying.
Import DatabaseManipulator.
Variable env : Env.
Variable result_rows : nat -> list (list pyval).
Variable is_valid_directory_path : string -> bool.
Variable list_csv_files : string -> exn + list string.
Variable csv_cells : pyval -> list string.
Variable py_str : pyval -> string.
Hypothesis database_opens : forall n, connect_ok env n = true.

(** The cells of a row read back from a file are strings, which can
    always be bound. *)
Lemma bindable_cells (cells : list string) : bindable (PTuple (map PStr cells)) = true.
Proof.
  unfold bindable. destruct (truthy _); [|reflexivity]. simpl.
  induction cells as [|cell cells IH]; simpl; auto.
Qed.

Lemma safe_execute_accepted_at_once query data ut enable sustain w :
  execute_ok env (attempts w) = true ->
  bindable data = true ->
  let r := safe_execute env query data 3 ut enable sustain w in
  snd r = Returned
  /\ committed (fst r) = (committed w ++ [(query, data)])%list
  /\ attempts (fst r) = S (attempts w)
  /\ same_overflow w (fst r).
Proof.
  intros Hok Hbind. cbv zeta.
  destruct (safe_execute_frame env query data 3 ut enable sustain w) as (Hdb & _).
  cbv zeta in Hdb. revert Hdb. unfold safe_execute, range.
  assert (Hok' : execute_ok env (attempts (record_call query data w) + 0) = true).
  { cbn [attempts record_call]. now rewrite Nat.add_0_r. }
  pose proof (attempt_loop_accepts env query data 3 ut enable sustain 0 0 2 []
                (record_call query data w) eq_refl
                (or_intror (database_opens _))
                ltac:(intros i Hi; lia) Hok' Hbind) as H.
  cbv zeta in H.
  change (map Z.of_nat (seq 0 (1 + 2))) with (map Z.of_nat (seq 0 (Z.to_nat 3))) in H.
  destruct (attempt_loop env query data 3 ut enable sustain
              (map Z.of_nat (seq 0 (Z.to_nat 3))) [] (record_call query data w)) as [w1 r1].
  cbn [fst snd] in *. destruct H as (-> & Hc & Ha & Hf & Hh). intros Hdb.
  cbn [committed attempts hashes csv_files _db_name with_conn record_call] in *.
  assert (Hc' : committed w1 = (committed w ++ [(query, data)])%list).
  { rewrite Hc. now destruct ut. }
  rewrite Hc', Ha. repeat split; try assumption. lia.
Qed.

Lemma safe_execute_refused_thrice query data ut w :
  (forall k, (k < 3)%nat -> execute_ok env (attempts w + k) = false) ->
  let r := safe_execute env query data 3 ut false false w in
  snd r = Raised RuntimeError
  /\ committed (fst r) = committed w
  /\ same_overflow w (fst r).
Proof.
  intros Hfail. cbv zeta.
  destruct (safe_execute_frame env query data 3 ut false false w) as (Hdb & _).
  cbv zeta in Hdb. revert Hdb. unfold safe_execute, range.
  change (Z.to_nat 3) with 3%nat.
  rewrite (attempt_loop_exhausted env query data 3 ut false false 2 0 []
             (record_call query data w) eq_refl (or_intror (database_opens _)) Hfail).
  unfold on_final_failure. rewrite andb_false_r.
  destruct (after_attempts_fields 3 (record_call query data w)) as (_ & _ & Hh & Hf & Hc).
  cbv zeta in *. cbn [fst snd]. intros Hdb.
  cbn [committed hashes csv_files _db_name with_conn record_call] in *.
  unfold same_overflow. cbn [committed hashes csv_files _db_name with_conn].
  rewrite Hc, Hh, Hf. auto.
Qed.

(** The rows of a file up to the first one that the driver refuses. *)
Lemma replay_rows_until_refused query done bad rest :
  forall w,
    (forall i, (i < length done)%nat -> execute_ok env (attempts w + i) = true) ->
    (forall k, (k < 3)%nat -> execute_ok env (attempts w + length done + k) = false) ->
    let r := replay_rows env csv_cells query (done ++ bad :: rest)%list w in
    snd r = Raised RuntimeError
    /\ committed (fst r)
       = (committed w
            ++ map (fun row => (query, PTuple (map PStr (csv_cells row)))) done)%list
    /\ same_overflow w (fst r).
Proof.
  induction done as [|row done IH]; intros w Hok Hfail; cbv zeta.
  - simpl. simpl in Hfail.
    assert (Hfail' : forall k, (k < 3)%nat -> execute_ok env (attempts w + k) = false).
    { intros k Hk. specialize (Hfail k Hk). now rewrite Nat.add_0_r in Hfail. }
    destruct (safe_execute_refused_thrice query (PTuple (map PStr (csv_cells bad))) true w Hfail')
      as (Hout & Hc & Hsame).
    cbv zeta in *. destruct (safe_execute env query _ 3 true false false w) as [w1 r1].
    simpl in *. subst r1. simpl. rewrite app_nil_r. auto.
  - simpl.
    pose proof (Hok 0%nat ltac:(simpl; lia)) as H0. rewrite Nat.add_0_r in H0.
    destruct (safe_execute_accepted_at_once query (PTuple (map PStr (csv_cells row)))
                true false false w H0 (bindable_cells _)) as (Hout & Hc & Ha & Hsame).
    cbv zeta in *. destruct (safe_execute env query _ 3 true false false w) as [w1 r1].
    simpl in Hout, Hc, Ha, Hsame. subst r1.
    destruct (IH w1) as (Hout' & Hc' & Hsame').
    + intros i Hi. rewrite Ha. replace (S (attempts w) + i)%nat with (attempts w + S i)%nat by lia.
      apply Hok. simpl. lia.
    + intros k Hk. rewrite Ha.
      replace (S (attempts w) + length done + k)%nat
        with (attempts w + length (row :: done) + k)%nat by (simpl; lia).
      now apply Hfail.
    + cbv zeta in *. split; [exact Hout'|]. split.
      * rewrite Hc', Hc, <- app_assoc. reflexivity.
      * eapply same_overflow_trans; eassumption.
Qed.

(** X11.  When the driver refuses a row of an overflow file, the rows
    before it stay committed, the remaining rows are not tried, and the
    file is kept as it is, also with [delete_dumps]: the next
    reconciliation replays the rows before it once more. *)
Theorem replay_file_refused_row_keeps_file query delete_dumps w csv_file done bad rest :
  str_contains ("_" +:+ _db_name w +:+ "_") csv_file = true ->
  csv_files w !! csv_file = Some (done ++ bad :: rest)%list ->
  (forall i, (i < length done)%nat -> execute_ok env (attempts w + i) = true) ->
  (forall k, (k < 3)%nat -> execute_ok env (attempts w + length done + k) = false) ->
  let w' := replay_file env csv_cells query delete_dumps w csv_file in
  committed w'
  = (committed w ++ map (fun row => (query, PTuple (map PStr (csv_cells row)))) done)%list
  /\ csv_files w' = csv_files w
  /\ _db_name w' = _db_name w.
Proof.
  intros Hmatch Hfile Hok Hfail. cbv zeta. unfold replay_file. rewrite Hmatch, Hfile.
  destruct (replay_rows_until_refused query done bad rest w Hok Hfail)
    as (Hout & Hc & Hdb & _ & Hf).
  cbv zeta in *. destruct (replay_rows env csv_cells query _ w) as [w1 r1].
  simpl in *. subst r1. auto.
Qed.

Section Accepting.
Hypothesis driver_accepts : forall n, execute_ok env n = true.

Lemma replay_rows_accepted query rows :
  forall w,
    let r := replay_rows env csv_cells query rows w in
    snd r = Returned
    /\ committed (fst r)
       = (committed w
            ++ map (fun row => (query, PTuple (map PStr (csv_cells row)))) rows)%list
    /\ same_overflow w (fst r).
Proof.
  induction rows as [|row rows IH]; intros w; cbv zeta.
  - simpl. rewrite app_nil_r. repeat split.
  - simpl.
    destruct (safe_execute_accepted_at_once query (PTuple (map PStr (csv_cells row)))
                true false false w (driver_accepts _) (bindable_cells _))
      as (Hout & Hc & _ & Hsame).
    cbv zeta in *. destruct (safe_execute env query _ 3 true false false w) as [w1 r1].
    simpl in Hout, Hc, Hsame. subst r1.
    destruct (IH w1) as (Hout' & Hc' & Hsame'). cbv zeta in *.
    split; [exact Hout'|]. split.
    + rewrite Hc', Hc, <- app_assoc. reflexivity.
    + eapply same_overflow_trans; eassumption.
Qed.

Lemma replay_file_accepted query delete_dumps w csv_file :
  let w' := replay_file env csv_cells query delete_dumps w csv_file in
  committed w' = (committed w ++ replayed csv_cells query w csv_file)%list
  /\ _db_name w' = _db_name w
  /\ csv_files w'
     = if delete_dumps then without_replayed (_db_name w) [csv_file] (csv_files w)
       else csv_files w.
Proof.
  cbv zeta. unfold replay_file, replayed, without_replayed. simpl.
  destruct (str_contains _ csv_file).
  2: { rewrite app_nil_r. now destruct delete_dumps. }
  destruct (csv_files w !! csv_file) as [rows|] eqn:Hfile.
  2: { simpl. rewrite app_nil_r. split; [reflexivity|]. split; [reflexivity|].
       destruct delete_dumps; [|reflexivity]. now rewrite delete_id. }
  destruct (replay_rows_accepted query rows w) as (Hout & Hc & Hdb & _ & Hf).
  cbv zeta in *. destruct (replay_rows env csv_cells query rows w) as [w1 r1].
  simpl in *. subst r1. destruct delete_dumps; simpl; rewrite ?Hf; auto.
Qed.

Lemma replay_files_accepted query delete_dumps files :
  forall w,
    List.NoDup files ->
    let w' := fold_left (replay_file env csv_cells query delete_dumps) files w in
    committed w' = (committed w ++ flat_map (replayed csv_cells query w) files)%list
    /\ csv_files w'
       = if delete_dumps then without_replayed (_db_name w) files (csv_files w)
         else csv_files w.
Proof.
  induction files as [|f files IH]; intros w Hnd; cbv zeta.
  - simpl. rewrite app_nil_r. now destruct delete_dumps.
  - inversion Hnd as [|? ? Hnotin Hnd']; subst. simpl fold_left.
    destruct (replay_file_accepted query delete_dumps w f) as (Hc & Hdb & Hf).
    destruct (IH (replay_file env csv_cells query delete_dumps w f) Hnd') as (Hc' & Hf').
    cbv zeta in *. rewrite Hc', Hc, Hf', Hdb, Hf. clear Hc' Hf'. simpl flat_map.
    rewrite <- app_assoc. split.
    + f_equal. f_equal.
      assert (Hext : forall l, ~ In f l ->
                flat_map (replayed csv_cells query
                            (replay_file env csv_cells query delete_dumps w f)) l
                = flat_map (replayed csv_cells query w) l).
      { induction l as [|g l IHl]; intros Hl; simpl; [reflexivity|].
        rewrite IHl by (intros Hin; apply Hl; now right). f_equal.
        unfold replayed. rewrite Hdb, Hf.
        destruct (str_contains _ g); [|reflexivity].
        destruct delete_dumps; [|reflexivity].
        unfold without_replayed. simpl.
        destruct (str_contains _ f); [|reflexivity].
        rewrite lookup_delete_ne; [reflexivity|]. intros ->. apply Hl. now left. }
      now apply Hext.
    + destruct delete_dumps; reflexivity.
Qed.

(** X12.  On a database that can be opened and that accepts every
    statement, with the table given, its columns read and the folder
    listed without repetition, [gather_dump_data] returns after having
    committed, behind the query for the columns, one [INSERT] for each
    row of each listed file that it replays, in the order of the listing
    and of the rows; with [delete_dumps] these files are removed, and
    otherwise the folder is what it was. *)
Theorem gather_dump_data_replays_once table found columns dumps_folder files
    delete_dumps w :
  table <> "" ->
  column_names true (result_rows (attempts w)) = inr found ->
  strings_of found = Some columns ->
  is_valid_directory_path dumps_folder = true ->
  list_csv_files dumps_folder = inr files ->
  List.NoDup files ->
  let r := gather_dump_data env result_rows is_valid_directory_path list_csv_files
             csv_cells py_str (Some table) dumps_folder delete_dumps w in
  snd r = None
  /\ committed (fst r)
     = (committed w
          ++ ("PRAGMA table_info(" +:+ table +:+ ")", PNone)
          :: flat_map (replayed csv_cells (replay_query table columns) w) files)%list
  /\ csv_files (fst r)
     = if delete_dumps then without_replayed (_db_name w) files (csv_files w)
       else csv_files w.
Proof.
  intros Htable Hcolumns Hnames Hvalid Hlist Hnd. cbv zeta.
  unfold gather_dump_data, resolve_table.
  destruct table as [|a t]; [contradiction|].
  unfold get_column_names, fetch_all, execute_query.
  rewrite database_opens, andb_false_r. cbn [attempts with_conn].
  rewrite driver_accepts. change (true && bindable PNone)%bool with true. cbv iota.
  rewrite Hcolumns, Hnames, Hvalid, Hlist. simpl negb. cbv iota.
  fold (replay_query (String a t) columns).
  set (w2 := tick (commit ("PRAGMA table_info(" +:+ String a t +:+ ")") PNone
                     (with_conn true w))).
  destruct (replay_files_accepted (replay_query (String a t) columns)
              delete_dumps files w2 Hnd) as (Hc & Hf).
  cbv zeta in *. simpl fst. simpl snd. rewrite Hc, Hf. subst w2. simpl.
  rewrite <- app_assoc. auto.
Qed.
End Accepting.
End Replaying.

(** ** Strings, S3 paths and the names of the overflow files *)

Section Names.
Import S3Validator.

Lemma string_app_assoc (a b c : string) : (a +:+ b) +:+ c = a +:+ (b +:+ c).
Proof.
  induction a as [|x a IH]; [reflexivity|].
  change (String x ((a +:+ b) +:+ c) = String x (a +:+ (b +:+ c))). now rewrite IH.
Qed.

Lemma startswith_app (p s : string) : startswith p (p +:+ s) = true.
Proof.
  induction p as [|x p IH]; [reflexivity|].
  change (startswith (String x p) (String x (p +:+ s)) = true).
  simpl. now rewrite Ascii.eqb_refl.
Qed.

Lemma str_contains_unfold (needle s : string) :
  str_contains needle s
  = (startswith needle s
     || match s with EmptyString => false | String _ s' => str_contains needle s' end)%bool.
Proof. now destruct s. Qed.

Lemma str_contains_after (needle a s : string) :
  str_contains needle s = true -> str_contains needle (a +:+ s) = true.
Proof.
  intros H. induction a as [|x a IH]; [exact H|].
  change (str_contains needle (String x (a +:+ s)) = true).
  rewrite str_contains_unfold, IH. apply orb_true_r.
Qed.

Lemma str_contains_middle (needle a b : string) :
  str_contains needle (a +:+ needle +:+ b) = true.
Proof.
  apply str_contains_after. rewrite str_contains_unfold, startswith_app. reflexivity.
Qed.

Lemma path_join_ends (a b : string) : exists pre, path_join a b = pre +:+ b.
Proof.
  unfold path_join. destruct (startswith "/" b); [now exists ""|].
  destruct (_ || _)%bool; [now exists a|].
  exists (a +:+ "/"). now rewrite string_app_assoc.
Qed.

Lemma strip_prefix_app (p s : string) : strip_prefix p (p +:+ s) = Some s.
Proof.
  induction p as [|x p IH]; [reflexivity|].
  change (strip_prefix (String x p) (String x (p +:+ s)) = Some s).
  simpl. now rewrite Ascii.eqb_refl.
Qed.

Lemma strip_prefix_Some (p s r : string) : strip_prefix p s = Some r -> s = p +:+ r.
Proof.
  revert s. induction p as [|x p IH]; intros s; simpl.
  - now intros [= ->].
  - destruct s as [|y s]; [discriminate|].
    destruct (Ascii.eqb_spec x y) as [->|]; [|discriminate].
    intros H. change (String y s = String y (p +:+ r)). now rewrite (IH s H).
Qed.

Lemma span_until_free (c : ascii) (h : string) :
  free_of c h = true ->
  span_until c h = (h, "") /\ forall t, span_until c (h +:+ String c t) = (h, String c t).
Proof.
  induction h as [|x h IH]; intros Hfree.
  - split; [reflexivity|]. intros t. change (span_until c (String c t) = ("", String c t)).
    simpl. now rewrite Ascii.eqb_refl.
  - unfold free_of in Hfree. simpl in Hfree.
    apply andb_prop in Hfree as [Hx Hfree]. apply negb_true_iff in Hx.
    destruct (IH Hfree) as [Hend Hmid]. split.
    + simpl. now rewrite Hx, Hend.
    + intros t.
      change (span_until c (String x (h +:+ String c t)) = (String x h, String c t)).
      simpl. now rewrite Hx, Hmid.
Qed.

Lemma span_until_spec (c : ascii) (s : string) :
  s = fst (span_until c s) +:+ snd (span_until c s)
  /\ free_of c (fst (span_until c s)) = true
  /\ (snd (span_until c s) = "" \/ exists t, snd (span_until c s) = String c t).
Proof.
  induction s as [|x s IH]; simpl; [auto|].
  destruct (Ascii.eqb_spec x c) as [->|Hne]; simpl.
  - split; [reflexivity|]. split; [reflexivity|]. right. eauto.
  - destruct (span_until c s) as [h t]. simpl in *.
    destruct IH as (Heq & Hfree & Hrest).
    split; [change (String x s = String x (h +:+ t)); now rewrite <- Heq|].
    split; [|exact Hrest]. unfold free_of in *. simpl. rewrite Hfree.
    destruct (Ascii.eqb_spec x c); [contradiction | reflexivity].
Qed.

(** X13.  [_parse_s3_path] undoes the writing of an S3 path: from
    [s3://], a bucket that is not empty and has no [/], a [/] and a key
    on one line, it returns that bucket and that key; without the [/] and
    the key it returns the bucket and the empty key. *)
Theorem parse_s3_path_round_trip (bucket key : string) :
  bucket <> "" ->
  free_of "/" bucket = true ->
  free_of newline key = true ->
  _parse_s3_path ("s3://" +:+ bucket +:+ "/" +:+ key) = (Some bucket, Some key)
  /\ _parse_s3_path ("s3://" +:+ bucket) = (Some bucket, Some "").
Proof.
  intros Hne Hbucket Hkey. unfold _parse_s3_path.
  rewrite !strip_prefix_app.
  destruct (span_until_free "/" bucket Hbucket) as [Hend Hmid].
  destruct (span_until_free newline key Hkey) as [Hkey' _].
  change (bucket +:+ "/" +:+ key) with (bucket +:+ String "/" key).
  rewrite Hmid, Hend.
  destruct (String.eqb_spec bucket "") as [|_]; [contradiction|].
  now rewrite Hkey'.
Qed.

(** X14.  [_parse_s3_path] returns a bucket and a key, or neither.  A
    bucket returned is not empty, has no [/] and follows [s3://] in the
    path; the key is on one line.  Neither is returned exactly when the
    path does not start with [s3://] and a character other than [/]. *)
Theorem parse_s3_path_result (s3_path : string) :
  match _parse_s3_path s3_path with
  | (Some bucket, Some key) =>
      bucket <> "" /\ free_of "/" bucket = true /\ free_of newline key = true
      /\ startswith ("s3://" +:+ bucket) s3_path = true
  | (None, None) =>
      forall a rest, s3_path = "s3://" +:+ String a rest -> a = "/"%char
  | _ => False
  end.
Proof.
  unfold _parse_s3_path.
  destruct (strip_prefix "s3://" s3_path) as [rest|] eqn:Hprefix.
  - apply strip_prefix_Some in Hprefix. subst s3_path.
    destruct (span_until_spec "/" rest) as (Heq & Hfree & Hafter).
    destruct (span_until "/" rest) as [bucket after]. simpl in *.
    destruct (String.eqb_spec bucket "") as [->|Hne].
    + intros a rest' Hpath.
      apply (f_equal (strip_prefix "s3://")) in Hpath.
      rewrite !strip_prefix_app in Hpath. injection Hpath as Hrest.
      rewrite Heq in Hrest. simpl in Hrest.
      destruct Hafter as [->|[t ->]]; [discriminate|]. now injection Hrest as <- _.
    + split; [exact Hne|]. split; [exact Hfree|].
      destruct (span_until_spec newline
                  match after with String _ t => t | EmptyString => "" end)
        as (_ & Hline & _).
      split; [exact Hline|].
      rewrite Heq, <- string_app_assoc. apply startswith_app.
  - intros a rest Hpath. subst s3_path.
    change ("s3://" +:+ String a rest) with ("s3://" +:+ (String a rest)) in Hprefix.
    rewrite strip_prefix_app in Hprefix. discriminate.
Qed.

Lemma last_char_app_single (s : string) (c : ascii) :
  last_char (s +:+ String c "") = Some c
  /\ drop_last (s +:+ String c "") = s.
Proof.
  induction s as [|x s [IH1 IH2]]; [split; reflexivity|].
  change (last_char (String x (s +:+ String c "")) = Some c
          /\ drop_last (String x (s +:+ String c "")) = String x s).
  destruct (s +:+ String c "") as [|y t] eqn:E.
  - destruct s; discriminate.
  - simpl. simpl in IH1, IH2. rewrite IH1, IH2. auto.
Qed.

Lemma bucket_chars_on_one_line (s : string) :
  string_forallb bucket_char s = true -> free_of newline s = true.
Proof.
  unfold free_of. induction s as [|x s IH]; simpl; [reflexivity|].
  intros H. apply andb_prop in H as [Hx H]. rewrite (IH H), andb_true_r.
  destruct (Ascii.eqb_spec x newline) as [->|]; [discriminate | reflexivity].
Qed.

(** X15.  A name that [is_valid_s3_bucket_name] accepts and that does
    not itself end in a newline is accepted also with one newline put
    after it: the end-of-string anchor of the pattern matches before a
    newline that ends the string. *)
Theorem bucket_name_accepted_with_final_newline (name : string) :
  is_valid_s3_bucket_name name = true ->
  last_char name <> Some newline ->
  is_valid_s3_bucket_name (name +:+ String newline "") = true.
Proof.
  unfold is_valid_s3_bucket_name. intros Hvalid Hlast.
  assert (Hbody : before_final_newline name = name).
  { unfold before_final_newline. destruct (last_char name) as [a|]; [|reflexivity].
    destruct (Ascii.eqb_spec a newline) as [->|]; [contradiction | reflexivity]. }
  rewrite Hbody in Hvalid.
  destruct (last_char_app_single name newline) as [Hl Hd].
  assert (Hbody' : before_final_newline (name +:+ String newline "") = name).
  { unfold before_final_newline. now rewrite Hl, Ascii.eqb_refl. }
  rewrite Hbody'.
  apply andb_prop in Hvalid as [Hvalid H6]. apply andb_prop in Hvalid as [Hvalid H5].
  apply andb_prop in Hvalid as [Hvalid H4]. apply andb_prop in Hvalid as [Hvalid H3].
  apply andb_prop in Hvalid as [H1 H2].
  destruct (span_until_free newline name (bucket_chars_on_one_line name H3)) as [Hend Hmid].
  rewrite Hend in H2. rewrite Hmid. simpl fst in *.
  rewrite H2, H3, H4, H5, H6.
  assert (Hstart : startswith "-" (name +:+ String newline "") = startswith "-" name).
  { destruct name as [|x name]; [discriminate | reflexivity]. }
  now rewrite Hstart, H1.
Qed.

Lemma underscored_app (name rest : string) :
  "_" +:+ name +:+ "_" +:+ rest = ("_" +:+ name +:+ "_") +:+ rest.
Proof. now rewrite !string_app_assoc. Qed.

(** X16.  The overflow file that [dump_to_csv] names for a database has
    a path that [gather_dump_data] of this database replays; so has the
    overflow file of any database whose name is this name followed by an
    underscore and anything, or anything and an underscore followed by
    this name: its rows are replayed into this database as well. *)
Theorem overflow_file_names_match (env : DatabaseManipulator.Env) (db_name : string) (h : nat) :
  str_contains ("_" +:+ db_name +:+ "_") (DatabaseManipulator.artifact env db_name h) = true
  /\ forall other,
       str_contains ("_" +:+ db_name +:+ "_")
         (DatabaseManipulator.artifact env (db_name +:+ "_" +:+ other) h) = true
       /\ str_contains ("_" +:+ db_name +:+ "_")
            (DatabaseManipulator.artifact env (other +:+ "_" +:+ db_name) h) = true.
Proof.
  unfold DatabaseManipulator.artifact. split; [|intros other; split].
  - destruct (path_join_ends (DatabaseManipulator.destination_folder env)
                ("emergency_dump_" +:+ db_name +:+ "_"
                   +:+ DatabaseManipulator.get_numeric_hash env h +:+ ".csv")) as [pre ->].
    apply str_contains_after.
    change ("emergency_dump_" +:+ db_name +:+ "_"
              +:+ DatabaseManipulator.get_numeric_hash env h +:+ ".csv")
      with ("emergency_dump" +:+ "_" +:+ db_name +:+ "_"
              +:+ DatabaseManipulator.get_numeric_hash env h +:+ ".csv").
    rewrite underscored_app. apply str_contains_middle.
  - destruct (path_join_ends (DatabaseManipulator.destination_folder env)
                ("emergency_dump_" +:+ (db_name +:+ "_" +:+ other) +:+ "_"
                   +:+ DatabaseManipulator.get_numeric_hash env h +:+ ".csv")) as [pre ->].
    apply str_contains_after.
    change ("emergency_dump_" +:+ (db_name +:+ "_" +:+ other) +:+ "_"
              +:+ DatabaseManipulator.get_numeric_hash env h +:+ ".csv")
      with ("emergency_dump" +:+ "_" +:+ (db_name +:+ "_" +:+ other) +:+ "_"
              +:+ DatabaseManipulator.get_numeric_hash env h +:+ ".csv").
    rewrite !string_app_assoc, underscored_app. apply str_contains_middle.
  - destruct (path_join_ends (DatabaseManipulator.destination_folder env)
                ("emergency_dump_" +:+ (other +:+ "_" +:+ db_name) +:+ "_"
                   +:+ DatabaseManipulator.get_numeric_hash env h +:+ ".csv")) as [pre ->].
    apply str_contains_after. rewrite !string_app_assoc.
    apply (str_contains_after _ "emergency_dump_").
    apply (str_contains_after _ other).
    rewrite underscored_app. apply (str_contains_middle _ "").
Qed.
End Names.

(** ** The planner as a function of the records *)

Section Planned.
Import Orchestrator.
Variable writable : string -> bool.

Lemma chunks_upto_fuel {A : Type} (n : nat) :
  (0 < n)%nat ->
  forall fuel1 fuel2 (l : list A),
    (length l <= fuel1)%nat -> (length l <= fuel2)%nat ->
    chunks_upto fuel1 n l = chunks_upto fuel2 n l.
Proof.
  intros Hn. induction fuel1 as [|fuel1 IH]; intros fuel2 l H1 H2.
  - destruct l; [|simpl in H1; lia]. now destruct fuel2.
  - destruct l as [|x l]; [now destruct fuel2|].
    destruct fuel2 as [|fuel2]; [simpl in H2; lia|].
    simpl chunks_upto. f_equal.
    assert (Hlen : (length (skipn n (x :: l)) <= length l)%nat).
    { rewrite length_skipn. simpl. lia. }
    simpl in H1, H2. apply IH; lia.
Qed.

Lemma chunks_app_full {A : Type} (n : nat) (a l : list A) :
  (0 < n)%nat -> length a = n -> chunks n (a ++ l)%list = a :: chunks n l.
Proof.
  intros Hn Ha. unfold chunks.
  destruct (a ++ l)%list as [|x t] eqn:E.
  { destruct a; [simpl in Ha; lia | discriminate]. }
  rewrite <- E. rewrite E at 1. simpl length. rewrite E.
  cbn [chunks_upto]. rewrite <- E.
  assert (Hfirst : firstn n (a ++ l)%list = a).
  { rewrite <- Ha. rewrite firstn_app, Nat.sub_diag, firstn_all. simpl. apply app_nil_r. }
  assert (Hskip : skipn n (a ++ l)%list = l).
  { rewrite <- Ha. rewrite skipn_app, Nat.sub_diag, skipn_all. reflexivity. }
  rewrite Hfirst, Hskip. f_equal.
  apply chunks_upto_fuel; [exact Hn | | lia].
  apply (f_equal (@length A)) in E. rewrite length_app in E. simpl in E. lia.
Qed.

Lemma chunks_short {A : Type} (n : nat) (l : list A) :
  l <> [] -> (length l <= n)%nat -> chunks n l = [l].
Proof.
  intros Hne Hlen. unfold chunks. destruct l as [|x l]; [contradiction|].
  simpl length. cbn [chunks_upto].
  rewrite firstn_all2 by exact Hlen. rewrite skipn_all2 by exact Hlen.
  now destruct (length l).
Qed.

(** The inner loop cuts the entries gathered so far and the entries to
    come every [n] entries; what it keeps in hand is the piece that is
    not full yet. *)
Lemma scan_status_chunks (d : string) (items : dict Z) :
  forall (batch : list string) (batch_status : dict Z) (o : Orch),
    0 < self_batch_size o ->
    List.NoDup (dict_keys (batch_status ++ items)%list) ->
    batch = dict_keys batch_status ->
    Z.of_nat (length batch_status) < self_batch_size o ->
    exists full,
      let r := scan_status writable d items batch batch_status o in
      self_task_queue (snd r)
      = (self_task_queue o ++ map (fun c => Some (mkTask d (dict_keys c) c)) full)%list
      /\ self_batch_size (snd r) = self_batch_size o
      /\ tasks (self_checkpoint_data (snd r)) = tasks (self_checkpoint_data o)
      /\ fst (fst r) = dict_keys (snd (fst r))
      /\ chunks (Z.to_nat (self_batch_size o)) (batch_status ++ incomplete items)%list
         = (full ++ match snd (fst r) with [] => [] | _ :: _ => [snd (fst r)] end)%list.
Proof.
  induction items as [|[file p] rest IH]; intros batch bst o Hpos Hnd Hbatch Hlen.
  - exists []. simpl. rewrite !app_nil_r. repeat split; try assumption.
    destruct bst as [|e bst]; [reflexivity|].
    apply chunks_short; [discriminate | lia].
  - destruct (NoDup_keys_app_cons _ _ _ _ Hnd) as (Hfresh & Hskip & Hkeep & Hrest).
    simpl scan_status. simpl incomplete.
    destruct (p =? -1) eqn:Hp; simpl negb; cbv iota.
    + apply IH; assumption.
    + rewrite (dict_set_fresh _ _ _ Hfresh).
      assert (Hkeys : (batch ++ [file])%list = dict_keys (bst ++ [(file, p)])%list).
      { subst batch. unfold dict_keys. now rewrite map_app. }
      assert (Hsize : length (batch ++ [file])%list = S (length bst)).
      { subst batch. unfold dict_keys. rewrite length_app, length_map. simpl. lia. }
      assert (Hsize' : length (bst ++ [(file, p)])%list = S (length bst)).
      { rewrite length_app. simpl. lia. }
      destruct (Z.of_nat (length (batch ++ [file])%list) >=? self_batch_size o) eqn:Hfull.
      * destruct (_queue_batch_effect writable
                    (mkTask d (batch ++ [file])%list (bst ++ [(file, p)])%list) o)
          as (Hq & Hbs & Hts).
        destruct (IH [] [] (_queue_batch writable
                              (mkTask d (batch ++ [file])%list (bst ++ [(file, p)])%list) o))
          as (full & Hq' & Hbs' & Hts' & Hk & Hchunks).
        { cbv zeta in Hbs. rewrite Hbs. exact Hpos. }
        { exact Hrest. }
        { reflexivity. }
        { cbv zeta in Hbs. rewrite Hbs. simpl. lia. }
        exists ((bst ++ [(file, p)])%list :: full).
        cbv zeta in *. rewrite Hq', Hbs', Hts', Hq, Hbs, Hts. rewrite Hbs in Hchunks.
        split; [simpl; rewrite <- app_assoc, Hkeys; reflexivity|].
        split; [reflexivity|]. split; [reflexivity|]. split; [exact Hk|].
        simpl in Hchunks. simpl. rewrite <- Hchunks.
        change (bst ++ (file, p) :: incomplete rest)%list
          with (bst ++ [(file, p)] ++ incomplete rest)%list.
        rewrite app_assoc. apply chunks_app_full; lia.
      * destruct (IH (batch ++ [file])%list (bst ++ [(file, p)])%list o)
          as (full & Hq' & Hbs' & Hts' & Hk & Hchunks).
        { exact Hpos. }
        { exact Hkeep. }
        { exact Hkeys. }
        { lia. }
        exists full. cbv zeta in *.
        repeat (split; [assumption|]).
        rewrite <- Hchunks, <- app_assoc. reflexivity.
Qed.

(** One record: the batches queued are those of [plan_record]. *)
Lemma manage_task_planned (o : Orch) (t : TaskRecord) :
  0 < self_batch_size o ->
  List.NoDup (dict_keys (status t)) ->
  self_task_queue (manage_task writable o t)
  = (self_task_queue o ++ map Some (plan_record (self_batch_size o) t))%list
  /\ self_batch_size (manage_task writable o t) = self_batch_size o
  /\ tasks (self_checkpoint_data (manage_task writable o t)) = tasks (self_checkpoint_data o).
Proof.
  intros Hpos Hnd. unfold manage_task, plan_record.
  destruct (String.eqb (directory t) "").
  { simpl. rewrite app_nil_r. auto. }
  fold (done t). destruct (done t) eqn:Hdone.
  { rewrite (incomplete_done _ Hdone). simpl. rewrite app_nil_r. auto. }
  destruct (scan_status_chunks (directory t) (status t) [] [] o Hpos Hnd eq_refl)
    as (full & Hq & Hbs & Hts & Hk & Hchunks); [simpl; lia|].
  cbv zeta in *. simpl app in Hchunks.
  destruct (scan_status writable (directory t) (status t) [] [] o) as [[batch bst] o1].
  simpl in Hq, Hbs, Hts, Hk, Hchunks. rewrite Hchunks, map_map.
  destruct batch as [|file batch].
  - destruct bst; [|discriminate]. rewrite app_nil_r. auto.
  - destruct bst as [|e bst]; [discriminate|].
    destruct (_queue_batch_effect writable (mkTask (directory t) (file :: batch) (e :: bst)) o1)
      as (Hq1 & Hbs1 & Hts1).
    cbv zeta in *. rewrite Hq1, Hbs1, Hts1, Hq, Hbs, Hts.
    rewrite map_app, <- app_assoc. simpl. rewrite Hk. auto.
Qed.

Lemma manage_tasks_planned (ts : list TaskRecord) :
  forall o,
    0 < self_batch_size o ->
    Forall (fun t => List.NoDup (dict_keys (status t))) ts ->
    self_task_queue (fold_left (manage_task writable) ts o)
    = (self_task_queue o ++ map Some (planned (self_batch_size o) ts))%list
    /\ self_batch_size (fold_left (manage_task writable) ts o) = self_batch_size o
    /\ tasks (self_checkpoint_data (fold_left (manage_task writable) ts o))
       = tasks (self_checkpoint_data o).
Proof.
  induction ts as [|t ts IH]; intros o Hpos Hnd.
  - simpl. rewrite app_nil_r. auto.
  - inversion Hnd as [|? ? Ht Hts]; subst. simpl fold_left.
    destruct (manage_task_planned o t Hpos Ht) as (Hq & Hbs & Htasks).
    destruct (IH (manage_task writable o t)) as (Hq' & Hbs' & Htasks');
      [rewrite Hbs; exact Hpos | exact Hts |].
    rewrite Hq', Hbs', Htasks', Hq, Hbs, Htasks. unfold planned. simpl flat_map.
    rewrite map_app, <- app_assoc. auto.
Qed.

(** X17.  For a positive batch size and status maps with distinct keys,
    what [_manage_tasks] puts on the queue is a function of the records
    and of the batch size alone: record after record, the entries that
    are not at [-1] cut every [batch_size] entries, none for a record
    without a directory.  The records and the batch size are left as they
    were. *)
Theorem manage_tasks_queues_planned (o : Orch) :
  0 < self_batch_size o ->
  Forall (fun t => List.NoDup (dict_keys (status t))) (tasks (self_checkpoint_data o)) ->
  let o' := _manage_tasks writable o in
  self_task_queue o'
  = (self_task_queue o
       ++ map Some (planned (self_batch_size o) (tasks (self_checkpoint_data o))))%list
  /\ self_batch_size o' = self_batch_size o
  /\ tasks (self_checkpoint_data o') = tasks (self_checkpoint_data o).
Proof.
  intros Hpos Hnd. cbv zeta. unfold _manage_tasks. now apply manage_tasks_planned.
Qed.

(** X18.  Planning takes no note of what it has queued: a second run of
    [_manage_tasks], before any worker has reported, queues every batch
    of the first run once more. *)
Theorem manage_tasks_twice_queues_twice (o : Orch) :
  0 < self_batch_size o ->
  Forall (fun t => List.NoDup (dict_keys (status t))) (tasks (self_checkpoint_data o)) ->
  let batches := map Some (planned (self_batch_size o) (tasks (self_checkpoint_data o))) in
  self_task_queue (_manage_tasks writable (_manage_tasks writable o))
  = (self_task_queue o ++ batches ++ batches)%list.
Proof.
  intros Hpos Hnd. cbv zeta. unfold _manage_tasks at 1.
  destruct (manage_tasks_planned (tasks (self_checkpoint_data o)) o Hpos Hnd)
    as (Hq & Hbs & Hts).
  fold (_manage_tasks writable o) in Hq, Hbs, Hts.
  destruct (manage_tasks_planned (tasks (self_checkpoint_data (_manage_tasks writable o)))
              (_manage_tasks writable o)) as (Hq' & _).
  - rewrite Hbs. exact Hpos.
  - rewrite Hts. exact Hnd.
  - rewrite Hq', Hbs, Hts, Hq, <- app_assoc. reflexivity.
Qed.

(** X19.  When every record has a directory and all its files at [-1],
    [_manage_tasks] does nothing at all: nothing is queued, nothing is
    written, nothing is logged. *)
Theorem manage_tasks_finished_job (o : Orch) :
  Forall (fun t => directory t <> "" /\ done t = true) (tasks (self_checkpoint_data o)) ->
  _manage_tasks writable o = o.
Proof.
  unfold _manage_tasks. generalize (tasks (self_checkpoint_data o)) as ts.
  induction ts as [|t ts IH]; intros Hall; [reflexivity|].
  inversion Hall as [|? ? [Hdir Hdone] Hrest]; subst. simpl.
  assert (Hstep : manage_task writable o t = o).
  { unfold manage_task. destruct (String.eqb_spec (directory t) ""); [contradiction|].
    fold (done t). now rewrite Hdone. }
  rewrite Hstep. now apply IH.
Qed.
End Planned.

(** ** What a progress report changes *)

Section Tracking.
Import Orchestrator.
Variable writable : string -> bool.

Lemma map_insert_same {A B} (f : A -> B) (l : list A) (i : nat) (x y : A) :
  l !! i = Some x -> f y = f x -> map f (<[i := y]> l) = map f l.
Proof.
  revert i. induction l as [|h l IH]; intros [|i]; simpl; try discriminate.
  - intros [= ->] Hf. now rewrite Hf.
  - intros Hl Hf. f_equal. now apply IH.
Qed.

Lemma next_task_insert_other d d' k ts i t t' :
  next_task d k ts = Some (i, t) ->
  directory t' = d ->
  d' <> d ->
  next_task d' k (<[(i - k)%nat := t']> ts) = next_task d' k ts.
Proof.
  revert k. induction ts as [|h ts IH]; intros k; simpl; [discriminate|].
  destruct (String.eqb_spec (directory h) d) as [Hd|Hd].
  - intros [= <- <-] Ht' Hne. rewrite Nat.sub_diag. simpl.
    destruct (String.eqb_spec (directory t') d'); [congruence|].
    destruct (String.eqb_spec (directory h) d'); [congruence|]. reflexivity.
  - intros H Ht' Hne. destruct (next_task_found _ _ _ _ _ H) as (Hle & _ & _).
    replace (i - k)%nat with (S (i - S k)) by lia. simpl.
    destruct (String.eqb_spec (directory h) d'); [reflexivity|].
    now apply IH.
Qed.

(** The states that a report can lead to. *)
Lemma handle_worker_update_state (update_info : dict pyval) (o : Orch) :
  let o' := fst (handle_worker_update writable update_info o) in
  o' = o
  \/ (exists msg, o' = logging ERROR msg o)
  \/ (exists d f n, o' = _update_task_progress writable d f n o).
Proof.
  cbv zeta. unfold handle_worker_update, handle_worker_update_body.
  destruct (negb _); [now left|].
  destruct (dict_get "directory" update_info) as [vd|]; [|now left].
  destruct (dict_get "file" update_info) as [vf|]; [|now left].
  destruct (dict_get "status" update_info) as [vs|]; [|now left].
  destruct (as_str vd) as [d|]; [|right; left; eexists; reflexivity].
  destruct (as_str vf) as [f|]; [|right; left; eexists; reflexivity].
  destruct (as_int vs) as [n|]; [|right; left; eexists; reflexivity].
  right. right. now exists d, f, n.
Qed.

Lemma _update_task_progress_layout d f v o :
  let o' := _update_task_progress writable d f v o in
  layout (self_checkpoint_data o') = layout (self_checkpoint_data o)
  /\ self_task_queue o' = self_task_queue o.
Proof.
  cbv zeta.
  destruct (next_task d 0 (tasks (self_checkpoint_data o))) as [[i t]|] eqn:Hnext.
  - destruct (dict_mem f (status t)) eqn:Hmem.
    + rewrite (_update_task_progress_found writable _ _ _ _ _ _ Hnext Hmem).
      split.
      * unfold layout. cbn [tasks with_progress with_tasks].
        destruct (next_task_found _ _ _ _ _ Hnext) as (_ & Hl & _).
        rewrite Nat.sub_0_r in Hl.
        apply (map_insert_same _ _ _ t); [exact Hl|].
        cbn [directory status]. f_equal.
        apply dict_keys_set_known. now apply dict_mem_keys.
      * unfold _update_task_progress. rewrite Hnext, Hmem. simpl negb. cbv iota.
        destruct (_write_checkpoint_same_self writable
                    (with_checkpoint
                       (with_progress (dict_set f v (progress (self_checkpoint_data o)))
                          (with_tasks
                             (<[i := mkTaskRecord (directory t)
                                       (if forallb (fun s => s =? -1)
                                             (dict_values (dict_set f v (status t)))
                                        then set_all_done (dict_set f v (status t))
                                        else dict_set f v (status t))]>
                                (tasks (self_checkpoint_data o)))
                             (self_checkpoint_data o))) o))
          as (_ & _ & _ & _ & _ & Hq).
        exact Hq.
    + unfold _update_task_progress. rewrite Hnext, Hmem. simpl. auto.
  - unfold _update_task_progress. rewrite Hnext. simpl. auto.
Qed.

(** X20.  No report, well formed or not, adds or removes a record or a
    file, or touches the queue: after [handle_worker_update] the records
    name the same directories and list the same files in the same order,
    and the queue holds what it held. *)
Theorem worker_update_keeps_layout (update_info : dict pyval) (o : Orch) :
  let o' := fst (handle_worker_update writable update_info o) in
  layout (self_checkpoint_data o') = layout (self_checkpoint_data o)
  /\ self_task_queue o' = self_task_queue o.
Proof.
  cbv zeta.
  destruct (handle_worker_update_state update_info o) as [H|[[msg H]|(d & f & n & H)]];
    cbv zeta in H; rewrite H.
  - auto.
  - auto.
  - apply _update_task_progress_layout.
Qed.

(** X21.  A progress update is local: the status that the tracker sees
    for any other file, or under any other directory, is what it was, and
    so is the entry of any other file in [progress]. *)
Theorem update_touches_one_status (d f : string) (v : Z) (o : Orch) (d' g : string) :
  (d', g) <> (d, f) ->
  let o' := _update_task_progress writable d f v o in
  status_of d' g (self_checkpoint_data o') = status_of d' g (self_checkpoint_data o)
  /\ (g <> f ->
      dict_get g (progress (self_checkpoint_data o'))
      = dict_get g (progress (self_checkpoint_data o))).
Proof.
  intros Hother. cbv zeta.
  destruct (next_task d 0 (tasks (self_checkpoint_data o))) as [[i t]|] eqn:Hnext.
  - destruct (dict_mem f (status t)) eqn:Hmem.
    + rewrite (_update_task_progress_found writable _ _ _ _ _ _ Hnext Hmem).
      destruct (next_task_found _ _ _ _ _ Hnext) as (_ & _ & Hdir).
      split.
      * unfold status_of. cbn [tasks with_progress with_tasks].
        destruct (String.eqb_spec d' d) as [->|Hd].
        -- pose proof (next_task_insert d 0 _ i t
                         (mkTaskRecord (directory t) (dict_set f v (status t)))
                         Hnext Hdir) as Hins.
           rewrite Nat.sub_0_r in Hins. rewrite Hins, Hnext. cbn [status].
           apply dict_get_set_ne. congruence.
        -- pose proof (next_task_insert_other d d' 0 _ i t
                         (mkTaskRecord (directory t) (dict_set f v (status t)))
                         Hnext Hdir Hd) as Hins.
           rewrite Nat.sub_0_r in Hins. now rewrite Hins.
      * intros Hg. cbn [progress with_progress]. apply dict_get_set_ne. congruence.
    + unfold _update_task_progress. rewrite Hnext, Hmem. simpl. auto.
  - unfold _update_task_progress. rewrite Hnext. simpl. auto.
Qed.

Lemma dict_set_last_done (f : string) (st : dict Z) :
  List.NoDup (dict_keys st) ->
  (forall g s, In (g, s) st -> g <> f -> s = -1) ->
  forallb (fun s => s =? -1) (dict_values (dict_set f (-1) st)) = true.
Proof.
  induction st as [|[k s] st IH]; intros Hnd Hrest; simpl; [reflexivity|].
  inversion Hnd as [|? ? Hfresh Hnd']; subst.
  destruct (String.eqb_spec f k) as [->|Hne]; simpl.
  - apply forallb_forall. intros x Hx. apply in_map_iff in Hx as ([g s'] & <- & Hin).
    simpl. apply Z.eqb_eq. apply (Hrest g); [now right|].
    intros ->. apply Hfresh. change (In (fst (k, s')) (map fst st)). now apply in_map.
  - rewrite (Hrest k s); [|now left|congruence]. simpl.
    apply IH; [exact Hnd'|]. intros g s' Hin. apply Hrest. now right.
Qed.

(** X22.  The update that completes a record: when every other file of
    the record is at [-1], reporting [-1] for the last one leaves a record
    that is done, at the same place and with the same files, which the
    planner passes over when the directory has a name. *)
Theorem last_update_completes_record (d f : string) (o : Orch) (i : nat) (t : TaskRecord) :
  d <> "" ->
  next_task d 0 (tasks (self_checkpoint_data o)) = Some (i, t) ->
  List.NoDup (dict_keys (status t)) ->
  dict_mem f (status t) = true ->
  (forall g s, In (g, s) (status t) -> g <> f -> s = -1) ->
  let o' := _update_task_progress writable d f (-1) o in
  exists t',
    next_task d 0 (tasks (self_checkpoint_data o')) = Some (i, t')
    /\ done t' = true
    /\ dict_keys (status t') = dict_keys (status t)
    /\ manage_task writable o' t' = o'.
Proof.
  intros Hd Hnext Hnd Hmem Hrest. cbv zeta.
  destruct (next_task_found _ _ _ _ _ Hnext) as (_ & _ & Hdir).
  exists (mkTaskRecord (directory t) (dict_set f (-1) (status t))).
  assert (Hdone : done (mkTaskRecord (directory t) (dict_set f (-1) (status t))) = true).
  { unfold done. cbn [status]. now apply dict_set_last_done. }
  rewrite (_update_task_progress_found writable _ _ _ _ _ _ Hnext Hmem).
  split.
  { cbn [tasks with_progress with_tasks].
    pose proof (next_task_insert d 0 _ i t
                  (mkTaskRecord (directory t) (dict_set f (-1) (status t))) Hnext Hdir) as Hins.
    now rewrite Nat.sub_0_r in Hins. }
  split; [exact Hdone|].
  split; [cbn [status]; apply dict_keys_set_known; now apply dict_mem_keys|].
  unfold manage_task. cbn [directory].
  destruct (String.eqb_spec (directory t) ""); [congruence|].
  fold (done (mkTaskRecord (directory t) (dict_set f (-1) (status t)))).
  now rewrite Hdone.
Qed.
End Tracking.

(** ** What a load accepts, and what it reads *)

Section Loading.
Import Orchestrator.
Variable writable : string -> bool.

Lemma _validate_checkpoint_format_shape (data : pyval) (b : bool) :
  _validate_checkpoint_format data = inr b ->
  exists d name flags vb vm bs mw ts p,
    data = PDict d
    /\ dict_get "task_name" d = Some (PStr name)
    /\ dict_get "input_type_flags" d = Some (PTuple flags) /\ length flags = 4%nat
    /\ dict_get "batch_size" d = Some vb /\ as_int vb = Some bs /\ 0 < bs
    /\ dict_get "max_workers" d = Some vm /\ as_int vm = Some mw /\ 0 < mw
    /\ dict_get "tasks" d = Some (PList ts)
    /\ dict_get "progress" d = Some (PDict p).
Proof.
  destruct data as [| | | |l|l|d]; simpl; try discriminate;
    try (destruct (_ && _)%bool; discriminate).
  match goal with |- (if ?c then _ else _) = _ -> _ => destruct c; [discriminate|] end.
  destruct (dict_get "task_name" d) as [[| | |name| | |]|] eqn:H1; simpl; try discriminate.
  destruct (dict_get "input_type_flags" d) as [[| | | | |flags|]|] eqn:H2; simpl; try discriminate.
  destruct (length flags =? 4)%nat eqn:Hlen; simpl; [|discriminate].
  unfold positive_int.
  destruct (dict_get "batch_size" d) as [vb|] eqn:H3; simpl; [|discriminate].
  destruct (as_int vb) as [bs|] eqn:Hvb; simpl; [|discriminate].
  destruct (bs <=? 0) eqn:Hbs; simpl; [discriminate|].
  destruct (dict_get "max_workers" d) as [vm|] eqn:H4; simpl; [|discriminate].
  destruct (as_int vm) as [mw|] eqn:Hvm; simpl; [|discriminate].
  destruct (mw <=? 0) eqn:Hmw; simpl; [discriminate|].
  destruct (dict_get "tasks" d) as [[| | | |ts| |]|] eqn:H5; simpl; try discriminate.
  destruct (dict_get "progress" d) as [[| | | | | |p]|] eqn:H6; simpl; try discriminate.
  intros _. exists d, name, flags, vb, vm, bs, mw, ts, p.
  apply Nat.eqb_eq in Hlen. apply Z.leb_gt in Hbs. apply Z.leb_gt in Hmw.
  repeat split; auto.
Qed.

(** X23.  What a load lets through: the data that
    [_initialize_checkpoint] installs is a dictionary whose six keys hold
    a string, a tuple of four values, two positive integers, a list and a
    dictionary. *)
Theorem loaded_checkpoint_shape (force_restart : bool) (path : string)
    (files : gmap string json) (data : pyval) :
  _initialize_checkpoint force_restart path files = Loaded data ->
  exists d name flags vb vm bs mw ts p,
    data = PDict d
    /\ dict_get "task_name" d = Some (PStr name)
    /\ dict_get "input_type_flags" d = Some (PTuple flags) /\ length flags = 4%nat
    /\ dict_get "batch_size" d = Some vb /\ as_int vb = Some bs /\ 0 < bs
    /\ dict_get "max_workers" d = Some vm /\ as_int vm = Some mw /\ 0 < mw
    /\ dict_get "tasks" d = Some (PList ts)
    /\ dict_get "progress" d = Some (PDict p).
Proof.
  unfold _initialize_checkpoint.
  destruct (files !! path) as [document|]; [|destruct force_restart; discriminate].
  destruct (convert_flags (json_load document)) as [e|loaded].
  { destruct e, force_restart; discriminate. }
  destruct (_validate_checkpoint_format loaded) as [e|[|]] eqn:Hvalid.
  - destruct e, force_restart; discriminate.
  - intros [= <-]. exact (_validate_checkpoint_format_shape _ _ Hvalid).
  - destruct force_restart; discriminate.
Qed.

(** X24.  The check stops at that shape.  A document with the six keys,
    a name, four flags of any kind, positive sizes, and anything at all
    in its list of tasks and in its progress is loaded as it is, the
    flags as a tuple: no record is looked at. *)
Theorem checkpoint_contents_not_checked (force_restart : bool) (path : string)
    (files : gmap string json) (name : string) (flags ts : list json) (bs mw : Z)
    (p : list (string * json)) :
  length flags = 4%nat ->
  0 < bs ->
  0 < mw ->
  files !! path
  = Some (JObj [("task_name", JStr name); ("input_type_flags", JArr flags);
                ("batch_size", JNum bs); ("max_workers", JNum mw);
                ("tasks", JArr ts); ("progress", JObj p)]) ->
  _initialize_checkpoint force_restart path files
  = Loaded (PDict [("task_name", PStr name);
                   ("input_type_flags", PTuple (map json_load flags));
                   ("batch_size", PInt bs); ("max_workers", PInt mw);
                   ("tasks", PList (map json_load ts));
                   ("progress", json_load (JObj p))]).
Proof.
  intros Hlen Hbs Hmw Hfile. unfold _initialize_checkpoint. rewrite Hfile.
  assert (Hload : json_load
                    (JObj [("task_name", JStr name); ("input_type_flags", JArr flags);
                           ("batch_size", JNum bs); ("max_workers", JNum mw);
                           ("tasks", JArr ts); ("progress", JObj p)])
                  = PDict [("task_name", PStr name);
                           ("input_type_flags", PList (map json_load flags));
                           ("batch_size", PInt bs); ("max_workers", PInt mw);
                           ("tasks", PList (map json_load ts));
                           ("progress", json_load (JObj p))]) by reflexivity.
  rewrite Hload.
  assert (Hflags : convert_flags
                     (PDict [("task_name", PStr name);
                             ("input_type_flags", PList (map json_load flags));
                             ("batch_size", PInt bs); ("max_workers", PInt mw);
                             ("tasks", PList (map json_load ts));
                             ("progress", json_load (JObj p))])
                   = inr (PDict [("task_name", PStr name);
                                 ("input_type_flags", PTuple (map json_load flags));
                                 ("batch_size", PInt bs); ("max_workers", PInt mw);
                                 ("tasks", PList (map json_load ts));
                                 ("progress", json_load (JObj p))])) by reflexivity.
  rewrite Hflags.
  assert (Hvalid : _validate_checkpoint_format
                     (PDict [("task_name", PStr name);
                             ("input_type_flags", PTuple (map json_load flags));
                             ("batch_size", PInt bs); ("max_workers", PInt mw);
                             ("tasks", PList (map json_load ts));
                             ("progress", json_load (JObj p))]) = inr true).
  { change (_validate_checkpoint_format
              (PDict [("task_name", PStr name);
                      ("input_type_flags", PTuple (map json_load flags));
                      ("batch_size", PInt bs); ("max_workers", PInt mw);
                      ("tasks", PList (map json_load ts));
                      ("progress", json_load (JObj p))]))
      with (if negb (length (map json_load flags) =? 4)%nat then @inl exn bool ValueError
            else if negb (negb (bs <=? 0)) then inl ValueError
            else if negb (negb (mw <=? 0)) then inl ValueError
            else inr true).
    rewrite length_map, Hlen.
    destruct (Z.leb_spec bs 0); [lia|]. destruct (Z.leb_spec mw 0); [lia|].
    reflexivity. }
  rewrite Hvalid. reflexivity.
Qed.


End Loading.

(** ** What a queued batch carries *)

Section QueuedBatches.
Import Orchestrator.
Variable writable : string -> bool.

Lemma chunks_upto_piece {A : Type} (n fuel : nat) :
  forall (l c : list A),
    In c (chunks_upto fuel n l) -> exists pre post, l = (pre ++ c ++ post)%list.
Proof.
  induction fuel as [|fuel IH]; intros l c; simpl; [tauto|].
  destruct l as [|x l]; [simpl; tauto|].
  intros [<-|Hin].
  - exists [], (skipn n (x :: l)). simpl app. symmetry. apply firstn_skipn.
  - destruct (IH _ _ Hin) as (pre & post & Heq).
    exists (firstn n (x :: l) ++ pre)%list, post.
    rewrite <- app_assoc, <- Heq. symmetry. apply firstn_skipn.
Qed.

Lemma incomplete_keys_NoDup (st : dict Z) :
  List.NoDup (dict_keys st) -> List.NoDup (dict_keys (incomplete st)).
Proof.
  induction st as [|[k v] st IH]; simpl; intros Hnd; [constructor|].
  inversion Hnd as [|? ? Hfresh Hnd']; subst.
  destruct (negb (v =? -1)); simpl; [|now apply IH].
  constructor; [|now apply IH].
  intros Hin. apply Hfresh. unfold dict_keys, incomplete in Hin.
  apply in_map_iff in Hin as ([k' v'] & Hk & Hin). simpl in Hk. subst k'.
  apply filter_In in Hin as [Hin _].
  change (In (fst (k, v')) (map fst st)). now apply in_map.
Qed.

(** A batch of [planned] is cut from a record: each of its files has in
    the batch the status that the record has, which is not [-1]. *)
Lemma planned_batch (size : Z) (ts : list TaskRecord) (task : Task) :
  Forall (fun t => List.NoDup (dict_keys (status t))) ts ->
  In task (planned size ts) ->
  exists t,
    In t ts
    /\ Task_directory task = directory t
    /\ _video_files task = dict_keys (_status task)
    /\ forall file, In file (_video_files task) ->
         exists s, dict_get file (status t) = Some s
                   /\ dict_get file (_status task) = Some s
                   /\ s <> -1.
Proof.
  intros Hnd Hin. unfold planned in Hin. apply in_flat_map in Hin as (t & Ht & Hin).
  exists t. split; [exact Ht|].
  rewrite List.Forall_forall in Hnd. specialize (Hnd _ Ht).
  unfold plan_record in Hin. destruct (String.eqb (directory t) ""); [destruct Hin|].
  apply in_map_iff in Hin as (c & <- & Hc). cbn [Task_directory _video_files _status].
  split; [reflexivity|]. split; [reflexivity|].
  destruct (chunks_upto_piece _ _ _ _ Hc) as (pre & post & Hpiece).
  pose proof (incomplete_keys_NoDup _ Hnd) as Hnd'.
  assert (Hndc : List.NoDup (dict_keys c)).
  { rewrite Hpiece in Hnd'. unfold dict_keys in Hnd'. rewrite !map_app in Hnd'.
    apply List.NoDup_app_remove_l in Hnd'. now apply List.NoDup_app_remove_r in Hnd'. }
  intros file Hfile. unfold dict_keys in Hfile.
  apply in_map_iff in Hfile as ([k s] & Hk & Hks). simpl in Hk. subst k.
  assert (Hinc : In (file, s) (incomplete (status t))).
  { rewrite Hpiece. apply in_or_app. right. apply in_or_app. now left. }
  unfold incomplete in Hinc. apply filter_In in Hinc as [Hst Hs].
  exists s. split; [now apply dict_In_get|]. split; [now apply dict_In_get|].
  apply negb_true_iff in Hs. now apply Z.eqb_neq in Hs.
Qed.

(** X26.  What [_manage_tasks] adds to the queue are batches whose
    accessors agree with the records: each batch is cut from a record of
    the checkpoint, and for each of its files [get_status] and [statuses]
    give the status that the record holds, which is never [-1]; the
    default of [get_status] and the [None] of [statuses] do not arise. *)
Theorem queued_batches_carry_record_statuses (o : Orch) (task : Task) :
  0 < self_batch_size o ->
  Forall (fun t => List.NoDup (dict_keys (status t))) (tasks (self_checkpoint_data o)) ->
  In (Some task) (self_task_queue (_manage_tasks writable o)) ->
  In (Some task) (self_task_queue o)
  \/ exists t,
       In t (tasks (self_checkpoint_data o))
       /\ Task_directory task = directory t
       /\ statuses task = map (fun file => dict_get file (status t)) (_video_files task)
       /\ Forall (fun file => dict_get file (status t) = Some (get_status file task)
                              /\ get_status file task <> -1)
                 (_video_files task).
Proof.
  intros Hpos Hnd Hin.
  destruct (manage_tasks_planned writable (tasks (self_checkpoint_data o)) o Hpos Hnd)
    as (Hq & _). fold (_manage_tasks writable o) in Hq.
  rewrite Hq in Hin. apply in_app_or in Hin as [Hold|Hnew]; [now left|]. right.
  apply in_map_iff in Hnew as (task' & [= ->] & Hplanned).
  destruct (planned_batch _ _ _ Hnd Hplanned) as (t & Ht & Hdir & _ & Hfiles).
  exists t. split; [exact Ht|]. split; [exact Hdir|]. split.
  - unfold statuses. apply map_ext_in. intros file Hfile.
    destruct (Hfiles _ Hfile) as (s & Hrecord & Hbatch & _). congruence.
  - apply List.Forall_forall. intros file Hfile.
    destruct (Hfiles _ Hfile) as (s & Hrecord & Hbatch & Hs).
    unfold get_status. rewrite Hbatch. auto.
Qed.
End QueuedBatches.

(** ** The worker loop *)

Section WorkerLoop.
Import Orchestrator.
Variable process_task_callback : option (Task -> string -> Orch -> Orch * outcome).

(** The callback does not touch the queue. *)
Hypothesis callback_keeps_queue :
  forall callback task name o,
    process_task_callback = Some callback ->
    self_task_queue (fst (callback task name o)) = self_task_queue o.

Lemma _process_task_queue (task : Task) (name : string) (o : Orch) :
  self_task_queue (_process_task process_task_callback task name o) = self_task_queue o.
Proof.
  unfold _process_task.
  destruct process_task_callback as [callback|] eqn:Hcb; [|reflexivity].
  pose proof (callback_keeps_queue callback task name o eq_refl) as Hq.
  destruct (callback task name o) as [o' [|e]]; simpl in *; exact Hq.
Qed.

(** A worker whose callback leaves the queue alone leaves its loop at
    the sentinel, which it puts back at the end of the queue. *)
Lemma worker_joins_at_sentinel (name : string) (batch : list Task)
    (rest : list (option Task)) (steps : nat) (o : Orch) :
  self_task_queue o = (map Some batch ++ None :: rest)%list ->
  (length batch < steps)%nat ->
  let r := _worker_process process_task_callback steps name o in
  snd r = Joined /\ self_task_queue (fst r) = (rest ++ [None])%list.
Proof.
  revert steps o. induction batch as [|task batch IH]; intros steps o Hq Hsteps.
  - destruct steps as [|steps]; [simpl in Hsteps; lia|].
    simpl in Hq. simpl. rewrite Hq. simpl. auto.
  - destruct steps as [|steps]; [simpl in Hsteps; lia|].
    simpl in Hq. cbn [_worker_process]. rewrite Hq.
    apply IH; [|simpl in Hsteps; lia].
    now rewrite _process_task_queue.
Qed.

(** Without a shutdown sentinel the loop has no way out: once the
    tasks are taken the worker waits on the empty queue. *)
Theorem worker_waits_without_sentinel (name : string) (batch : list Task)
    (steps : nat) (o : Orch) :
  self_task_queue o = map Some batch ->
  (length batch < steps)%nat ->
  let r := _worker_process process_task_callback steps name o in
  snd r = Waiting /\ self_task_queue (fst r) = [].
Proof.
  revert steps o. induction batch as [|task batch IH]; intros steps o Hq Hsteps.
  - destruct steps as [|steps]; [simpl in Hsteps; lia|].
    simpl in Hq. simpl. rewrite Hq. simpl. auto.
  - destruct steps as [|steps]; [simpl in Hsteps; lia|].
    simpl in Hq. cbn [_worker_process]. rewrite Hq.
    apply IH; [|simpl in Hsteps; lia].
    now rewrite _process_task_queue.
Qed.
End WorkerLoop.

Section WorkerServes.
Import Orchestrator.
Variable callback : Task -> string -> Orch -> Orch * outcome.

(** The callback does not touch the queue. *)
Hypothesis callback_keeps_queue :
  forall task name o,
    self_task_queue (fst (callback task name o)) = self_task_queue o.

(** X27.  A worker whose callback leaves the queue alone serves the
    tasks ahead of the shutdown sentinel, and no other: each in its
    turn is taken off the queue and given to the callback, once, with
    the name of the worker; an exception of the callback is logged as
    an error and the next task is served.  At the sentinel the worker
    leaves its loop, puts the sentinel back at the end of the queue for
    the next worker, and logs that it joins. *)
Theorem worker_stops_at_sentinel (name : string) (batch : list Task)
    (rest : list (option Task)) (steps : nat) (o : Orch) :
  self_task_queue o = (map Some batch ++ None :: rest)%list ->
  (length batch < steps)%nat ->
  _worker_process (Some callback) steps name o
  = (logging INFO "Joining Worker thread"
       (with_queue (rest ++ [None])%list (served callback name batch (None :: rest) o)),
     Joined).
Proof.
  revert steps o. induction batch as [|task batch IH]; intros steps o Hq Hsteps.
  - destruct steps as [|steps]; [simpl in Hsteps; lia|].
    simpl in Hq. simpl. rewrite Hq. reflexivity.
  - destruct steps as [|steps]; [simpl in Hsteps; lia|].
    simpl in Hq. cbn [_worker_process]. rewrite Hq. cbn [served _process_task].
    pose proof (callback_keeps_queue task name
                  (with_queue (map Some batch ++ None :: rest)%list o)) as Hkeep.
    destruct (callback task name (with_queue (map Some batch ++ None :: rest)%list o))
      as [o1 [|e]]; simpl in Hkeep; apply IH; simpl; try exact Hkeep; simpl in Hsteps; lia.
Qed.
End WorkerServes.

Section WorkerWithoutCallback.
Import Orchestrator.

(** X28.  Without a callback the worker discards its tasks: it empties
    the queue up to the sentinel and joins, and nothing of the checkpoint
    has changed, so that no file of those batches is ever reported. *)
Theorem worker_without_callback_discards (name : string) (batch : list Task)
    (rest : list (option Task)) (steps : nat) (o : Orch) :
  self_task_queue o = (map Some batch ++ None :: rest)%list ->
  (length batch < steps)%nat ->
  _worker_process None steps name o
  = (logging INFO "Joining Worker thread" (with_queue (rest ++ [None])%list o), Joined).
Proof.
  revert steps o. induction batch as [|task batch IH]; intros steps o Hq Hsteps.
  - destruct steps as [|steps]; [simpl in Hsteps; lia|].
    simpl in Hq. simpl. rewrite Hq. reflexivity.
  - destruct steps as [|steps]; [simpl in Hsteps; lia|].
    simpl in Hq. cbn [_worker_process]. rewrite Hq. cbn [_process_task].
    rewrite (IH steps (with_queue (map Some batch ++ None :: rest)%list o));
      [reflexivity | reflexivity | simpl in Hsteps; lia].
Qed.
End WorkerWithoutCallback.

(** ** The first status map of a directory *)

Section InitialStatus.
Import Orchestrator.

Lemma dict_set_keys_In {V} (k g : string) (v : V) (d : dict V) :
  In g (dict_keys (dict_set k v d)) -> g = k \/ In g (dict_keys d).
Proof.
  induction d as [|[k' v'] d IH]; simpl.
  - intros [<-|[]]. now left.
  - destruct (String.eqb_spec k k') as [->|Hne]; simpl.
    + intros [<-|Hin]; auto.
    + intros [<-|Hin]; [auto|]. destruct (IH Hin); auto.
Qed.

Lemma dict_set_keys_NoDup {V} (k : string) (v : V) (d : dict V) :
  List.NoDup (dict_keys d) -> List.NoDup (dict_keys (dict_set k v d)).
Proof.
  induction d as [|[k' v'] d IH]; simpl; intros Hnd.
  - constructor; [intros [] | constructor].
  - inversion Hnd as [|? ? Hfresh Hnd']; subst.
    destruct (String.eqb_spec k k') as [->|Hne]; simpl.
    + now constructor.
    + constructor; [|now apply IH].
      intros Hin. destruct (dict_set_keys_In _ _ _ _ Hin); [congruence | tauto].
Qed.

Lemma dict_set_Forall {V} (P : string * V -> Prop) (k : string) (v : V) (d : dict V) :
  P (k, v) -> Forall P d -> Forall P (dict_set k v d).
Proof.
  intros Hk. induction d as [|[k' v'] d IH]; simpl; intros Hd.
  - now constructor.
  - inversion Hd; subst. destruct (String.eqb k k'); constructor; auto.
Qed.

Lemma dict_of_pairs_invariant {V} (P : string * V -> Prop) (kvs : list (string * V)) :
  Forall P kvs ->
  List.NoDup (dict_keys (dict_of_pairs kvs)) /\ Forall P (dict_of_pairs kvs).
Proof.
  unfold dict_of_pairs.
  assert (G : forall acc : dict V,
             Forall P kvs -> List.NoDup (dict_keys acc) -> Forall P acc ->
             List.NoDup (dict_keys (fold_left (fun d kv => dict_set (fst kv) (snd kv) d) kvs acc))
             /\ Forall P (fold_left (fun d kv => dict_set (fst kv) (snd kv) d) kvs acc)).
  { induction kvs as [|[k v] kvs IH]; intros acc Hkvs Hnd Hacc; simpl; [auto|].
    inversion Hkvs; subst. apply IH; [assumption| |].
    - now apply dict_set_keys_NoDup.
    - now apply dict_set_Forall. }
  intros Hkvs. apply G; [exact Hkvs | constructor | constructor].
Qed.

Lemma dict_set_keys_iff {V} (k g : string) (v : V) (d : dict V) :
  In g (dict_keys (dict_set k v d)) <-> g = k \/ In g (dict_keys d).
Proof.
  split; [apply dict_set_keys_In|].
  induction d as [|[k' v'] d IH]; simpl.
  - intros [->|[]]. now left.
  - destruct (String.eqb_spec k k') as [->|Hne]; simpl.
    + intros [->|[<-|Hin]]; auto.
    + intros [->|[<-|Hin]]; auto.
Qed.

Lemma dict_of_pairs_keys {V} (kvs : list (string * V)) (g : string) :
  In g (dict_keys (dict_of_pairs kvs)) <-> In g (map fst kvs).
Proof.
  unfold dict_of_pairs.
  assert (G : forall acc : dict V,
             In g (dict_keys (fold_left (fun d kv => dict_set (fst kv) (snd kv) d) kvs acc))
             <-> In g (dict_keys acc) \/ In g (map fst kvs)).
  { induction kvs as [|[k v] kvs IH]; intros acc; simpl; [tauto|].
    rewrite IH, dict_set_keys_iff. intuition. }
  rewrite G. simpl. tauto.
Qed.

(** X29.  The status map that [_prepare_initial_status] returns is that
    of the files of one listing: the listing of the bucket and prefix
    parsed from the directory under the first flag, else that of the
    local directory under the third, else the directory alone under the
    second or the fourth.  It has exactly one entry for each file
    listed, however often the listing names it, and every entry is at
    0: nothing of a new record is complete, so that the planner leaves
    none of its files out. *)
Theorem initial_status_unstarted (ls : Listings) (d : string)
    (input_flags : option (bool * bool * bool * bool)) (st : dict Z) :
  _prepare_initial_status ls d input_flags = inr st ->
  exists files,
    match input_flags with
    | Some (true, _, _, _) =>
        list_files_s3 ls (fst (S3Validator._parse_s3_path d))
          (snd (S3Validator._parse_s3_path d)) = inr files
    | Some (false, _, true, _) => list_files ls d = inr files
    | Some (false, s3_file, false, local_file) =>
        (s3_file || local_file)%bool = true /\ files = [d]
    | None => False
    end
    /\ List.NoDup (dict_keys st)
    /\ (forall file, In file (dict_keys st) <-> In file files)
    /\ Forall (fun entry => snd entry = 0) st
    /\ incomplete st = st.
Proof.
  unfold _prepare_initial_status.
  destruct input_flags as [[[[bucket_prefix s3_file] local_directory] local_file]|];
    [|discriminate].
  set (file_list := if bucket_prefix then _ else _).
  destruct file_list as [e|files] eqn:Hlist; [discriminate|]. intros [= <-].
  exists files. split.
  { subst file_list. destruct bucket_prefix.
    - destruct (S3Validator._parse_s3_path d) as [bucket prefix]. exact Hlist.
    - destruct local_directory; [exact Hlist|].
      destruct (s3_file || local_file)%bool; [|discriminate].
      split; [reflexivity|]. congruence. }
  destruct (dict_of_pairs_invariant (fun entry : string * Z => snd entry = 0)
              (map (fun file => (file, 0)) files)) as (Hnd & Hzero).
  { apply List.Forall_forall. intros entry Hin.
    apply in_map_iff in Hin as (file & <- & _). reflexivity. }
  split; [exact Hnd|]. split.
  { intros file. rewrite dict_of_pairs_keys, map_map. simpl. now rewrite map_id. }
  split; [exact Hzero|].
  revert Hzero. generalize (dict_of_pairs (map (fun file : string => (file, 0)) files)).
  induction d0 as [|[k v] st IH]; intros Hzero; [reflexivity|].
  inversion Hzero as [|? ? Hv Hrest]; subst. simpl in Hv. subst v.
  simpl. f_equal. now apply IH.
Qed.
End InitialStatus.

(** ** What the overflow keeps of a statement *)

Section Overflowing.
Import DatabaseManipulator.

(** One row, refused on each of three attempts, with overflow enabled
    and not sustained. *)
Lemma safe_execute_refused_row env sql (values : list pyval) ut w :
  (forall n, connect_ok env n = true) ->
  values <> [] ->
  (forall k, (k < 3)%nat -> execute_ok env (attempts w + k) = false) ->
  let r := safe_execute env sql (PTuple values) 3 ut true false w in
  snd r = Raised RuntimeError
  /\ committed (fst r) = committed w
  /\ csv_files (fst r)
     = <[artifact env (_db_name w) (hashes w)
         := (default [] (csv_files w !! artifact env (_db_name w) (hashes w))
               ++ [PTuple values])%list]> (csv_files w).
Proof.
  intros Hopen Hvalues Hfail. cbv zeta. unfold safe_execute, range.
  change (Z.to_nat 3) with 3%nat.
  rewrite (attempt_loop_exhausted env sql (PTuple values) 3 ut true false 2 0 []
             (record_call sql (PTuple values) w) eq_refl (or_intror (Hopen _)) Hfail).
  destruct (after_attempts_fields 3 (record_call sql (PTuple values) w))
    as (Hdb & _ & Hh & Hf & Hc).
  cbv zeta in *. cbn [_db_name hashes csv_files committed record_call] in Hdb, Hh, Hf, Hc.
  unfold on_final_failure.
  assert (Htruthy : (truthy (PTuple values) && true)%bool = true)
    by (destruct values; [contradiction | reflexivity]).
  rewrite Htruthy. cbn [list_of_tuples negb fst snd].
  cbn [committed csv_files with_conn dump_to_csv].
  unfold dump_path, artifact. rewrite Hdb, Hh, Hf, Hc. auto.
Qed.

(** X30.  The overflow keeps the values of a refused statement and not
    the statement.  When the driver refuses an [update] on each of its
    three attempts, nothing is committed and the overflow receives the
    row of the values, and nothing of the table, of the condition or of
    the kind of statement: it is the row, in the file of the same name,
    that an [insert] of the same values leaves when it is refused, by
    this driver or by any other that names the overflow file alike. *)
Theorem update_spills_like_insert (env env' : Env) table (data : dict pyval) condition
    ut ut' w :
  (forall n, connect_ok env n = true) ->
  (forall n, connect_ok env' n = true) ->
  data <> [] ->
  (forall k, (k < 3)%nat -> execute_ok env (attempts w + k) = false) ->
  (forall k, (k < 3)%nat -> execute_ok env' (attempts w + k) = false) ->
  artifact env' (_db_name w) (hashes w) = artifact env (_db_name w) (hashes w) ->
  let r := update env table data condition ut w in
  let r' := insert env' table data ut' w in
  snd r = Raised RuntimeError
  /\ committed (fst r) = committed w
  /\ csv_files (fst r)
     = <[artifact env (_db_name w) (hashes w)
         := (default [] (csv_files w !! artifact env (_db_name w) (hashes w))
               ++ [PTuple (dict_values data)])%list]> (csv_files w)
  /\ snd r' = Raised RuntimeError
  /\ csv_files (fst r') = csv_files (fst r).
Proof.
  intros Hopen Hopen' Hdata Hfail Hfail' Hname. cbv zeta. unfold update, insert.
  assert (Hvalues : dict_values data <> []) by (destruct data; [contradiction | discriminate]).
  match goal with
  | |- snd (safe_execute env ?q _ 3 ut true false w) = _ /\ _ =>
      destruct (safe_execute_refused_row env q (dict_values data) ut w Hopen Hvalues Hfail)
        as (Hout & Hc & Hf)
  end.
  match goal with
  | |- context [safe_execute env' ?q _ 3 ut' true false w] =>
      destruct (safe_execute_refused_row env' q (dict_values data) ut' w Hopen' Hvalues Hfail')
        as (Hout' & _ & Hf')
  end.
  cbv zeta in *. rewrite Hout, Hc, Hf, Hout', Hf', Hname. auto.
Qed.
End Overflowing.

(** ** The further properties at concrete inputs *)

Section WriterCases.
Import DatabaseManipulator.

(** A [DELETE], which carries no rows, refused three times. *)
Lemma safe_execute_without_rows_at_delete :
  let r := safe_execute failing_env "DELETE FROM visits WHERE frame = 1" PNone 3
             true true false (init "visits" 50) in
  csv_files (fst r) = csv_files (init "visits" 50)
  /\ hashes (fst r) = hashes (init "visits" 50).
Proof.
  apply (safe_execute_without_rows_never_spills failing_env
           "DELETE FROM visits WHERE frame = 1" PNone 3 true true false (init "visits" 50)).
  reflexivity.
Defined.

(** Two rows and no attempt allowed. *)
Lemma safe_execute_without_attempts_at_zero :
  safe_execute accepting_env "INSERT INTO visits (video, frame) VALUES (?, ?)" two_rows 0
    true true false (init "visits" 50)
  = (with_conn false
       (record_call "INSERT INTO visits (video, frame) VALUES (?, ?)" two_rows
          (init "visits" 50)),
     Returned).
Proof.
  apply (safe_execute_without_attempts accepting_env). lia.
Defined.

(** Two attempts on a driver that refuses. *)
Lemma safe_execute_returns_iff_committed_at_refusal :
  let r := safe_execute failing_env "INSERT INTO visits (video, frame) VALUES (?, ?)"
             two_rows 2 true true false (init "visits" 50) in
  (snd r = Returned
   /\ exists earlier,
        committed (fst r)
        = (committed (init "visits" 50) ++ earlier
             ++ [("INSERT INTO visits (video, frame) VALUES (?, ?)", two_rows)])%list
        /\ (true = true -> earlier = []))
  \/ (snd r = Raised RuntimeError /\ committed (fst r) = committed (init "visits" 50)).
Proof.
  apply (safe_execute_returns_iff_committed failing_env
           "INSERT INTO visits (video, frame) VALUES (?, ?)" two_rows 2 true true
           (init "visits" 50)).
  lia.
Defined.

(** The [commit] of the first attempt is refused and the second
    attempt is accepted, without [use_transaction]: the rows are
    committed twice. *)
Lemma safe_execute_retries_at_second_attempt :
  let r := safe_execute slow_env "INSERT INTO visits (video, frame) VALUES (?, ?)"
             two_rows 3 false true false (init "visits" 50) in
  snd r = Returned
  /\ committed (fst r)
     = [("INSERT INTO visits (video, frame) VALUES (?, ?)", two_rows);
        ("INSERT INTO visits (video, frame) VALUES (?, ?)", two_rows)]
  /\ attempts (fst r) = 2%nat.
Proof.
  destruct (safe_execute_retries_until_accepted slow_env
              "INSERT INTO visits (video, frame) VALUES (?, ?)" two_rows 3 false true false
              1 (init "visits" 50))
    as (Hout & Hcommitted & Hattempts & _).
  - simpl. lia.
  - right. reflexivity.
  - intros i Hi. destruct i; [reflexivity | lia].
  - reflexivity.
  - reflexivity.
  - cbv zeta. split; [exact Hout|]. split; [exact Hcommitted | exact Hattempts].
Defined.

(** A row for [videos] while a row for [visits] is pending. *)
Lemma add_to_batch_switch_at_closed_database :
  let r := add_to_batch closed_env "videos" row_b pending_writer in
  snd r = Raised RuntimeError
  /\ batch_data (fst r) = [row_a]
  /\ batch_table (fst r) = Some "visits"
  /\ committed (fst r) = committed pending_writer
  /\ csv_files (fst r) = csv_files pending_writer.
Proof.
  apply (add_to_batch_switch_cannot_connect closed_env "visits" "videos" row_b row_a []
           pending_writer);
    [reflexivity | discriminate | reflexivity | reflexivity | reflexivity].
Defined.

Lemma del_at_closed_database :
  let w' := __del__ closed_env pending_writer in
  batch_data w' = [row_a]
  /\ committed w' = committed pending_writer
  /\ csv_files w' = csv_files pending_writer.
Proof.
  apply (del_cannot_connect closed_env row_a [] pending_writer); reflexivity.
Defined.



(** The second row of the overflow file is refused. *)
Lemma replay_file_refused_at_second_row :
  let w' := replay_file tiring_env cells_of "INSERT INTO visits (video) VALUES (?)" true
              overflow_writer "dumps/emergency_dump_visits_1001.csv" in
  committed w' = [("INSERT INTO visits (video) VALUES (?)", PTuple [PStr "a.mp4"])]
  /\ csv_files w' = csv_files overflow_writer
  /\ _db_name w' = "visits".
Proof.
  apply (replay_file_refused_row_keeps_file tiring_env cells_of (fun _ => eq_refl)
           "INSERT INTO visits (video) VALUES (?)" true overflow_writer
           "dumps/emergency_dump_visits_1001.csv"
           [PTuple [PStr "a.mp4"]] (PTuple [PStr "b.mp4"]) []).
  - reflexivity.
  - vm_compute. reflexivity.
  - intros i Hi. destruct i; [reflexivity | simpl in Hi; lia].
  - intros k Hk. reflexivity.
Defined.

(** The overflow file of two rows, replayed and removed. *)
Lemma gather_dump_data_replays_overflow_file :
  let r := gather_dump_data accepting_env one_column (fun _ => true)
             (fun _ => inr ["dumps/emergency_dump_visits_1001.csv"]) cells_of (fun _ => "")
             (Some "visits") "dumps" true overflow_writer in
  snd r = None
  /\ committed (fst r)
     = [("PRAGMA table_info(visits)", PNone);
        ("INSERT INTO visits (video) VALUES (?)", PTuple [PStr "a.mp4"]);
        ("INSERT INTO visits (video) VALUES (?)", PTuple [PStr "b.mp4"])]
  /\ csv_files (fst r) !! "dumps/emergency_dump_visits_1001.csv" = None.
Proof.
  destruct (gather_dump_data_replays_once accepting_env one_column (fun _ => true)
              (fun _ => inr ["dumps/emergency_dump_visits_1001.csv"]) cells_of
              (fun _ => "") (fun _ => eq_refl) (fun _ => eq_refl)
              "visits" [PStr "video"] ["video"] "dumps"
              ["dumps/emergency_dump_visits_1001.csv"] true overflow_writer)
    as (Hout & Hcommitted & Hfiles).
  - discriminate.
  - reflexivity.
  - reflexivity.
  - reflexivity.
  - reflexivity.
  - constructor; [intros [] | constructor].
  - cbv zeta. split; [exact Hout|]. split.
    + rewrite Hcommitted. vm_compute. reflexivity.
    + rewrite Hfiles. vm_compute. reflexivity.
Defined.
(** An [update] and an [insert] of one row, each refused on its three
    attempts by a driver of its own. *)
Lemma update_spills_like_insert_at_refusal :
  let r := update failing_env "visits" row_a "frame = 1" false (init "visits" 50) in
  let r' := insert refusing_env "visits" row_a false (init "visits" 50) in
  snd r = Raised RuntimeError
  /\ committed (fst r) = []
  /\ csv_files (fst r)
     = {["dumps/emergency_dump_visits_1001.csv" := [PTuple [PStr "a.mp4"; PInt 1]]]}
  /\ snd r' = Raised RuntimeError
  /\ csv_files (fst r') = csv_files (fst r).
Proof.
  destruct (update_spills_like_insert failing_env refusing_env "visits" row_a "frame = 1"
              false false (init "visits" 50))
    as (Hout & Hc & Hf & Hout' & Hf').
  - reflexivity.
  - reflexivity.
  - discriminate.
  - intros k Hk. reflexivity.
  - intros k Hk. reflexivity.
  - reflexivity.
  - cbv zeta. split; [exact Hout|]. split; [exact Hc|]. split; [|split; assumption].
    rewrite Hf. reflexivity.
Defined.
End WriterCases.

Section NameCases.
Import S3Validator.

Lemma parse_s3_path_round_trip_at_videos :
  _parse_s3_path "s3://bucket/videos/a.mp4" = (Some "bucket", Some "videos/a.mp4")
  /\ _parse_s3_path "s3://bucket" = (Some "bucket", Some "").
Proof.
  apply (parse_s3_path_round_trip "bucket" "videos/a.mp4");
    [discriminate | reflexivity | reflexivity].
Defined.

Lemma bucket_name_with_final_newline_at_my_bucket :
  is_valid_s3_bucket_name ("my-bucket" +:+ String newline "") = true.
Proof.
  apply (bucket_name_accepted_with_final_newline "my-bucket");
    [reflexivity | discriminate].
Defined.
End NameCases.

Section OrchestratorCases.
Import Orchestrator.

Lemma two_directories_keys_distinct :
  Forall (fun t => List.NoDup (dict_keys (status t)))
         (tasks (self_checkpoint_data two_directories)).
Proof.
  repeat constructor; simpl; intuition discriminate.
Defined.

(** Scenario (1): batches of two and one for each directory. *)
Lemma manage_tasks_queues_planned_at_two_directories :
  let o' := _manage_tasks (fun _ => true) two_directories in
  self_task_queue o'
  = (self_task_queue two_directories
       ++ map Some (planned 2 (tasks (self_checkpoint_data two_directories))))%list
  /\ self_batch_size o' = 2
  /\ tasks (self_checkpoint_data o') = tasks (self_checkpoint_data two_directories).
Proof.
  apply (manage_tasks_queues_planned (fun _ => true) two_directories);
    [reflexivity | exact two_directories_keys_distinct].
Defined.

Lemma manage_tasks_twice_at_two_directories :
  let batches := map Some (planned 2 (tasks (self_checkpoint_data two_directories))) in
  self_task_queue (_manage_tasks (fun _ => true) (_manage_tasks (fun _ => true) two_directories))
  = (self_task_queue two_directories ++ batches ++ batches)%list.
Proof.
  apply (manage_tasks_twice_queues_twice (fun _ => true) two_directories);
    [reflexivity | exact two_directories_keys_distinct].
Defined.

Lemma manage_tasks_at_finished_job :
  _manage_tasks (fun _ => true) finished_job = finished_job.
Proof.
  apply (manage_tasks_finished_job (fun _ => true) finished_job).
  repeat constructor. discriminate.
Defined.

(** An update of the first file of [/A] seen from the second. *)
Lemma update_touches_one_status_at_neighbour :
  let o' := _update_task_progress (fun _ => true) "/A" "/A/1.mp4" 5 two_directories in
  status_of "/A" "/A/2.mp4" (self_checkpoint_data o')
  = status_of "/A" "/A/2.mp4" (self_checkpoint_data two_directories)
  /\ ("/A/2.mp4" <> "/A/1.mp4" ->
      dict_get "/A/2.mp4" (progress (self_checkpoint_data o'))
      = dict_get "/A/2.mp4" (progress (self_checkpoint_data two_directories))).
Proof.
  apply (update_touches_one_status (fun _ => true) "/A" "/A/1.mp4" 5 two_directories
           "/A" "/A/2.mp4").
  discriminate.
Defined.

(** The one file of [resumed_job] is reported complete. *)
Lemma last_update_completes_resumed_job :
  let o' := _update_task_progress (fun _ => true) "/data" "/data/a.mp4" (-1) resumed_job in
  exists t',
    next_task "/data" 0 (tasks (self_checkpoint_data o')) = Some (0%nat, t')
    /\ done t' = true
    /\ dict_keys (status t') = ["/data/a.mp4"]
    /\ manage_task (fun _ => true) o' t' = o'.
Proof.
  apply (last_update_completes_record (fun _ => true) "/data" "/data/a.mp4" resumed_job 0
           (mkTaskRecord "/data" [("/data/a.mp4", 7)])).
  - discriminate.
  - reflexivity.
  - constructor; [intros [] | constructor].
  - reflexivity.
  - intros g s [[= <- <-]|[]] Hg. contradiction.
Defined.

(** The checkpoint of [two_directories], written and loaded. *)
Lemma loaded_checkpoint_shape_at_two_directories :
  _initialize_checkpoint false "/ckpt/job.json"
    (fs (_write_checkpoint (fun _ => true) two_directories))
  = Loaded (py_of_state (self_checkpoint_data two_directories))
  /\ exists d name flags vb vm bs mw ts p,
    py_of_state (self_checkpoint_data two_directories) = PDict d
    /\ dict_get "task_name" d = Some (PStr name)
    /\ dict_get "input_type_flags" d = Some (PTuple flags) /\ length flags = 4%nat
    /\ dict_get "batch_size" d = Some vb /\ as_int vb = Some bs /\ 0 < bs
    /\ dict_get "max_workers" d = Some vm /\ as_int vm = Some mw /\ 0 < mw
    /\ dict_get "tasks" d = Some (PList ts)
    /\ dict_get "progress" d = Some (PDict p).
Proof.
  split; [vm_compute; reflexivity|].
  apply (loaded_checkpoint_shape false "/ckpt/job.json"
           (fs (_write_checkpoint (fun _ => true) two_directories))).
  vm_compute. reflexivity.
Defined.

Lemma checkpoint_contents_not_checked_at_odd_document :
  _initialize_checkpoint false "/ckpt/job.json" {["/ckpt/job.json" := odd_document]}
  = Loaded (PDict [("task_name", PStr "job");
                   ("input_type_flags", PTuple [PStr "yes"; PNone; PInt 3; PBool true]);
                   ("batch_size", PInt 1); ("max_workers", PInt 1);
                   ("tasks", PList [PInt 7]); ("progress", PDict [("k", PList [])])]).
Proof.
  apply (checkpoint_contents_not_checked false "/ckpt/job.json"
           {["/ckpt/job.json" := odd_document]} "job"
           [JStr "yes"; JNull; JNum 3; JBool true] [JNum 7] 1 1 [("k", JArr [])]).
  - reflexivity.
  - lia.
  - lia.
  - vm_compute. reflexivity.
Defined.


(** The last batch of [/A] in the queue of scenario (1). *)
Lemma queued_batches_at_two_directories :
  In (Some batch_A2) (self_task_queue two_directories)
  \/ exists t,
       In t (tasks (self_checkpoint_data two_directories))
       /\ Task_directory batch_A2 = directory t
       /\ statuses batch_A2
          = map (fun file => dict_get file (status t)) (_video_files batch_A2)
       /\ Forall (fun file => dict_get file (status t) = Some (get_status file batch_A2)
                              /\ get_status file batch_A2 <> -1)
                 (_video_files batch_A2).
Proof.
  apply (queued_batches_carry_record_statuses (fun _ => true) two_directories batch_A2).
  - reflexivity.
  - exact two_directories_keys_distinct.
  - vm_compute. right. left. reflexivity.
Defined.

Lemma failing_callback_keeps_queue (writable : string -> bool) (task : Task)
    (name : string) (o : Orch) :
  self_task_queue (fst (failing_callback writable task name o)) = self_task_queue o.
Proof.
  unfold failing_callback. destruct (_video_files task) as [|file files]; [reflexivity|].
  cbn [fst].
  destruct (handle_worker_update_state writable
              [("directory", PStr (Task_directory task)); ("file", PStr file);
               ("status", PInt 10)] o) as [H|[[msg H]|(d & f & n & H)]];
    cbv zeta in H; rewrite H; try reflexivity.
  apply _update_task_progress_layout.
Qed.

(** A worker whose callback reports frame 10 of the first file of its
    task and then fails, on [queued_job]: both batches are served, both
    failures are logged, and the worker joins. *)
Lemma worker_stops_at_sentinel_of_queued_job :
  let r := _worker_process (Some (failing_callback (fun _ => true))) 3 "Worker #0"
             queued_job in
  snd r = Joined
  /\ self_task_queue (fst r) = [None; None]
  /\ status_of "/A" "/A/1.mp4" (self_checkpoint_data (fst r)) = Some 10
  /\ status_of "/A" "/A/3.mp4" (self_checkpoint_data (fst r)) = Some 10
  /\ map levelname (log (fst r)) = [ERROR; ERROR; INFO].
Proof.
  cbv zeta.
  rewrite (worker_stops_at_sentinel (failing_callback (fun _ => true))
             (failing_callback_keeps_queue (fun _ => true))
             "Worker #0" [batch_A1; batch_A2] [None] 3 queued_job eq_refl);
    [|simpl; lia].
  vm_compute. auto.
Defined.

Lemma worker_without_callback_on_queued_job :
  _worker_process None 3 "Worker #0" queued_job
  = (logging INFO "Joining Worker thread" (with_queue [None; None] queued_job), Joined).
Proof.
  apply (worker_without_callback_discards "Worker #0" [batch_A1; batch_A2] [None] 3
           queued_job).
  - reflexivity.
  - simpl. lia.
Defined.

(** A local directory whose listing names a file twice. *)
Lemma initial_status_at_repeating_listing :
  _prepare_initial_status repeating_listing "/A" (Some (false, false, true, false))
  = inr [("/A/1.mp4", 0); ("/A/2.mp4", 0)]
  /\ exists files,
       list_files repeating_listing "/A" = inr files
       /\ List.NoDup (dict_keys [("/A/1.mp4", 0); ("/A/2.mp4", 0)])
       /\ (forall file,
             In file (dict_keys [("/A/1.mp4", 0); ("/A/2.mp4", 0)]) <-> In file files)
       /\ Forall (fun entry : string * Z => snd entry = 0)
                 [("/A/1.mp4", 0); ("/A/2.mp4", 0)]
       /\ incomplete [("/A/1.mp4", 0); ("/A/2.mp4", 0)] = [("/A/1.mp4", 0); ("/A/2.mp4", 0)].
Proof.
  split; [reflexivity|].
  apply (initial_status_unstarted repeating_listing "/A" (Some (false, false, true, false))
           [("/A/1.mp4", 0); ("/A/2.mp4", 0)]).
  reflexivity.
Defined.
End OrchestratorCases.
